(** * Grass-in-wind background: a shallow embedding of [assets/js/grass-wind.js]

    The animation module is numeric code over JavaScript numbers.  A number
    is modelled as a real, plus the three special values that the code can
    produce by dividing by zero ([Infinity], [-Infinity], [NaN]).  Finite
    arithmetic is exact (no rounding, no overflow) and zero is unsigned
    (it behaves as [+0]); the special values follow IEEE 754 as JavaScript
    does: [NaN] is absorbing, every comparison with [NaN] is false,
    [x / 0] is an infinity for [x <> 0] and [NaN] for [x = 0].

    The two sources of non-determinism, [Math.random()] and [Date.now()],
    are oracles of the world in which the code runs: the n-th call returns
    the n-th value of a stream. *)

From Stdlib Require Import Reals Lra Lia ZArith List String Bool.
Import ListNotations.
Open Scope R_scope.

(* ================================================================== *)
(** ** JavaScript numbers *)
(* ================================================================== *)

Inductive num : Type :=
| Fin (r : R)
| PInf
| NInf
| NaN.

Declare Scope js_scope.
Delimit Scope js_scope with js.
Bind Scope js_scope with num.

Module JS.

Definition Rltb (a b : R) : bool := if Rlt_dec a b then true else false.
Definition Rleb (a b : R) : bool := if Rle_dec a b then true else false.
Definition Reqb (a b : R) : bool := if Req_dec_T a b then true else false.

(** Unary minus. *)
Definition neg (a : num) : num :=
  match a with
  | Fin r => Fin (- r)
  | PInf => NInf
  | NInf => PInf
  | NaN => NaN
  end.

(** [a + b] *)
Definition add (a b : num) : num :=
  match a, b with
  | NaN, _ | _, NaN => NaN
  | Fin x, Fin y => Fin (x + y)
  | PInf, NInf | NInf, PInf => NaN
  | PInf, _ | _, PInf => PInf
  | NInf, _ | _, NInf => NInf
  end.

(** [a - b] *)
Definition sub (a b : num) : num := add a (neg b).

(** The infinity with the sign of [r * s] where [s] is [+1] for
    [pos = true]; [NaN] for [0 * Infinity]. *)
Definition inf_of_sign (r : R) (pos : bool) : num :=
  if Reqb r 0 then NaN
  else if Rltb 0 r then (if pos then PInf else NInf)
  else (if pos then NInf else PInf).

(** [a * b] *)
Definition mul (a b : num) : num :=
  match a, b with
  | NaN, _ | _, NaN => NaN
  | Fin x, Fin y => Fin (x * y)
  | Fin x, PInf | PInf, Fin x => inf_of_sign x true
  | Fin x, NInf | NInf, Fin x => inf_of_sign x false
  | PInf, PInf | NInf, NInf => PInf
  | PInf, NInf | NInf, PInf => NInf
  end.

(** [a / b]; the zero divisor is [+0]. *)
Definition div (a b : num) : num :=
  match a, b with
  | NaN, _ | _, NaN => NaN
  | Fin x, Fin y =>
      if Reqb y 0 then inf_of_sign x true else Fin (x / y)
  | Fin _, (PInf | NInf) => Fin 0
  | PInf, Fin y => if Rleb 0 y then PInf else NInf
  | NInf, Fin y => if Rleb 0 y then NInf else PInf
  | (PInf | NInf), (PInf | NInf) => NaN
  end.

(** [a < b] *)
Definition lt (a b : num) : bool :=
  match a, b with
  | NaN, _ | _, NaN => false
  | Fin x, Fin y => Rltb x y
  | _, NInf | PInf, _ => false
  | NInf, _ | _, PInf => true
  end.

(** [a > b] *)
Definition gt (a b : num) : bool := lt b a.

(** [a <= b] *)
Definition le (a b : num) : bool :=
  match a, b with
  | NaN, _ | _, NaN => false
  | Fin x, Fin y => Rleb x y
  | NInf, _ | _, PInf => true
  | _, NInf | PInf, _ => false
  end.

(** [Math.max(a, b)] and [Math.min(a, b)]: [NaN] if either argument is. *)
Definition Math_max (a b : num) : num :=
  match a, b with
  | NaN, _ | _, NaN => NaN
  | _, _ => if lt a b then b else a
  end.

Definition Math_min (a b : num) : num :=
  match a, b with
  | NaN, _ | _, NaN => NaN
  | _, _ => if lt b a then b else a
  end.

(** [Math.sqrt] *)
Definition Math_sqrt (a : num) : num :=
  match a with
  | Fin r => if Rltb r 0 then NaN else Fin (sqrt r)
  | PInf => PInf
  | NInf | NaN => NaN
  end.

(** [Math.floor] and [Math.ceil] *)
Definition Math_floor (a : num) : num :=
  match a with
  | Fin r => Fin (IZR (Zfloor r))
  | _ => a
  end.

Definition Math_ceil (a : num) : num :=
  match a with
  | Fin r => Fin (IZR (Zceil r))
  | _ => a
  end.

(** [Math.sin] and [Math.cos] *)
Definition Math_sin (a : num) : num :=
  match a with
  | Fin r => Fin (sin r)
  | _ => NaN
  end.

Definition Math_cos (a : num) : num :=
  match a with
  | Fin r => Fin (cos r)
  | _ => NaN
  end.

Definition Math_PI : num := Fin PI.

(** The two-argument arctangent on finite arguments, result in
    [(-PI, PI]]. *)
Definition Ratan2 (y x : R) : R :=
  if Rltb 0 x then atan (y / x)
  else if Rltb x 0 then
    (if Rleb 0 y then atan (y / x) + PI else atan (y / x) - PI)
  else if Rltb 0 y then PI / 2
  else if Rltb y 0 then - PI / 2
  else 0.

(** [Math.atan2(y, x)] *)
Definition Math_atan2 (y x : num) : num :=
  match y, x with
  | NaN, _ | _, NaN => NaN
  | Fin a, Fin b => Fin (Ratan2 a b)
  | Fin a, PInf => Fin 0
  | Fin a, NInf => if Rltb a 0 then Fin (- PI) else Fin PI
  | PInf, Fin _ => Fin (PI / 2)
  | NInf, Fin _ => Fin (- PI / 2)
  | PInf, PInf => Fin (PI / 4)
  | PInf, NInf => Fin (3 * PI / 4)
  | NInf, PInf => Fin (- PI / 4)
  | NInf, NInf => Fin (- 3 * PI / 4)
  end.

End JS.

Notation "a + b" := (JS.add a b) : js_scope.
Notation "a - b" := (JS.sub a b) : js_scope.
Notation "a * b" := (JS.mul a b) : js_scope.
Notation "a / b" := (JS.div a b) : js_scope.
Notation "- a" := (JS.neg a) : js_scope.
Notation "a <? b" := (JS.lt a b) (at level 70, no associativity) : js_scope.
Notation "a >? b" := (JS.gt a b) (at level 70, no associativity) : js_scope.
Notation "a <=? b" := (JS.le a b) (at level 70, no associativity) : js_scope.

(** A numeric literal of the source. *)
Coercion Fin : R >-> num.

Definition is_finite (a : num) : Prop := exists r, a = Fin r.
Definition not_infinite (a : num) : Prop := a <> PInf /\ a <> NInf.

(** Two-dimensional vectors, the [{ x, y }] objects of the source. *)
Record vec : Type := mkVec { vx : num; vy : num }.

(* ================================================================== *)
(** ** The world: [Math.random()] and [Date.now()] *)
(* ================================================================== *)

Record World : Type := mkWorld {
  random_stream : nat -> num;   (* the values Math.random() will return *)
  random_calls : nat;           (* how many have been consumed *)
  clock_stream : nat -> num;    (* the values Date.now() will return *)
  clock_calls : nat
}.

(** Computations that call the oracles. *)
Definition M (A : Type) : Type := World -> A * World.

Definition ret {A} (a : A) : M A := fun w => (a, w).

Definition bind {A B} (c : M A) (k : A -> M B) : M B :=
  fun w => let (a, w') := c w in k a w'.

Notation "x <- c ;; k" := (bind c (fun x => k))
  (at level 61, c at next level, right associativity).

Definition Math_random : M num :=
  fun w => (random_stream w (random_calls w),
            mkWorld (random_stream w) (S (random_calls w))
                    (clock_stream w) (clock_calls w)).

Definition Date_now : M num :=
  fun w => (clock_stream w (clock_calls w),
            mkWorld (random_stream w) (random_calls w)
                    (clock_stream w) (S (clock_calls w))).

(** [for (const a of l) { ... }] producing one result per element. *)
Fixpoint mapM {A B} (f : A -> M B) (l : list A) : M (list B) :=
  match l with
  | [] => ret []
  | a :: l' => b <- f a ;; bs <- mapM f l' ;; ret (b :: bs)
  end.

(** [l.filter(p)] for a predicate that calls the oracles. *)
Fixpoint filterM {A} (p : A -> M bool) (l : list A) : M (list A) :=
  match l with
  | [] => ret []
  | a :: l' =>
      keep <- p a ;; rest <- filterM p l' ;;
      ret (if keep then a :: rest else rest)
  end.

(** [for (const a of l) { acc = f(acc, a) }] *)
Fixpoint foldM {A S} (f : S -> A -> M S) (l : list A) (s : S) : M S :=
  match l with
  | [] => ret s
  | a :: l' => s' <- f s a ;; foldM f l' s'
  end.

(** [for (let i = i0; i < bound; i++) body]: the counter is an exact
    integer, the bound any number.  The loop may not terminate (an
    infinite bound), hence the fuel: [None] is "still running". *)
Fixpoint for_lt {S} (fuel : nat) (i : nat) (bound : num)
    (body : nat -> S -> World -> option (S * World))
    (s : S) (w : World) : option (S * World) :=
  match fuel with
  | O => None
  | Datatypes.S fuel' =>
      if (Fin (INR i) <? bound)%js then
        match body i s w with
        | Some (s', w') => for_lt fuel' (Datatypes.S i) bound body s' w'
        | None => None
        end
      else Some (s, w)
  end.

(* ================================================================== *)
(** ** Tunable defaults *)
(* ================================================================== *)

Module BladeLength.
Record t : Type := mk { min : num; max : num }.
End BladeLength.

Record Config : Type := mkConfig {
  (* Grid layout *)
  gridColumnsDesktop : num;
  gridColumnsMobile : num;
  mobileBreakpoint : num;
  bladesPerCell : num;
  (* Appearance *)
  bladeLength : BladeLength.t;
  bladeWidth : num;
  bladeAlpha : num;
  rootSize : num;
  rootAlpha : num;
  bladeColor : string;
  rootColor : string;
  (* Physics - spring model *)
  stiffness : num;
  damping : num;
  maxBend : num;
  (* Base wind field *)
  fieldScale : num;
  fieldStrength : num;
  fieldSpeed : num;
  (* Gusts *)
  gustFrequency : num;
  gustStrength : num;
  gustRadius : num;
  gustDuration : num;
  (* Mouse interaction *)
  mouseStrength : num;
  mouseRadius : num;
  mouseSmoothing : num;
  (* Performance *)
  reducedMotion : bool;
  reducedMotionFPS : num
}.

Definition DEFAULTS : Config := {|
  gridColumnsDesktop := 30;
  gridColumnsMobile := 10;
  mobileBreakpoint := 768;
  bladesPerCell := 1;
  bladeLength := BladeLength.mk 8 20;
  bladeWidth := 1.5;
  bladeAlpha := 0.4;
  rootSize := 1.5;
  rootAlpha := 0.3;
  bladeColor := "rgb(91, 111, 163)";
  rootColor := "rgb(91, 111, 163)";
  stiffness := 0.015;
  damping := 0.85;
  maxBend := (JS.Math_PI * 2)%js;
  fieldScale := 0.003;
  fieldStrength := 0.15;
  fieldSpeed := 1;
  gustFrequency := 0.2;
  gustStrength := 0.8;
  gustRadius := 200;
  gustDuration := 3000;
  mouseStrength := 0.5;
  mouseRadius := 150;
  mouseSmoothing := 0.15;
  reducedMotion := false;
  reducedMotionFPS := 5
|}.

(* ================================================================== *)
(** ** Utility functions *)
(* ================================================================== *)

(** Simple 2D Perlin-like noise using sine waves. *)
Definition noise2D (x y seed : num) : num :=
  let n := (JS.Math_sin (x * 12.9898 + y * 78.233 + seed) * 43758.5453)%js in
  (n - JS.Math_floor n)%js.

(** Smooth noise interpolation. *)
Definition smoothNoise (x y scale seed : num) : num :=
  let sx := (x * scale)%js in
  let sy := (y * scale)%js in
  let x0 := JS.Math_floor sx in
  let y0 := JS.Math_floor sy in
  let x1 := (x0 + 1)%js in
  let y1 := (y0 + 1)%js in
  let fx := (sx - x0)%js in
  let fy := (sy - y0)%js in
  let u := (fx * fx * (3 - 2 * fx))%js in
  let v := (fy * fy * (3 - 2 * fy))%js in
  let n00 := noise2D x0 y0 seed in
  let n10 := noise2D x1 y0 seed in
  let n01 := noise2D x0 y1 seed in
  let n11 := noise2D x1 y1 seed in
  let nx0 := (n00 * (1 - u) + n10 * u)%js in
  let nx1 := (n01 * (1 - u) + n11 * u)%js in
  (nx0 * (1 - v) + nx1 * v)%js.

(** Smoothstep function for smooth transitions. *)
Definition smoothstep (edge0 edge1 x : num) : num :=
  let t := JS.Math_max 0 (JS.Math_min 1 ((x - edge0) / (edge1 - edge0)))%js in
  (t * t * (3 - 2 * t))%js.

(* ================================================================== *)
(** ** Canvas operations issued by drawing *)
(* ================================================================== *)

Inductive CanvasOp : Type :=
| ClearRect (x y w h : num)
| SetGlobalAlpha (a : num)
| SetFillStyle (c : string)
| SetStrokeStyle (c : string)
| SetLineWidth (w : num)
| SetLineCap (c : string)
| BeginPath
| Arc (x y r a0 a1 : num)
| Fill
| MoveTo (x y : num)
| LineTo (x y : num)
| Stroke.

(* ================================================================== *)
(** ** class GrassBlade *)
(* ================================================================== *)

Module GrassBlade.

Record t : Type := mk {
  rootX : num;
  rootY : num;
  length : num;
  config : Config;
  angle : num;      (* physics state *)
  velocity : num    (* angular velocity *)
}.

Definition set_angle (this : t) (a : num) : t :=
  mk (rootX this) (rootY this) (length this) (config this) a (velocity this).

Definition set_velocity (this : t) (v : num) : t :=
  mk (rootX this) (rootY this) (length this) (config this) (angle this) v.

(** [constructor(x, y, length, config)]: random angle in the full range. *)
Definition constructor (x y length : num) (config : Config) : M t :=
  r <- Math_random ;;
  ret (mk x y length config ((r - 0.5) * maxBend config * 2)%js 0).

(** Lines 116-130: the torque of the wind on the blade. *)
Definition apply_wind (this : t) (windX windY : num) : t :=
  let windMagnitude := JS.Math_sqrt (windX * windX + windY * windY)%js in
  if (windMagnitude >? 0.001)%js then
    let windAngle := JS.Math_atan2 windX (- windY)%js in
    let angleDiff := (windAngle - angle this)%js in
    let torque :=
      (JS.Math_sin angleDiff * windMagnitude * stiffness (config this))%js in
    set_velocity this (velocity this + torque)%js
  else this.

(** Line 133: [this.velocity *= this.config.damping] *)
Definition apply_damping (this : t) : t :=
  set_velocity this (velocity this * damping (config this))%js.

(** Line 136: [this.angle += this.velocity] *)
Definition update_angle (this : t) : t :=
  set_angle this (angle this + velocity this)%js.

(** Line 139: clamp to max bend. *)
Definition clamp_to_max_bend (this : t) : t :=
  set_angle this
    (JS.Math_max (- maxBend (config this))%js
                 (JS.Math_min (maxBend (config this)) (angle this))).

(** [update(windX, windY)]: the four statements in sequence. *)
Definition update (this : t) (windX windY : num) : t :=
  let this := apply_wind this windX windY in
  let this := apply_damping this in
  let this := update_angle this in
  clamp_to_max_bend this.

(** [draw(ctx)]: the operations issued on the canvas context. *)
Definition draw (this : t) : list CanvasOp :=
  let tipX := (rootX this + JS.Math_sin (angle this) * length this)%js in
  let tipY := (rootY this - JS.Math_cos (angle this) * length this)%js in
  [ SetGlobalAlpha (rootAlpha (config this));
    SetFillStyle (rootColor (config this));
    BeginPath;
    Arc (rootX this) (rootY this) (rootSize (config this)) 0
        (JS.Math_PI * 2)%js;
    Fill;
    SetGlobalAlpha (bladeAlpha (config this));
    SetStrokeStyle (bladeColor (config this));
    SetLineWidth (bladeWidth (config this));
    SetLineCap "round";
    BeginPath;
    MoveTo (rootX this) (rootY this);
    LineTo tipX tipY;
    Stroke ].

End GrassBlade.

(* ================================================================== *)
(** ** class Gust *)
(* ================================================================== *)

Module Gust.

Record t : Type := mk {
  x : num;
  y : num;
  config : Config;
  birthTime : num;
  duration : num;
  angle : num;
  dirX : num;
  dirY : num
}.

(** [constructor(x, y, config)]: random direction. *)
Definition constructor (x y : num) (config : Config) : M t :=
  now <- Date_now ;;
  r <- Math_random ;;
  let angle := (r * JS.Math_PI * 2)%js in
  ret (mk x y config now (gustDuration config) angle
          (JS.Math_cos angle) (JS.Math_sin angle)).

(** [isAlive()] *)
Definition isAlive (this : t) : M bool :=
  now <- Date_now ;;
  ret ((now - birthTime this) <? duration this)%js.

(** Lines 200-214 of [getForce]: the force within the radius, [now]
    being what [Date.now()] returned. *)
Definition force_within (this : t) (dist now : num) : vec :=
  let distFalloff := (1 - dist / gustRadius (config this))%js in
  let age := (now - birthTime this)%js in
  let t := (age / duration this)%js in
  let timeEnvelope :=
    (smoothstep 0 0.2 t * (1 - smoothstep 0.7 1 t))%js in
  let strength := (gustStrength (config this) * distFalloff * timeEnvelope)%js in
  mkVec (dirX this * strength)%js (dirY this * strength)%js.

(** [getForce(x, y)]: gust influence at a position. *)
Definition getForce (this : t) (x y : num) : M vec :=
  let dx := (x - Gust.x this)%js in
  let dy := (y - Gust.y this)%js in
  let dist := JS.Math_sqrt (dx * dx + dy * dy)%js in
  if (dist >? gustRadius (config this))%js then ret (mkVec 0 0)
  else now <- Date_now ;; ret (force_within this dist now).

End Gust.

(* ================================================================== *)
(** ** class GrassWindBackground *)
(* ================================================================== *)

Module GrassWindBackground.

(** The simulation state (the canvas, its context and the scheduling
    handles are the browser's). *)
Record t : Type := mk {
  config : Config;
  width : num;
  height : num;
  blades : list GrassBlade.t;
  gusts : list Gust.t;
  time : num;
  mouseX : num;
  mouseY : num;
  lastMouseX : num;
  lastMouseY : num;
  mouseVelX : num;
  mouseVelY : num;
  smoothMouseVelX : num;
  smoothMouseVelY : num;
  isMouseOver : bool
}.

Definition set_blades (this : t) (bs : list GrassBlade.t) : t :=
  mk (config this) (width this) (height this) bs (gusts this) (time this)
     (mouseX this) (mouseY this) (lastMouseX this) (lastMouseY this)
     (mouseVelX this) (mouseVelY this)
     (smoothMouseVelX this) (smoothMouseVelY this) (isMouseOver this).

Definition set_gusts (this : t) (gs : list Gust.t) : t :=
  mk (config this) (width this) (height this) (blades this) gs (time this)
     (mouseX this) (mouseY this) (lastMouseX this) (lastMouseY this)
     (mouseVelX this) (mouseVelY this)
     (smoothMouseVelX this) (smoothMouseVelY this) (isMouseOver this).

Definition set_time (this : t) (tm : num) : t :=
  mk (config this) (width this) (height this) (blades this) (gusts this) tm
     (mouseX this) (mouseY this) (lastMouseX this) (lastMouseY this)
     (mouseVelX this) (mouseVelY this)
     (smoothMouseVelX this) (smoothMouseVelY this) (isMouseOver this).

Definition set_mouseVel (this : t) (velX velY smoothX smoothY : num) : t :=
  mk (config this) (width this) (height this) (blades this) (gusts this)
     (time this)
     (mouseX this) (mouseY this) (lastMouseX this) (lastMouseY this)
     velX velY smoothX smoothY (isMouseOver this).

(** The innermost statement of [setupBlades] (lines 297-304): one blade
    at the centre of cell [(row, col)]. *)
Definition push_blade (cfg : Config) (cellSize : num) (row col : nat)
    (bs : list GrassBlade.t) : M (list GrassBlade.t) :=
  let x := (Fin (INR col) * cellSize + cellSize / 2)%js in
  let y := (Fin (INR row) * cellSize + cellSize / 2)%js in
  r <- Math_random ;;
  let length :=
    (BladeLength.min (bladeLength cfg) +
     r * (BladeLength.max (bladeLength cfg) - BladeLength.min (bladeLength cfg)))%js in
  blade <- GrassBlade.constructor x y length cfg ;;
  ret (bs ++ [blade]).

(** [setupBlades()]: generate grass blades based on grid layout. *)
Definition setupBlades (fuel : nat) (this : t) (w : World)
    : option (t * World) :=
  let isMobile := (width this <=? mobileBreakpoint (config this))%js in
  let columns :=
    if isMobile then gridColumnsMobile (config this)
    else gridColumnsDesktop (config this) in
  let cellSize := (width this / columns)%js in
  let rows := JS.Math_ceil (height this / cellSize)%js in
  match
    for_lt fuel 0 rows (fun row =>
      for_lt fuel 0 columns (fun col =>
        for_lt fuel 0 (bladesPerCell (config this)) (fun _ bs w =>
          Some (push_blade (config this) cellSize row col bs w))))
      [] w
  with
  | Some (bs, w') => Some (set_blades this bs, w')
  | None => None
  end.

(** The loop body of lines 353-357. *)
Definition add_gust_force (x y : num) (wind : vec) (gust : Gust.t) : M vec :=
  gustForce <- Gust.getForce gust x y ;;
  ret (mkVec (vx wind + vx gustForce)%js (vy wind + vy gustForce)%js).

(** Lines 360-372: the mouse wind. *)
Definition add_mouse_wind (this : t) (x y : num) (wind : vec) : vec :=
  if isMouseOver this then
    let dx := (x - mouseX this)%js in
    let dy := (y - mouseY this)%js in
    let dist := JS.Math_sqrt (dx * dx + dy * dy)%js in
    if (dist <? mouseRadius (config this))%js && (dist >? 0)%js then
      let distFalloff := (1 - dist / mouseRadius (config this))%js in
      let mouseForce := (distFalloff * mouseStrength (config this))%js in
      mkVec (vx wind + smoothMouseVelX this * mouseForce)%js
            (vy wind + smoothMouseVelY this * mouseForce)%js
    else wind
  else wind.

(** [getWindForce(x, y)]: wind force at a position. *)
Definition getWindForce (this : t) (x y : num) : M vec :=
  let noiseValue := smoothNoise x y (fieldScale (config this)) (time this) in
  let noiseAngle := (noiseValue * JS.Math_PI * 2)%js in
  let wind :=
    mkVec (JS.Math_cos noiseAngle * fieldStrength (config this))%js
          (JS.Math_sin noiseAngle * fieldStrength (config this))%js in
  wind <- foldM (add_gust_force x y) (gusts this) wind ;;
  ret (add_mouse_wind this x y wind).

(** Lines 383-390: mouse velocity with smoothing. *)
Definition update_mouse (this : t) : t :=
  if isMouseOver this then
    let velX := (mouseX this - lastMouseX this)%js in
    let velY := (mouseY this - lastMouseY this)%js in
    set_mouseVel this velX velY
      (smoothMouseVelX this +
       (velX - smoothMouseVelX this) * mouseSmoothing (config this))%js
      (smoothMouseVelY this +
       (velY - smoothMouseVelY this) * mouseSmoothing (config this))%js
  else this.

(** [===] on numbers. *)
Definition strict_eq (a b : num) : bool :=
  match a, b with
  | Fin x, Fin y => JS.Reqb x y
  | PInf, PInf | NInf, NInf => true
  | _, _ => false
  end.

(** Lines 401-419: a position on one of the four edges.  When no case
    of the switch matches, both coordinates stay [undefined], which
    every later arithmetic use turns into [NaN]. *)
Definition edge_position (this : t) : M (num * num) :=
  r <- Math_random ;;
  let edge := JS.Math_floor (r * 4)%js in
  if strict_eq edge 0 then
    r <- Math_random ;;
    ret ((r * width this)%js, (- gustRadius (config this) * 0.5)%js)
  else if strict_eq edge 1 then
    r <- Math_random ;;
    ret ((width this + gustRadius (config this) * 0.5)%js,
         (r * height this)%js)
  else if strict_eq edge 2 then
    r <- Math_random ;;
    ret ((r * width this)%js,
         (height this + gustRadius (config this) * 0.5)%js)
  else if strict_eq edge 3 then
    r <- Math_random ;;
    ret ((- gustRadius (config this) * 0.5)%js, (r * height this)%js)
  else ret (NaN, NaN).

(** Lines 393-427: spawn new gusts randomly from all directions. *)
Definition spawn_gust (this : t) : M t :=
  r <- Math_random ;;
  if (r <? gustFrequency (config this))%js then
    r <- Math_random ;;
    let spawnFromEdge := (r <? 0.7)%js in
    pos <-
      (if spawnFromEdge then edge_position this
       else
         rx <- Math_random ;;
         ry <- Math_random ;;
         ret ((rx * width this)%js, (ry * height this)%js)) ;;
    gust <- Gust.constructor (fst pos) (snd pos) (config this) ;;
    ret (set_gusts this (gusts this ++ [gust]))
  else ret this.

(** Lines 433-436: update one blade with the wind at its root. *)
Definition update_blade (this : t) (blade : GrassBlade.t) : M GrassBlade.t :=
  wind <- getWindForce this (GrassBlade.rootX blade) (GrassBlade.rootY blade) ;;
  ret (GrassBlade.update blade (vx wind) (vy wind)).

(** [update(deltaTime)]: update simulation state. *)
Definition update (this : t) (deltaTime : num) : M t :=
  let this :=
    set_time this (time this + fieldSpeed (config this) * deltaTime)%js in
  let this := update_mouse this in
  this <- spawn_gust this ;;
  alive <- filterM Gust.isAlive (gusts this) ;;
  let this := set_gusts this alive in
  bs <- mapM (update_blade this) (blades this) ;;
  ret (set_blades this bs).

(** [render()]: the operations issued on the canvas context. *)
Definition render (this : t) : list CanvasOp :=
  [ClearRect 0 0 (width this) (height this)]
  ++ flat_map GrassBlade.draw (blades this)
  ++ [SetGlobalAlpha 1].

End GrassWindBackground.

(* ================================================================== *)
(** ** The specification's wording of the operations *)
(* ================================================================== *)

Module Spec.

(** Section 4.4, steps 1 to 8 of the blade update, on the pair
    [(angle, velocity)] with the three physics constants. *)
Definition blade_step (stiffness damping maxBend : num)
    (angle velocity wx wy : num) : num * num :=
  let m := JS.Math_sqrt (wx * wx + wy * wy)%js in                 (* 1 *)
  let velocity1 :=
    if (m >? 0.001)%js then
      let thetaw := JS.Math_atan2 wx (- wy)%js in                 (* 2 *)
      let delta := (thetaw - angle)%js in                         (* 3 *)
      let torque := (JS.Math_sin delta * m * stiffness)%js in     (* 4 *)
      (velocity + torque)%js                                      (* 5 *)
    else velocity in
  let velocity2 := (velocity1 * damping)%js in                    (* 6 *)
  let angle1 := (angle + velocity2)%js in                         (* 7 *)
  let angle2 :=
    JS.Math_max (- maxBend)%js (JS.Math_min maxBend angle1) in    (* 8 *)
  (angle2, velocity2).

(** The cubic [3t^2 - 2t^3]. *)
Definition cubic (t : R) : R := t * t * (3 - 2 * t).

(** Section 4.2 (b): the time envelope over the normalised age [t]:
    smoothstep in over the first 20%, full strength, complementary
    smoothstep out over the last 30%. *)
Definition envelope (t : R) : R :=
  if JS.Rleb t 0 then 0
  else if JS.Rltb t 0.2 then cubic (t / 0.2)
  else if JS.Rleb t 0.7 then 1
  else if JS.Rltb t 1 then 1 - cubic ((t - 0.7) / 0.3)
  else 0.

(** Vector sum. *)
Definition vadd (a b : vec) : vec :=
  mkVec (vx a + vx b)%js (vy a + vy b)%js.

Definition vscale (a : vec) (k : num) : vec :=
  mkVec (vx a * k)%js (vy a * k)%js.

(** Euclidean magnitude. *)
Definition magnitude (a : vec) : num :=
  JS.Math_sqrt (vx a * vx a + vy a * vy a)%js.

(** Euclidean distance between two points. *)
Definition distance (x1 y1 x2 y2 : R) : R :=
  sqrt ((x1 - x2) * (x1 - x2) + (y1 - y2) * (y1 - y2)).

(** Section 4.3: the ambient noise-derived vector at a point. *)
Definition ambient (cfg : Config) (time x y : num) : vec :=
  let value := smoothNoise x y (fieldScale cfg) time in
  let angle := (value * JS.Math_PI * 2)%js in
  mkVec (JS.Math_cos angle * fieldStrength cfg)%js
        (JS.Math_sin angle * fieldStrength cfg)%js.

(** Section 4.3: the pointer-derived term at distance [dist] of the
    pointer: the smoothed velocity scaled by
    [(1 - dist/mouseRadius) * mouseStrength]. *)
Definition pointer_term (this : GrassWindBackground.t) (dist : num) : vec :=
  vscale (mkVec (GrassWindBackground.smoothMouseVelX this)
                (GrassWindBackground.smoothMouseVelY this))
         ((1 - dist / mouseRadius (GrassWindBackground.config this))
          * mouseStrength (GrassWindBackground.config this))%js.

(** Section 4.3: the composition rule, a plain sum: the ambient vector,
    plus the force of every gust, plus the pointer term when the pointer
    is over the tracked area and [near dist mouseRadius] holds. *)
Definition composed (near : num -> num -> bool)
    (this : GrassWindBackground.t) (x y : num) (gustForces : list vec)
    : vec :=
  let sum :=
    fold_left vadd gustForces
      (ambient (GrassWindBackground.config this)
               (GrassWindBackground.time this) x y) in
  let dx := (x - GrassWindBackground.mouseX this)%js in
  let dy := (y - GrassWindBackground.mouseY this)%js in
  let dist := JS.Math_sqrt (dx * dx + dy * dy)%js in
  if GrassWindBackground.isMouseOver this
     && near dist (mouseRadius (GrassWindBackground.config this))
  then vadd sum (pointer_term this dist)
  else sum.

(** "within [mouseRadius] of the query point", as the specification
    words it. *)
Definition within (dist radius : num) : bool := (dist <? radius)%js.

(** Within the radius and not at the pointer itself. *)
Definition within_apart (dist radius : num) : bool :=
  (dist <? radius)%js && (dist >? 0)%js.

(** Section 4.5, resize/layout: the column count from the width against
    the mobile breakpoint. *)
Definition grid_columns (this : GrassWindBackground.t) : num :=
  let cfg := GrassWindBackground.config this in
  if (GrassWindBackground.width this <=? mobileBreakpoint cfg)%js
  then gridColumnsMobile cfg else gridColumnsDesktop cfg.

(** The side of the square cells. *)
Definition grid_cellSize (this : GrassWindBackground.t) : num :=
  (GrassWindBackground.width this / grid_columns this)%js.

(** The row count: the ceiling of the height over the cell size. *)
Definition grid_rows (this : GrassWindBackground.t) : num :=
  JS.Math_ceil (GrassWindBackground.height this / grid_cellSize this)%js.

(** The centre of cell [(row, col)]. *)
Definition cell_center (cellSize : num) (row col : nat) : num * num :=
  ((Fin (INR col) * cellSize + cellSize / 2)%js,
   (Fin (INR row) * cellSize + cellSize / 2)%js).

(** The centres of the cells of a grid, row by row. *)
Definition grid_centers (cellSize : num) (nrows ncols : nat)
    : list (num * num) :=
  flat_map (fun row => map (cell_center cellSize row) (seq 0 ncols))
           (seq 0 nrows).

End Spec.

(* ================================================================== *)
(** ** Vocabulary of the statements *)
(* ================================================================== *)

(** Running a blade through a sequence of wind samples. *)
Definition run_blade (b : GrassBlade.t) (winds : list (num * num))
    : GrassBlade.t :=
  fold_left (fun b wd => GrassBlade.update b (fst wd) (snd wd)) winds b.

(** The blade's angle is a number of [[-maxBend, +maxBend]]. *)
Definition in_bend (b : GrassBlade.t) : Prop :=
  exists a mb,
    GrassBlade.angle b = Fin a /\
    maxBend (GrassBlade.config b) = Fin mb /\
    - mb <= a <= mb.

(** Physics constants a blade can be simulated with. *)
Definition physics_ok (cfg : Config) : Prop :=
  is_finite (stiffness cfg) /\ is_finite (damping cfg) /\
  exists mb, maxBend cfg = Fin mb /\ 0 <= mb.

(** [Math.random()] returns a number of [[0, 1)]. *)
Definition unit_random (a : num) : Prop :=
  exists r, a = Fin r /\ 0 <= r < 1.

(** The blade's angle and velocity are finite numbers. *)
Definition finite_state (b : GrassBlade.t) : Prop :=
  is_finite (GrassBlade.angle b) /\ is_finite (GrassBlade.velocity b).

(** A world whose random source always yields 0.5 and whose clock
    always reads 0. *)
Definition still_world : World :=
  mkWorld (fun _ => Fin 0.5) 0 (fun _ => Fin 0) 0.

(** The clamp of line 139 on reals. *)
Definition clampR (mb x : R) : R := Rmax (- mb) (Rmin mb x).

(** [n] ticks of zero wind. *)
Definition calm (n : nat) (b : GrassBlade.t) : GrassBlade.t :=
  run_blade b (repeat (Fin 0, Fin 0) n).

(** The angle after [n] calm ticks, from angle [a] and velocity [v]. *)
Fixpoint calm_angle (mb d a v : R) (n : nat) : R :=
  match n with
  | O => a
  | S n' => clampR mb (calm_angle mb d a v n' + v * d ^ S n')
  end.

(** The sum [v*d + ... + v*d^n] added to [a]. *)
Definition drift (d a v : R) (n : nat) : R :=
  a + v * d * (1 - d ^ n) / (1 - d).

(** How many times [for (i = 0; i < bound; i++)] runs its body; [None]
    when it never stops. *)
Definition trips (bound : num) : option nat :=
  match bound with
  | Fin r => Some (Z.to_nat (Zceil r))
  | PInf => None
  | NInf | NaN => Some 0%nat
  end.

(** The root positions of a list of blades. *)
Definition roots (bs : list GrassBlade.t) : list (num * num) :=
  map (fun b => (GrassBlade.rootX b, GrassBlade.rootY b)) bs.

(** The default configuration in a 1200 x 600 container. *)
Definition desktop_container : GrassWindBackground.t :=
  GrassWindBackground.mk DEFAULTS 1200 600 [] [] 0 0 0 0 0 0 0 0 0 false.

(** The same after a resize to 600 x 600. *)
Definition mobile_container : GrassWindBackground.t :=
  GrassWindBackground.mk DEFAULTS 600 600 [] [] 0 0 0 0 0 0 0 0 0 false.

(** The pointer resting on the query point, moving right, no gust. *)
Definition pointer_on_query : GrassWindBackground.t :=
  GrassWindBackground.mk DEFAULTS 800 600 [] [] 0
    10 10 9 10 1 0 1 0 true.

(** What [Math.sqrt] can return. *)
Definition sqrt_value (a : num) : Prop :=
  a = NaN \/ a = PInf \/ exists d, a = Fin d /\ 0 <= d.

(** A vector without an infinite component. *)
Definition nf_vec (v : vec) : Prop :=
  not_infinite (vx v) /\ not_infinite (vy v).

(** A gust whose strength, radius and direction are not infinite; its
    position, birth time and duration are arbitrary. *)
Definition gust_ok (g : Gust.t) : Prop :=
  not_infinite (gustStrength (Gust.config g)) /\
  not_infinite (gustRadius (Gust.config g)) /\
  not_infinite (Gust.dirX g) /\ not_infinite (Gust.dirY g).

(** A blade in a finite state with finite physics constants. *)
Definition blade_ok (b : GrassBlade.t) : Prop :=
  finite_state b /\
  is_finite (stiffness (GrassBlade.config b)) /\
  is_finite (damping (GrassBlade.config b)) /\
  is_finite (maxBend (GrassBlade.config b)).

(** A blade whose bend limit, when finite, is not negative. *)
Definition bend_ok (b : GrassBlade.t) : Prop :=
  forall mb, maxBend (GrassBlade.config b) = Fin mb -> 0 <= mb.

(** The sources of wind of a simulation, none infinite. *)
Definition wind_sources_ok (this : GrassWindBackground.t) : Prop :=
  not_infinite (fieldStrength (GrassWindBackground.config this)) /\
  not_infinite (mouseStrength (GrassWindBackground.config this)) /\
  not_infinite (GrassWindBackground.smoothMouseVelX this) /\
  not_infinite (GrassWindBackground.smoothMouseVelY this) /\
  Forall gust_ok (GrassWindBackground.gusts this).

(** A simulation whose wind constants, pointer data and gust directions
    are not infinite and whose blades are in a finite state; the gust
    radius may be zero, the gust duration is arbitrary. *)
Definition sim_ok (this : GrassWindBackground.t) : Prop :=
  let cfg := GrassWindBackground.config this in
  (not_infinite (fieldStrength cfg) /\ not_infinite (gustStrength cfg) /\
   not_infinite (gustRadius cfg) /\ not_infinite (mouseStrength cfg) /\
   not_infinite (mouseSmoothing cfg)) /\
  (not_infinite (GrassWindBackground.mouseX this) /\
   not_infinite (GrassWindBackground.mouseY this) /\
   not_infinite (GrassWindBackground.lastMouseX this) /\
   not_infinite (GrassWindBackground.lastMouseY this) /\
   not_infinite (GrassWindBackground.smoothMouseVelX this) /\
   not_infinite (GrassWindBackground.smoothMouseVelY this)) /\
  Forall gust_ok (GrassWindBackground.gusts this) /\
  Forall blade_ok (GrassWindBackground.blades this).

(** [{ ...DEFAULTS, gustRadius, gustDuration }]: a configuration with
    the two gust shape options overridden. *)
Definition with_gust_shape (cfg : Config) (radius duration : num) : Config :=
  mkConfig (gridColumnsDesktop cfg) (gridColumnsMobile cfg)
    (mobileBreakpoint cfg) (bladesPerCell cfg) (bladeLength cfg)
    (bladeWidth cfg) (bladeAlpha cfg) (rootSize cfg) (rootAlpha cfg)
    (bladeColor cfg) (rootColor cfg) (stiffness cfg) (damping cfg)
    (maxBend cfg) (fieldScale cfg) (fieldStrength cfg) (fieldSpeed cfg)
    (gustFrequency cfg) (gustStrength cfg) radius duration
    (mouseStrength cfg) (mouseRadius cfg) (mouseSmoothing cfg)
    (reducedMotion cfg) (reducedMotionFPS cfg).

(** A gust of zero radius born at time 1000 at (100, 100). *)
Definition zero_radius_gust : Gust.t :=
  fst (Gust.constructor (Fin 100) (Fin 100) (with_gust_shape DEFAULTS 0 3000)
         (mkWorld (fun _ => Fin 0.25) 0 (fun _ => Fin 1000) 0)).

(** A simulation with zero gust radius and duration, a blade rooted at
    the position of a gust. *)
Definition degenerate_sim : GrassWindBackground.t :=
  GrassWindBackground.mk (with_gust_shape DEFAULTS 0 0) 800 600
    [GrassBlade.mk 100 100 10 (with_gust_shape DEFAULTS 0 0) 0.5 0.1]
    [Gust.mk 100 100 (with_gust_shape DEFAULTS 0 0) 1000 0 0 1 0]
    0 0 0 0 0 0 0 0 0 false.

(* ================================================================== *)
(** ** Event handlers *)
(* ================================================================== *)

Module Events.

(** [this.lastMouseX = ...; this.lastMouseY = ...; this.mouseX = ...;
    this.mouseY = ...] *)
Definition set_pointer (this : GrassWindBackground.t)
    (mx my lx ly : num) : GrassWindBackground.t :=
  GrassWindBackground.mk
    (GrassWindBackground.config this) (GrassWindBackground.width this)
    (GrassWindBackground.height this) (GrassWindBackground.blades this)
    (GrassWindBackground.gusts this) (GrassWindBackground.time this)
    mx my lx ly
    (GrassWindBackground.mouseVelX this) (GrassWindBackground.mouseVelY this)
    (GrassWindBackground.smoothMouseVelX this)
    (GrassWindBackground.smoothMouseVelY this)
    (GrassWindBackground.isMouseOver this).

(** Lines 320-326, [mousemove]: [clientX], [clientY] are the event's, the
    rectangle is what [getBoundingClientRect()] returned. *)
Definition mouseMoveHandler (this : GrassWindBackground.t)
    (clientX clientY rectLeft rectTop : num) : GrassWindBackground.t :=
  set_pointer this
    (clientX - rectLeft)%js (clientY - rectTop)%js
    (GrassWindBackground.mouseX this) (GrassWindBackground.mouseY this).

(** Lines 328-330, [mouseenter]. *)
Definition mouseEnterHandler (this : GrassWindBackground.t)
    : GrassWindBackground.t :=
  GrassWindBackground.mk
    (GrassWindBackground.config this) (GrassWindBackground.width this)
    (GrassWindBackground.height this) (GrassWindBackground.blades this)
    (GrassWindBackground.gusts this) (GrassWindBackground.time this)
    (GrassWindBackground.mouseX this) (GrassWindBackground.mouseY this)
    (GrassWindBackground.lastMouseX this)
    (GrassWindBackground.lastMouseY this)
    (GrassWindBackground.mouseVelX this) (GrassWindBackground.mouseVelY this)
    (GrassWindBackground.smoothMouseVelX this)
    (GrassWindBackground.smoothMouseVelY this)
    true.

(** Lines 332-336, [mouseleave]. *)
Definition mouseLeaveHandler (this : GrassWindBackground.t)
    : GrassWindBackground.t :=
  GrassWindBackground.mk
    (GrassWindBackground.config this) (GrassWindBackground.width this)
    (GrassWindBackground.height this) (GrassWindBackground.blades this)
    (GrassWindBackground.gusts this) (GrassWindBackground.time this)
    (GrassWindBackground.mouseX this) (GrassWindBackground.mouseY this)
    (GrassWindBackground.lastMouseX this)
    (GrassWindBackground.lastMouseY this)
    (GrassWindBackground.mouseVelX this) (GrassWindBackground.mouseVelY this)
    0 0
    false.

End Events.

(* ================================================================== *)
(** ** The animation loop *)
(* ================================================================== *)

Module Animation.

(** The browser's list of animation frame callbacks: the last handle it
    issued and the handles still pending.  Handles start at 1. *)
Record Frames : Type := mkFrames {
  last_handle : nat;
  pending : list nat
}.

(** [requestAnimationFrame(callback)]: the new handle. *)
Definition requestAnimationFrame (fr : Frames) : nat * Frames :=
  let h := S (last_handle fr) in
  (h, mkFrames h (pending fr ++ [h])).

(** [cancelAnimationFrame(handle)] *)
Definition cancelAnimationFrame (h : nat) (fr : Frames) : Frames :=
  mkFrames (last_handle fr) (filter (fun h' => negb (Nat.eqb h' h)) (pending fr)).

(** The instance with its two scheduling fields; [animationFrame] is
    [null] or a handle. *)
Record t : Type := mk {
  sim : GrassWindBackground.t;
  animationFrame : option nat;
  lastFrameTime : num
}.

(** [!x] for a number. *)
Definition falsy (a : num) : bool :=
  match a with
  | Fin r => JS.Reqb r 0
  | NaN => true
  | _ => false
  end.

(** [!this.animationFrame] *)
Definition no_frame (a : option nat) : bool :=
  match a with
  | None => true
  | Some h => Nat.eqb h 0
  end.

(** [animate(currentTime)]: the new instance, the canvas operations of
    the frame (none when the frame is skipped), the world and the
    browser's callbacks. *)
Definition animate (this : t) (currentTime : num) (w : World) (fr : Frames)
    : t * list CanvasOp * World * Frames :=
  let last :=
    if falsy (lastFrameTime this) then currentTime else lastFrameTime this in
  let deltaTime := (currentTime - last)%js in
  let cfg := GrassWindBackground.config (sim this) in
  if reducedMotion cfg && (deltaTime <? 1000 / reducedMotionFPS cfg)%js then
    let (h, fr') := requestAnimationFrame fr in
    (mk (sim this) (Some h) last, [], w, fr')
  else
    let (sim', w') := GrassWindBackground.update (sim this) deltaTime w in
    let ops := GrassWindBackground.render sim' in
    let (h, fr') := requestAnimationFrame fr in
    (mk sim' (Some h) currentTime, ops, w', fr').

(** [start()] *)
Definition start (this : t) (fr : Frames) : t * Frames :=
  if no_frame (animationFrame this) then
    let (h, fr') := requestAnimationFrame fr in
    (mk (sim this) (Some h) (lastFrameTime this), fr')
  else (this, fr).

(** [stop()] *)
Definition stop (this : t) (fr : Frames) : t * Frames :=
  match animationFrame this with
  | Some h =>
      if Nat.eqb h 0 then (this, fr)
      else (mk (sim this) None (lastFrameTime this), cancelAnimationFrame h fr)
  | None => (this, fr)
  end.

End Animation.

(* ================================================================== *)
(** ** Vocabulary of the further statements *)
(* ================================================================== *)

(** A sequence of frame updates, one per elapsed time. *)
Definition run_updates (this : GrassWindBackground.t) (deltaTimes : list num)
    : M GrassWindBackground.t :=
  foldM GrassWindBackground.update deltaTimes this.

(** Every later call of [Date.now()] returns [now]: the clock does not
    tick during what follows. *)
Definition clock_reads (now : num) (w : World) : Prop :=
  forall n, (clock_calls w <= n)%nat -> clock_stream w n = now.

(** Every call of [Math.random()] returns a number of [[0, 1)]. *)
Definition random_in_unit (w : World) : Prop :=
  forall n, unit_random (random_stream w n).

(** [w'] is [w] after some calls of the oracles. *)
Definition world_le (w w' : World) : Prop :=
  random_stream w' = random_stream w /\
  clock_stream w' = clock_stream w /\
  (random_calls w <= random_calls w')%nat /\
  (clock_calls w <= clock_calls w')%nat.

(** A computation that only consumes oracle values. *)
Definition advances {A} (c : M A) : Prop :=
  forall w, world_le w (snd (c w)).

(** [isAlive()] when [Date.now()] returns [now]. *)
Definition alive_at (now : num) (g : Gust.t) : bool :=
  (now - Gust.birthTime g <? Gust.duration g)%js.

(** [getForce(x, y)] when [Date.now()] returns [now]. *)
Definition force_at (now : num) (x y : num) (g : Gust.t) : vec :=
  fst (Gust.getForce g x y (mkWorld (fun _ => NaN) 0 (fun _ => now) 0)).

(** A gust with finite data, a positive radius and a positive
    duration. *)
Definition regular_gust (g : Gust.t) : Prop :=
  (exists gx gy, Gust.x g = Fin gx /\ Gust.y g = Fin gy) /\
  (exists tb dur, Gust.birthTime g = Fin tb /\
                  Gust.duration g = Fin dur /\ 0 < dur) /\
  (exists rad gs, gustRadius (Gust.config g) = Fin rad /\ 0 < rad /\
                  gustStrength (Gust.config g) = Fin gs) /\
  (exists dx dy, Gust.dirX g = Fin dx /\ Gust.dirY g = Fin dy).

(** Where [update] may place a new gust in a [W] x [H] container with
    gust radius [R]: half a radius outside one of the four edges, or
    inside the container. *)
Definition spawn_point (W H R px py : R) : Prop :=
  (py = - R * 0.5 /\ 0 <= px <= W) \/
  (px = W + R * 0.5 /\ 0 <= py <= H) \/
  (py = H + R * 0.5 /\ 0 <= px <= W) \/
  (px = - R * 0.5 /\ 0 <= py <= H) \/
  (0 <= px <= W /\ 0 <= py <= H).

(** The default configuration with one gust born at time 1000. *)
Definition gusty_sim : GrassWindBackground.t :=
  GrassWindBackground.mk DEFAULTS 800 600 []
    [Gust.mk 100 100 DEFAULTS 1000 3000 0 1 0]
    0 0 0 0 0 0 0 0 0 false.

(** A blade as [setupBlades] makes it: at rest, with the configuration
    [cfg], a length between the two ends of [bladeLength] and an angle
    within the bend limit. *)
Definition fresh_blade (cfg : Config) (b : GrassBlade.t) : Prop :=
  GrassBlade.config b = cfg /\
  GrassBlade.velocity b = Fin 0 /\
  (exists len lo hi,
     GrassBlade.length b = Fin len /\
     BladeLength.min (bladeLength cfg) = Fin lo /\
     BladeLength.max (bladeLength cfg) = Fin hi /\
     lo <= len <= hi) /\
  in_bend b.

(** The centres of the cells of a grid, each listed [k] times. *)
Definition stacked_centers (cellSize : num) (nrows ncols k : nat)
    : list (num * num) :=
  flat_map (fun c => repeat c k) (Spec.grid_centers cellSize nrows ncols).

(** [{ ...DEFAULTS, bladesPerCell: 2 }] in a 600 x 600 container. *)
Definition dense_container : GrassWindBackground.t :=
  GrassWindBackground.mk
    (mkConfig (gridColumnsDesktop DEFAULTS) (gridColumnsMobile DEFAULTS)
       (mobileBreakpoint DEFAULTS) 2 (bladeLength DEFAULTS)
       (bladeWidth DEFAULTS) (bladeAlpha DEFAULTS) (rootSize DEFAULTS)
       (rootAlpha DEFAULTS) (bladeColor DEFAULTS) (rootColor DEFAULTS)
       (stiffness DEFAULTS) (damping DEFAULTS) (maxBend DEFAULTS)
       (fieldScale DEFAULTS) (fieldStrength DEFAULTS) (fieldSpeed DEFAULTS)
       (gustFrequency DEFAULTS) (gustStrength DEFAULTS) (gustRadius DEFAULTS)
       (gustDuration DEFAULTS) (mouseStrength DEFAULTS)
       (mouseRadius DEFAULTS) (mouseSmoothing DEFAULTS)
       (reducedMotion DEFAULTS) (reducedMotionFPS DEFAULTS))
    600 600 [] [] 0 0 0 0 0 0 0 0 0 false.

(** A blade rooted at a finite point right of the left edge, left of
    the right edge, below the top edge and less than [margin] below the
    bottom edge of a [W] x [H] container. *)
Definition rooted_within (W H margin : R) (b : GrassBlade.t) : Prop :=
  exists x y,
    GrassBlade.rootX b = Fin x /\ GrassBlade.rootY b = Fin y /\
    0 < x < W /\ 0 < y < H + margin.

(** [{ ...DEFAULTS, fieldStrength: 0, gustFrequency: 0 }] in a
    800 x 600 container with one blade in motion, the pointer outside. *)
Definition windless_sim : GrassWindBackground.t :=
  GrassWindBackground.mk
    (mkConfig (gridColumnsDesktop DEFAULTS) (gridColumnsMobile DEFAULTS)
       (mobileBreakpoint DEFAULTS) (bladesPerCell DEFAULTS)
       (bladeLength DEFAULTS)
       (bladeWidth DEFAULTS) (bladeAlpha DEFAULTS) (rootSize DEFAULTS)
       (rootAlpha DEFAULTS) (bladeColor DEFAULTS) (rootColor DEFAULTS)
       (stiffness DEFAULTS) (damping DEFAULTS) (maxBend DEFAULTS)
       (fieldScale DEFAULTS) 0 (fieldSpeed DEFAULTS)
       0 (gustStrength DEFAULTS) (gustRadius DEFAULTS)
       (gustDuration DEFAULTS) (mouseStrength DEFAULTS)
       (mouseRadius DEFAULTS) (mouseSmoothing DEFAULTS)
       (reducedMotion DEFAULTS) (reducedMotionFPS DEFAULTS))
    800 600 [GrassBlade.mk 20 20 10 DEFAULTS 1 0.5] [] 0
    0 0 0 0 0 0 0 0 false.

(** The sum of a list of elapsed times. *)
Definition total (deltaTimes : list R) : R := fold_right Rplus 0 deltaTimes.

(** The instance the animation loop steps to, out of the result of
    [animate]. *)
Definition animated (r : Animation.t * list CanvasOp * World
                         * Animation.Frames) : Animation.t :=
  fst (fst (fst r)).

(** The canvas operations of the frame. *)
Definition drawn (r : Animation.t * list CanvasOp * World
                      * Animation.Frames) : list CanvasOp :=
  snd (fst (fst r)).

(** The default configuration with the reduced motion preference set,
    last drawn at time 1000, its next frame pending as callback 1. *)
Definition reduced_motion_loop : Animation.t :=
  Animation.mk
    (GrassWindBackground.mk
       (mkConfig (gridColumnsDesktop DEFAULTS) (gridColumnsMobile DEFAULTS)
          (mobileBreakpoint DEFAULTS) (bladesPerCell DEFAULTS)
          (bladeLength DEFAULTS)
          (bladeWidth DEFAULTS) (bladeAlpha DEFAULTS) (rootSize DEFAULTS)
          (rootAlpha DEFAULTS) (bladeColor DEFAULTS) (rootColor DEFAULTS)
          (stiffness DEFAULTS) (damping DEFAULTS) (maxBend DEFAULTS)
          (fieldScale DEFAULTS) (fieldStrength DEFAULTS)
          (fieldSpeed DEFAULTS)
          (gustFrequency DEFAULTS) (gustStrength DEFAULTS)
          (gustRadius DEFAULTS)
          (gustDuration DEFAULTS) (mouseStrength DEFAULTS)
          (mouseRadius DEFAULTS) (mouseSmoothing DEFAULTS)
          true (reducedMotionFPS DEFAULTS))
       800 600 [GrassBlade.mk 20 20 10 DEFAULTS 1 0.5] [] 0
       0 0 0 0 0 0 0 0 false)
    (Some 1%nat) 1000.

(** The default configuration running, last drawn at time 1000, its
    next frame pending as callback 1. *)
Definition running_loop : Animation.t :=
  Animation.mk desktop_container (Some 1%nat) 1000.

(** The browser with callback 1 pending. *)
Definition one_pending : Animation.Frames := Animation.mkFrames 1 [1%nat].

(* ================================================================== *)
(** ** Arithmetic of JavaScript numbers *)
(* ================================================================== *)

Lemma Rltb_true a b : a < b -> JS.Rltb a b = true.
Proof. unfold JS.Rltb; destruct (Rlt_dec a b); tauto. Qed.

Lemma Rltb_false a b : ~ a < b -> JS.Rltb a b = false.
Proof. unfold JS.Rltb; destruct (Rlt_dec a b); tauto. Qed.

Lemma Rleb_true a b : a <= b -> JS.Rleb a b = true.
Proof. unfold JS.Rleb; destruct (Rle_dec a b); tauto. Qed.

Lemma Rleb_false a b : ~ a <= b -> JS.Rleb a b = false.
Proof. unfold JS.Rleb; destruct (Rle_dec a b); tauto. Qed.

Lemma Reqb_true a b : a = b -> JS.Reqb a b = true.
Proof. unfold JS.Reqb; destruct (Req_dec_T a b); tauto. Qed.

Lemma Reqb_false a b : a <> b -> JS.Reqb a b = false.
Proof. unfold JS.Reqb; destruct (Req_dec_T a b); tauto. Qed.

(** Case analysis on every real comparison in sight. *)
Ltac case_R :=
  unfold JS.Rltb, JS.Rleb, JS.Reqb in *;
  repeat match goal with
  | |- context [Rlt_dec ?a ?b] => destruct (Rlt_dec a b)
  | |- context [Rle_dec ?a ?b] => destruct (Rle_dec a b)
  | |- context [Req_dec_T ?a ?b] => destruct (Req_dec_T a b)
  | H : context [Rlt_dec ?a ?b] |- _ => destruct (Rlt_dec a b)
  | H : context [Rle_dec ?a ?b] |- _ => destruct (Rle_dec a b)
  | H : context [Req_dec_T ?a ?b] |- _ => destruct (Req_dec_T a b)
  end.

Lemma Fin_eq a b : a = b -> Fin a = Fin b.
Proof. congruence. Qed.

Lemma add_Fin a b : (Fin a + Fin b)%js = Fin (a + b).
Proof. reflexivity. Qed.

Lemma sub_Fin a b : (Fin a - Fin b)%js = Fin (a - b).
Proof. reflexivity. Qed.

Lemma mul_Fin a b : (Fin a * Fin b)%js = Fin (a * b).
Proof. reflexivity. Qed.

Lemma neg_Fin a : (- Fin a)%js = Fin (- a).
Proof. reflexivity. Qed.

Lemma div_Fin a b : b <> 0 -> (Fin a / Fin b)%js = Fin (a / b).
Proof. intros H. unfold JS.div. rewrite Reqb_false; auto. Qed.

Lemma sin_Fin a : JS.Math_sin (Fin a) = Fin (sin a).
Proof. reflexivity. Qed.

Lemma cos_Fin a : JS.Math_cos (Fin a) = Fin (cos a).
Proof. reflexivity. Qed.

Lemma floor_Fin a : JS.Math_floor (Fin a) = Fin (IZR (Zfloor a)).
Proof. reflexivity. Qed.

Lemma ceil_Fin a : JS.Math_ceil (Fin a) = Fin (IZR (Zceil a)).
Proof. reflexivity. Qed.

Lemma max_Fin a b : JS.Math_max (Fin a) (Fin b) = Fin (Rmax a b).
Proof.
  unfold JS.Math_max, JS.lt, Rmax. case_R; try reflexivity; apply Fin_eq; lra.
Qed.

Lemma min_Fin a b : JS.Math_min (Fin a) (Fin b) = Fin (Rmin a b).
Proof.
  unfold JS.Math_min, JS.lt, Rmin. case_R; try reflexivity; apply Fin_eq; lra.
Qed.

Create Rewrite HintDb jsnum.
#[global] Hint Rewrite add_Fin sub_Fin mul_Fin neg_Fin sin_Fin cos_Fin
  floor_Fin ceil_Fin max_Fin min_Fin : jsnum.

Lemma clamp_bounds mb a : 0 <= mb -> - mb <= Rmax (- mb) (Rmin mb a) <= mb.
Proof.
  intros Hmb. unfold Rmax, Rmin.
  destruct (Rle_dec mb a); destruct (Rle_dec (- mb) _); lra.
Qed.

Lemma sqrt_sum_squares_Fin x y :
  JS.Math_sqrt (Fin x * Fin x + Fin y * Fin y)%js = Fin (sqrt (x * x + y * y)).
Proof.
  simpl. rewrite Rltb_false; [reflexivity | nra].
Qed.

(* ================================================================== *)
(** ** The blade: update step and bend invariant *)
(* ================================================================== *)

(** C2. One call of [update(wx, wy)] performs exactly the sequence of the
    specification: the magnitude [m = sqrt(wx^2 + wy^2)]; when [m] exceeds
    0.001 the torque [sin(atan2(wx, -wy) - angle) * m * stiffness] is added
    to the velocity, otherwise no torque is; the velocity is then
    multiplied by the damping, then added to the angle, and the angle is
    clamped to [[-maxBend, +maxBend]].  Nothing else of the blade
    changes. *)
Theorem update_performs_spec_sequence :
  forall (b : GrassBlade.t) (wx wy : num),
    let cfg := GrassBlade.config b in
    let b' := GrassBlade.update b wx wy in
    (GrassBlade.angle b', GrassBlade.velocity b') =
      Spec.blade_step (stiffness cfg) (damping cfg) (maxBend cfg)
                      (GrassBlade.angle b) (GrassBlade.velocity b) wx wy
    /\ GrassBlade.rootX b' = GrassBlade.rootX b
    /\ GrassBlade.rootY b' = GrassBlade.rootY b
    /\ GrassBlade.length b' = GrassBlade.length b
    /\ GrassBlade.config b' = GrassBlade.config b.
Proof.
  intros b wx wy cfg b'. subst cfg b'.
  unfold GrassBlade.update, Spec.blade_step, GrassBlade.apply_wind.
  destruct (JS.Math_sqrt (wx * wx + wy * wy) >? 0.001)%js; simpl; auto.
Qed.

Lemma update_config b wx wy :
  GrassBlade.config (GrassBlade.update b wx wy) = GrassBlade.config b.
Proof.
  unfold GrassBlade.update, GrassBlade.apply_wind.
  destruct (JS.Math_sqrt (wx * wx + wy * wy) >? 0.001)%js; reflexivity.
Qed.

(** A wind that is not infinite adds a finite torque, or none. *)
Lemma apply_wind_finite b wx wy :
  is_finite (stiffness (GrassBlade.config b)) ->
  finite_state b ->
  not_infinite wx -> not_infinite wy ->
  exists v',
    GrassBlade.apply_wind b wx wy = GrassBlade.set_velocity b (Fin v').
Proof.
  intros [k Hk] [[a Ha] [v Hv]] [Hx1 Hx2] [Hy1 Hy2].
  unfold GrassBlade.apply_wind.
  destruct wx as [x| | |]; try congruence;
    destruct wy as [y| | |]; try congruence;
    try (exists v; simpl; rewrite <- Hv; destruct b; reflexivity).
  rewrite sqrt_sum_squares_Fin.
  destruct (Fin (sqrt (x * x + y * y)) >? 0.001)%js.
  - rewrite Hk, Hv, Ha. simpl. eauto.
  - exists v. rewrite <- Hv. destruct b; reflexivity.
Qed.

(** One update from a finite state, under a wind that is not infinite:
    the new state is finite and its angle is the clamped sum. *)
Lemma update_finite b wx wy mb :
  is_finite (stiffness (GrassBlade.config b)) ->
  is_finite (damping (GrassBlade.config b)) ->
  maxBend (GrassBlade.config b) = Fin mb ->
  finite_state b ->
  not_infinite wx -> not_infinite wy ->
  exists a' v',
    GrassBlade.velocity (GrassBlade.update b wx wy) = Fin v' /\
    GrassBlade.angle (GrassBlade.update b wx wy)
      = Fin (Rmax (- mb) (Rmin mb a')).
Proof.
  intros Hk [d Hd] Hmb Hfin Hx Hy.
  destruct (apply_wind_finite b wx wy Hk Hfin Hx Hy) as [v1 Hw].
  destruct Hfin as [[a Ha] _].
  unfold GrassBlade.update. rewrite Hw.
  unfold GrassBlade.clamp_to_max_bend, GrassBlade.update_angle,
    GrassBlade.apply_damping. simpl.
  rewrite Hd, Hmb, Ha. autorewrite with jsnum. eauto.
Qed.

(** The invariant carried along a run: finite state, angle within the
    bend, configuration unchanged. *)
Lemma run_blade_invariant cfg mb winds :
  is_finite (stiffness cfg) -> is_finite (damping cfg) ->
  maxBend cfg = Fin mb -> 0 <= mb ->
  Forall (fun wd => not_infinite (fst wd) /\ not_infinite (snd wd)) winds ->
  forall b,
    GrassBlade.config b = cfg -> finite_state b -> in_bend b ->
    let b' := run_blade b winds in
    GrassBlade.config b' = cfg /\ finite_state b' /\ in_bend b'.
Proof.
  intros Hk Hd Hmb Hpos Hw. induction Hw as [|[wx wy] winds [Hx Hy] _ IH];
    intros b Hc Hf Hb; simpl.
  - auto.
  - apply IH.
    + rewrite update_config; exact Hc.
    + subst cfg.
      destruct (update_finite b wx wy mb Hk Hd Hmb Hf Hx Hy)
        as (a' & v' & Hv' & Ha').
      split; red; eauto.
    + subst cfg.
      destruct (update_finite b wx wy mb Hk Hd Hmb Hf Hx Hy)
        as (a' & v' & Hv' & Ha').
      exists (Rmax (- mb) (Rmin mb a')), mb.
      rewrite update_config. auto using clamp_bounds.
Qed.

(** A freshly constructed blade: zero velocity, angle within the bend. *)
Lemma constructor_state x y len cfg w mb r :
  maxBend cfg = Fin mb -> 0 <= mb ->
  random_stream w (random_calls w) = Fin r -> 0 <= r < 1 ->
  let b := fst (GrassBlade.constructor x y len cfg w) in
  GrassBlade.config b = cfg /\ GrassBlade.velocity b = Fin 0 /\
  GrassBlade.angle b = Fin ((r - 0.5) * mb * 2) /\
  - mb <= (r - 0.5) * mb * 2 <= mb.
Proof.
  intros Hmb Hpos Hr Hr01.
  unfold GrassBlade.constructor, bind, Math_random, ret. simpl.
  rewrite Hr, Hmb. simpl.
  repeat split; try (apply Fin_eq; lra); nra.
Qed.

(* ================================================================== *)
(** ** The gust: force model *)
(* ================================================================== *)

Lemma cubic_bounds u : 0 <= u <= 1 -> 0 <= Spec.cubic u <= 1.
Proof.
  unfold Spec.cubic. intros H. split.
  - apply Rmult_le_pos; nra.
  - assert (H1 : 0 <= (1 - u) * (1 - u) * (1 + 2 * u))
      by (apply Rmult_le_pos; nra).
    lra.
Qed.

Lemma envelope_bounds t : 0 <= Spec.envelope t <= 1.
Proof.
  unfold Spec.envelope. case_R; try lra.
  - assert (H : 0 <= t / 0.2 <= 1) by lra.
    apply cubic_bounds in H. lra.
  - assert (H : 0 <= (t - 0.7) / 0.3 <= 1) by lra.
    apply cubic_bounds in H. lra.
Qed.

(** [smoothstep] between two distinct finite edges, at a finite point. *)
Lemma smoothstep_Fin e0 e1 x :
  e1 - e0 <> 0 ->
  smoothstep (Fin e0) (Fin e1) (Fin x)
  = Fin (Spec.cubic (Rmax 0 (Rmin 1 ((x - e0) / (e1 - e0))))).
Proof.
  intros H. unfold smoothstep, Spec.cubic.
  autorewrite with jsnum. rewrite div_Fin by exact H.
  autorewrite with jsnum. reflexivity.
Qed.

(** The time envelope computed by [getForce] at a finite normalised age. *)
Lemma timeEnvelope_Fin t :
  (smoothstep 0 0.2 (Fin t) * (1 - smoothstep 0.7 1 (Fin t)))%js
  = Fin (Spec.envelope t).
Proof.
  rewrite !smoothstep_Fin by lra. autorewrite with jsnum. apply Fin_eq.
  replace ((t - 0) / (0.2 - 0)) with (5 * t) by lra.
  replace ((t - 0.7) / (1 - 0.7)) with ((10 * t - 7) / 3) by lra.
  unfold Spec.envelope.
  replace (t / 0.2) with (5 * t) by lra.
  replace ((t - 0.7) / 0.3) with ((10 * t - 7) / 3) by lra.
  unfold Spec.cubic, Rmax, Rmin. case_R; try lra; try nra.
Qed.

(** What the constructor builds when the clock reads [tb] and the random
    source yields [r]. *)
Lemma gust_constructor_fields gx gy cfg w0 tb r :
  clock_stream w0 (clock_calls w0) = Fin tb ->
  random_stream w0 (random_calls w0) = Fin r ->
  fst (Gust.constructor gx gy cfg w0)
  = Gust.mk gx gy cfg (Fin tb) (gustDuration cfg) (Fin (r * PI * 2))
            (Fin (cos (r * PI * 2))) (Fin (sin (r * PI * 2))).
Proof.
  intros Hc Hr. unfold Gust.constructor, bind, Date_now, Math_random, ret.
  simpl. rewrite Hc, Hr. reflexivity.
Qed.

Lemma getForce_dist g gx gy qx qy :
  Gust.x g = Fin gx -> Gust.y g = Fin gy ->
  JS.Math_sqrt ((Fin qx - Gust.x g) * (Fin qx - Gust.x g)
                + (Fin qy - Gust.y g) * (Fin qy - Gust.y g))%js
  = Fin (Spec.distance qx qy gx gy).
Proof.
  intros -> ->. rewrite !sub_Fin. apply sqrt_sum_squares_Fin.
Qed.

Lemma distance_nonneg x1 y1 x2 y2 : 0 <= Spec.distance x1 y1 x2 y2.
Proof. apply sqrt_pos. Qed.

Lemma distance_self x y : Spec.distance x y x y = 0.
Proof.
  unfold Spec.distance.
  replace ((x - x) * (x - x) + (y - y) * (y - y)) with 0 by ring.
  apply sqrt_0.
Qed.

(** Beyond the radius the force is the zero vector, and the clock is not
    read. *)
Lemma getForce_outside g gx gy rad qx qy w :
  Gust.x g = Fin gx -> Gust.y g = Fin gy ->
  gustRadius (Gust.config g) = Fin rad ->
  rad < Spec.distance qx qy gx gy ->
  Gust.getForce g (Fin qx) (Fin qy) w = (mkVec 0 0, w).
Proof.
  intros Hx Hy Hr Hd. unfold Gust.getForce.
  rewrite (getForce_dist g gx gy qx qy Hx Hy), Hr.
  unfold JS.gt, JS.lt. rewrite Rltb_true by exact Hd. reflexivity.
Qed.

(** Within the radius the clock is read once and lines 200-214 run. *)
Lemma getForce_inside g gx gy rad qx qy w :
  Gust.x g = Fin gx -> Gust.y g = Fin gy ->
  gustRadius (Gust.config g) = Fin rad ->
  Spec.distance qx qy gx gy <= rad ->
  fst (Gust.getForce g (Fin qx) (Fin qy) w)
  = Gust.force_within g (Fin (Spec.distance qx qy gx gy))
      (clock_stream w (clock_calls w)).
Proof.
  intros Hx Hy Hr Hd. unfold Gust.getForce.
  rewrite (getForce_dist g gx gy qx qy Hx Hy), Hr.
  unfold JS.gt, JS.lt. rewrite Rltb_false by lra. reflexivity.
Qed.

(** Lines 200-214 on finite data, radius and duration not zero. *)
Lemma force_within_Fin g rad gs dur tb dx dy d tn :
  gustRadius (Gust.config g) = Fin rad -> rad <> 0 ->
  gustStrength (Gust.config g) = Fin gs ->
  Gust.duration g = Fin dur -> dur <> 0 ->
  Gust.birthTime g = Fin tb ->
  Gust.dirX g = Fin dx -> Gust.dirY g = Fin dy ->
  Gust.force_within g (Fin d) (Fin tn)
  = mkVec (Fin (dx * (gs * (1 - d / rad) * Spec.envelope ((tn - tb) / dur))))
          (Fin (dy * (gs * (1 - d / rad) * Spec.envelope ((tn - tb) / dur)))).
Proof.
  intros Hr Hr0 Hg Hd Hd0 Hb Hx Hy. unfold Gust.force_within.
  rewrite Hr, Hg, Hd, Hb, Hx, Hy.
  rewrite sub_Fin, (div_Fin _ dur Hd0), timeEnvelope_Fin, (div_Fin _ rad Hr0).
  autorewrite with jsnum. reflexivity.
Qed.

(** A unit direction scaled by [s] has magnitude [|s|]. *)
Lemma magnitude_scaled dx dy s :
  dx * dx + dy * dy = 1 ->
  Spec.magnitude (mkVec (Fin (dx * s)) (Fin (dy * s))) = Fin (Rabs s).
Proof.
  intros H. unfold Spec.magnitude. simpl vx. simpl vy.
  rewrite sqrt_sum_squares_Fin. apply Fin_eq.
  replace (dx * s * (dx * s) + dy * s * (dy * s))
    with ((dx * dx + dy * dy) * Rsqr s) by (unfold Rsqr; ring).
  rewrite H, Rmult_1_l. apply sqrt_Rsqr_abs.
Qed.

Lemma cos_sin_unit a : cos a * cos a + sin a * sin a = 1.
Proof. pose proof (sin2_cos2 a) as H. unfold Rsqr in H. lra. Qed.

(** C3. A gust built by the constructor has a unit direction fixed at
    birth.  Its force is the zero vector at any point farther than
    [gustRadius] from its position; within the radius it is the direction
    scaled by [gustStrength * (1 - dist/gustRadius) * envelope], where the
    envelope of the normalised age rises as the smoothstep cubic over the
    first 20% of the life, is 1 up to 70% and falls as the complementary
    cubic over the last 30%.  Hence at the gust's own position the force
    has magnitude 0 at [birthTime] and magnitude [gustStrength] at
    [birthTime + 0.5 * duration]. *)
Theorem gust_force_model :
  forall (cfg : Config) (gx gy tb r rad gs dur : R) (w0 : World),
    gustRadius cfg = Fin rad -> 0 < rad ->
    gustStrength cfg = Fin gs -> 0 <= gs ->
    gustDuration cfg = Fin dur -> dur <> 0 ->
    clock_stream w0 (clock_calls w0) = Fin tb ->
    random_stream w0 (random_calls w0) = Fin r ->
    let g := fst (Gust.constructor (Fin gx) (Fin gy) cfg w0) in
    let theta := r * PI * 2 in
    (Gust.dirX g = Fin (cos theta) /\ Gust.dirY g = Fin (sin theta) /\
     cos theta * cos theta + sin theta * sin theta = 1)
    /\ (forall qx qy w,
          rad < Spec.distance qx qy gx gy ->
          fst (Gust.getForce g (Fin qx) (Fin qy) w) = mkVec 0 0)
    /\ (forall qx qy tn w,
          Spec.distance qx qy gx gy <= rad ->
          clock_stream w (clock_calls w) = Fin tn ->
          fst (Gust.getForce g (Fin qx) (Fin qy) w)
          = Spec.vscale (mkVec (Fin (cos theta)) (Fin (sin theta)))
              (Fin (gs * (1 - Spec.distance qx qy gx gy / rad)
                    * Spec.envelope ((tn - tb) / dur))))
    /\ (forall t,
          (0 <= t <= 0.2 -> Spec.envelope t = Spec.cubic (t / 0.2)) /\
          (0.2 <= t <= 0.7 -> Spec.envelope t = 1) /\
          (0.7 <= t <= 1 ->
           Spec.envelope t = 1 - Spec.cubic ((t - 0.7) / 0.3)))
    /\ (forall w,
          clock_stream w (clock_calls w) = Fin tb ->
          Spec.magnitude (fst (Gust.getForce g (Fin gx) (Fin gy) w)) = Fin 0)
    /\ (forall w,
          clock_stream w (clock_calls w) = Fin (tb + 0.5 * dur) ->
          Spec.magnitude (fst (Gust.getForce g (Fin gx) (Fin gy) w)) = Fin gs).
Proof.
  intros cfg gx gy tb r rad gs dur w0 Hrad Hpos Hgs Hgs0 Hdur Hdur0 Hclk Hrnd
    g theta.
  assert (Hg : g = Gust.mk (Fin gx) (Fin gy) cfg (Fin tb) (gustDuration cfg)
                 (Fin theta) (Fin (cos theta)) (Fin (sin theta)))
    by (apply gust_constructor_fields; assumption).
  assert (Hinside : forall qx qy tn w,
    Spec.distance qx qy gx gy <= rad ->
    clock_stream w (clock_calls w) = Fin tn ->
    fst (Gust.getForce g (Fin qx) (Fin qy) w)
    = mkVec (Fin (cos theta * (gs * (1 - Spec.distance qx qy gx gy / rad)
                               * Spec.envelope ((tn - tb) / dur))))
            (Fin (sin theta * (gs * (1 - Spec.distance qx qy gx gy / rad)
                               * Spec.envelope ((tn - tb) / dur))))).
  { intros qx qy tn w Hd Hw.
    rewrite (getForce_inside g gx gy rad qx qy w) by (rewrite ?Hg; auto).
    rewrite Hw.
    apply force_within_Fin; rewrite ?Hg; simpl; auto; lra. }
  repeat split.
  - rewrite Hg; reflexivity.
  - rewrite Hg; reflexivity.
  - apply cos_sin_unit.
  - intros qx qy w Hd.
    rewrite (getForce_outside g gx gy rad qx qy w); rewrite ?Hg; auto.
  - intros qx qy tn w Hd Hw. rewrite (Hinside qx qy tn w Hd Hw). reflexivity.
  - intros Ht. unfold Spec.envelope. case_R; try lra.
    + assert (t = 0) by lra. subst t. unfold Spec.cubic. lra.
    + assert (t = 0.2) by lra. subst t. unfold Spec.cubic. lra.
  - intros Ht. unfold Spec.envelope. case_R; lra.
  - intros Ht. unfold Spec.envelope. case_R; try lra.
    + assert (t = 0.7) by lra. subst t. unfold Spec.cubic. lra.
    + assert (t = 1) by lra. subst t. unfold Spec.cubic. lra.
  - intros w Hw.
    rewrite (Hinside gx gy tb w) by (rewrite ?distance_self; auto; lra).
    rewrite magnitude_scaled by apply cos_sin_unit.
    apply Fin_eq. rewrite distance_self.
    replace ((tb - tb) / dur) with 0 by (field; exact Hdur0).
    unfold Spec.envelope. rewrite Rleb_true by lra.
    rewrite Rmult_0_r. apply Rabs_R0.
  - intros w Hw.
    rewrite (Hinside gx gy (tb + 0.5 * dur) w)
      by (rewrite ?distance_self; auto; lra).
    rewrite magnitude_scaled by apply cos_sin_unit.
    apply Fin_eq. rewrite distance_self.
    replace ((tb + 0.5 * dur - tb) / dur) with 0.5 by (field; exact Hdur0).
    unfold Spec.envelope.
    rewrite Rleb_false, Rltb_false, Rleb_true by lra.
    replace (gs * (1 - 0 / rad) * 1) with gs by (field; lra).
    apply Rabs_pos_eq; exact Hgs0.
Qed.

Lemma gust_force_model_witness :
  Spec.magnitude
    (fst (Gust.getForce
            (fst (Gust.constructor (Fin 100) (Fin 100) DEFAULTS
                    (mkWorld (fun _ => Fin 0.25) 0 (fun _ => Fin 1000) 0)))
            (Fin 100) (Fin 100)
            (mkWorld (fun _ => Fin 0) 0
                     (fun _ => Fin (1000 + 0.5 * 3000)) 0)))
  = Fin 0.8.
Proof.
  destruct (gust_force_model DEFAULTS 100 100 1000 0.25 200 0.8 3000
              (mkWorld (fun _ => Fin 0.25) 0 (fun _ => Fin 1000) 0))
    as (_ & _ & _ & _ & _ & H);
    try reflexivity; try lra.
  apply H. reflexivity.
Defined.

Lemma smoothstep_PInf e0 e1 :
  e0 < e1 -> smoothstep (Fin e0) (Fin e1) PInf = Fin 1.
Proof.
  intros H. unfold smoothstep.
  replace ((PInf - Fin e0) / (Fin e1 - Fin e0))%js with PInf
    by (simpl; rewrite Rleb_true by lra; reflexivity).
  replace (JS.Math_min 1 PInf) with (Fin 1) by reflexivity.
  autorewrite with jsnum. apply Fin_eq. unfold Rmax. case_R; lra.
Qed.

Lemma smoothstep_NInf e0 e1 :
  e0 < e1 -> smoothstep (Fin e0) (Fin e1) NInf = Fin 0.
Proof.
  intros H. unfold smoothstep.
  replace ((NInf - Fin e0) / (Fin e1 - Fin e0))%js with NInf
    by (simpl; rewrite Rleb_true by lra; reflexivity).
  replace (JS.Math_min 1 NInf) with NInf by reflexivity.
  replace (JS.Math_max 0 NInf) with (Fin 0) by reflexivity.
  autorewrite with jsnum. apply Fin_eq. lra.
Qed.

Lemma smoothstep_NaN e0 e1 : smoothstep e0 e1 NaN = NaN.
Proof. unfold smoothstep. destruct e0, e1; reflexivity. Qed.

(** The time envelope at any normalised age, finite or not: a number of
    [[0, 1]], or [NaN] when the age is [NaN]. *)
Lemma timeEnvelope_cases (t : num) :
  (smoothstep 0 0.2 t * (1 - smoothstep 0.7 1 t))%js = NaN \/
  exists e, (smoothstep 0 0.2 t * (1 - smoothstep 0.7 1 t))%js = Fin e
            /\ 0 <= e <= 1.
Proof.
  destruct t as [t| | |].
  - right. exists (Spec.envelope t). split.
    + apply timeEnvelope_Fin.
    + apply envelope_bounds.
  - right. exists 0. split; [|lra].
    rewrite !smoothstep_PInf by lra. autorewrite with jsnum.
    apply Fin_eq. lra.
  - right. exists 0. split; [|lra].
    rewrite !smoothstep_NInf by lra. autorewrite with jsnum.
    apply Fin_eq. lra.
  - left. rewrite !smoothstep_NaN. reflexivity.
Qed.

Lemma falloff_bounds d rad :
  0 < rad -> 0 <= d <= rad -> 0 <= 1 - d / rad <= 1.
Proof.
  intros Hr Hd. assert (0 <= d / rad <= 1); [|lra]. split.
  - apply Rmult_le_pos; [lra|]. left. apply Rinv_0_lt_compat; lra.
  - apply (Rmult_le_reg_r rad); [lra|]. unfold Rdiv.
    rewrite Rmult_assoc, Rinv_l by lra. lra.
Qed.

Lemma strength_bounds gs f e :
  0 <= gs -> 0 <= f <= 1 -> 0 <= e <= 1 -> 0 <= gs * f * e <= gs.
Proof.
  intros Hg Hf He.
  assert (0 <= gs * f) by (apply Rmult_le_pos; lra).
  assert (gs * f <= gs) by nra.
  split; [apply Rmult_le_pos; lra | nra].
Qed.

(** Within a non-zero radius the force is the direction scaled by a
    strength of [[0, gustStrength]], or [NaN] in both components. *)
Lemma force_within_cases g rad gs dx dy d now :
  gustRadius (Gust.config g) = Fin rad -> 0 < rad ->
  gustStrength (Gust.config g) = Fin gs -> 0 <= gs ->
  Gust.dirX g = Fin dx -> Gust.dirY g = Fin dy ->
  0 <= d <= rad ->
  Gust.force_within g (Fin d) now = mkVec NaN NaN \/
  exists s, 0 <= s <= gs /\
    Gust.force_within g (Fin d) now = mkVec (Fin (dx * s)) (Fin (dy * s)).
Proof.
  intros Hr Hr0 Hg Hg0 Hx Hy Hd. unfold Gust.force_within.
  rewrite Hr, Hg, Hx, Hy.
  rewrite (div_Fin d rad) by lra.
  destruct (timeEnvelope_cases ((now - Gust.birthTime g) / Gust.duration g)%js)
    as [HN | (e & He & Hb)].
  - left. rewrite HN. reflexivity.
  - right. rewrite He. autorewrite with jsnum.
    exists (gs * (1 - d / rad) * e). split; [|reflexivity].
    apply strength_bounds; auto using falloff_bounds.
Qed.

(** C10. For a gust built by the constructor under a positive
    [gustRadius] and a non-negative [gustStrength], the magnitude of the
    force never exceeds [gustStrength], at any query point and whatever
    the clock reads (before birth, during the life, after expiry), for any
    configured duration; when the clock and a non-zero duration are
    finite, the magnitude is a number of [[0, gustStrength]]. *)
Theorem gust_force_never_exceeds_strength :
  forall (cfg : Config) (gx gy tb r rad gs : R) (w0 : World),
    gustRadius cfg = Fin rad -> 0 < rad ->
    gustStrength cfg = Fin gs -> 0 <= gs ->
    clock_stream w0 (clock_calls w0) = Fin tb ->
    random_stream w0 (random_calls w0) = Fin r ->
    let g := fst (Gust.constructor (Fin gx) (Fin gy) cfg w0) in
    forall (qx qy : R) (w : World),
      let F := fst (Gust.getForce g (Fin qx) (Fin qy) w) in
      (Spec.magnitude F >? Fin gs)%js = false
      /\ (forall tn dur,
            clock_stream w (clock_calls w) = Fin tn ->
            gustDuration cfg = Fin dur -> dur <> 0 ->
            exists m, Spec.magnitude F = Fin m /\ 0 <= m <= gs).
Proof.
  intros cfg gx gy tb r rad gs w0 Hrad Hpos Hgs Hgs0 Hclk Hrnd g qx qy w F.
  assert (Hg : g = Gust.mk (Fin gx) (Fin gy) cfg (Fin tb) (gustDuration cfg)
                 (Fin (r * PI * 2)) (Fin (cos (r * PI * 2)))
                 (Fin (sin (r * PI * 2))))
    by (apply gust_constructor_fields; assumption).
  destruct (Rlt_dec rad (Spec.distance qx qy gx gy)) as [Hout | Hin].
  - assert (HF : F = mkVec 0 0).
    { unfold F. rewrite (getForce_outside g gx gy rad qx qy w);
        rewrite ?Hg; auto. }
    assert (Hm : Spec.magnitude F = Fin 0).
    { rewrite HF. unfold Spec.magnitude. simpl vx. simpl vy.
      rewrite sqrt_sum_squares_Fin. apply Fin_eq.
      replace (0 * 0 + 0 * 0) with 0 by ring. apply sqrt_0. }
    split.
    + rewrite Hm. unfold JS.gt, JS.lt. apply Rltb_false. lra.
    + intros. exists 0. split; [exact Hm | lra].
  - assert (Hd : 0 <= Spec.distance qx qy gx gy <= rad)
      by (split; [apply distance_nonneg | lra]).
    assert (HF : F = Gust.force_within g (Fin (Spec.distance qx qy gx gy))
                       (clock_stream w (clock_calls w))).
    { unfold F. apply (getForce_inside g gx gy rad); rewrite ?Hg; auto. lra. }
    split.
    + destruct (force_within_cases g rad gs (cos (r * PI * 2))
                  (sin (r * PI * 2)) _ (clock_stream w (clock_calls w))
                  ltac:(rewrite Hg; exact Hrad) Hpos
                  ltac:(rewrite Hg; exact Hgs) Hgs0
                  ltac:(rewrite Hg; reflexivity)
                  ltac:(rewrite Hg; reflexivity) Hd)
        as [HN | (s & Hs & Hv)]; rewrite HF.
      * rewrite HN. reflexivity.
      * rewrite Hv, magnitude_scaled by apply cos_sin_unit.
        unfold JS.gt, JS.lt. apply Rltb_false.
        rewrite Rabs_pos_eq; lra.
    + intros tn dur Hw Hdur Hdur0. rewrite HF, Hw.
      rewrite (force_within_Fin g rad gs dur tb (cos (r * PI * 2))
                 (sin (r * PI * 2)));
        rewrite ?Hg; simpl; auto; try lra.
      rewrite magnitude_scaled by apply cos_sin_unit.
      eexists. split; [reflexivity|].
      pose proof (strength_bounds gs _ _ Hgs0 (falloff_bounds _ rad Hpos Hd)
                    (envelope_bounds ((tn - tb) / dur))) as Hs.
      rewrite Rabs_pos_eq; lra.
Qed.

Lemma gust_force_never_exceeds_strength_witness :
  (Spec.magnitude
     (fst (Gust.getForce
             (fst (Gust.constructor (Fin 100) (Fin 100) DEFAULTS
                     (mkWorld (fun _ => Fin 0.25) 0 (fun _ => Fin 1000) 0)))
             (Fin 150) (Fin 100)
             (mkWorld (fun _ => Fin 0) 0 (fun _ => Fin 2000) 0)))
   >? Fin 0.8)%js = false.
Proof.
  exact (proj1 (gust_force_never_exceeds_strength DEFAULTS 100 100 1000 0.25
                  200 0.8
                  (mkWorld (fun _ => Fin 0.25) 0 (fun _ => Fin 1000) 0)
                  eq_refl ltac:(lra) eq_refl ltac:(lra) eq_refl eq_refl
                  150 100
                  (mkWorld (fun _ => Fin 0) 0 (fun _ => Fin 2000) 0))).
Defined.

(* ================================================================== *)
(** ** The noise field *)
(* ================================================================== *)

Lemma frac_range n : 0 <= n - IZR (Zfloor n) < 1.
Proof. pose proof (Zfloor_bound n). lra. Qed.

Lemma noise2D_range (x y seed : R) :
  exists v, noise2D (Fin x) (Fin y) (Fin seed) = Fin v /\ 0 <= v < 1.
Proof.
  unfold noise2D. autorewrite with jsnum.
  eexists. split; [reflexivity | apply frac_range].
Qed.

(** Interpolating two values of [[0, 1)] stays in [[0, 1)]. *)
Lemma lerp_range a b u :
  0 <= a < 1 -> 0 <= b < 1 -> 0 <= u <= 1 ->
  0 <= a * (1 - u) + b * u < 1.
Proof.
  intros Ha Hb Hu. split.
  - apply Rplus_le_le_0_compat; apply Rmult_le_pos; lra.
  - assert (H1 : 0 <= (1 - a) * (1 - u)) by (apply Rmult_le_pos; lra).
    assert (H2 : 0 <= (1 - b) * u) by (apply Rmult_le_pos; lra).
    destruct (Rle_dec u (1 / 2)).
    + assert (0 < (1 - a) * (1 - u)) by (apply Rmult_lt_0_compat; lra). lra.
    + assert (0 < (1 - b) * u) by (apply Rmult_lt_0_compat; lra). lra.
Qed.

Lemma smoothNoise_range (x y scale seed : R) :
  exists v,
    smoothNoise (Fin x) (Fin y) (Fin scale) (Fin seed) = Fin v /\ 0 <= v < 1.
Proof.
  unfold smoothNoise. cbv zeta. autorewrite with jsnum.
  set (x0 := IZR (Zfloor (x * scale))). set (y0 := IZR (Zfloor (y * scale))).
  destruct (noise2D_range x0 y0 seed) as (n00 & E00 & H00).
  destruct (noise2D_range (x0 + 1) y0 seed) as (n10 & E10 & H10).
  destruct (noise2D_range x0 (y0 + 1) seed) as (n01 & E01 & H01).
  destruct (noise2D_range (x0 + 1) (y0 + 1) seed) as (n11 & E11 & H11).
  rewrite E00, E10, E01, E11. autorewrite with jsnum.
  eexists. split; [reflexivity|].
  assert (Hu : 0 <= Spec.cubic (x * scale - x0) <= 1)
    by (apply cubic_bounds; pose proof (frac_range (x * scale)); unfold x0; lra).
  assert (Hv : 0 <= Spec.cubic (y * scale - y0) <= 1)
    by (apply cubic_bounds; pose proof (frac_range (y * scale)); unfold y0; lra).
  unfold Spec.cubic in Hu, Hv.
  apply lerp_range; [apply lerp_range; assumption
                    | apply lerp_range; assumption | assumption].
Qed.



(* ================================================================== *)
(** ** The wind field composer *)
(* ================================================================== *)

(** The gust loop of [getWindForce] adds up the forces of the gusts, in
    order. *)
Lemma foldM_add_gust_force x y gusts :
  forall wind w,
    foldM (GrassWindBackground.add_gust_force x y) gusts wind w
    = (fold_left Spec.vadd
         (fst (mapM (fun g => Gust.getForce g x y) gusts w)) wind,
       snd (mapM (fun g => Gust.getForce g x y) gusts w)).
Proof.
  induction gusts as [|g gusts IH]; intros wind w; simpl.
  - reflexivity.
  - unfold bind, GrassWindBackground.add_gust_force at 1.
    unfold bind, ret.
    destruct (Gust.getForce g x y w) as [f w1].
    rewrite IH.
    destruct (mapM (fun g0 => Gust.getForce g0 x y) gusts w1) as [fs w2].
    reflexivity.
Qed.

(** The composition computed by [getWindForce], for any reading of
    "near". *)
Lemma getWindForce_composed this x y w :
  GrassWindBackground.getWindForce this x y w
  = (Spec.composed Spec.within_apart this x y
       (fst (mapM (fun g => Gust.getForce g x y)
                  (GrassWindBackground.gusts this) w)),
     snd (mapM (fun g => Gust.getForce g x y)
               (GrassWindBackground.gusts this) w)).
Proof.
  unfold GrassWindBackground.getWindForce, bind, ret.
  rewrite foldM_add_gust_force.
  unfold Spec.composed, GrassWindBackground.add_mouse_wind, Spec.within_apart.
  fold (Spec.ambient (GrassWindBackground.config this)
          (GrassWindBackground.time this) x y).
  destruct (GrassWindBackground.isMouseOver this); simpl; [|reflexivity].
  match goal with |- context [if ?c then _ else _] => destruct c end;
    reflexivity.
Qed.

(** C4, as stated, fails where the query point is the pointer position:
    the point is within [mouseRadius] of the pointer, the claimed sum has
    the pointer term [smoothed velocity * mouseStrength], the code adds
    none. *)
Lemma pointer_term_missing_at_pointer :
  fst (GrassWindBackground.getWindForce pointer_on_query 10 10 still_world)
  <> Spec.composed Spec.within pointer_on_query 10 10
       (fst (mapM (fun g => Gust.getForce g 10 10)
                  (GrassWindBackground.gusts pointer_on_query) still_world)).
Proof.
  rewrite getWindForce_composed. simpl fst.
  unfold Spec.composed, Spec.within, Spec.within_apart, Spec.pointer_term,
    Spec.ambient.
  simpl GrassWindBackground.gusts. simpl mapM. simpl fst.
  simpl GrassWindBackground.isMouseOver.
  simpl GrassWindBackground.mouseX. simpl GrassWindBackground.mouseY.
  simpl GrassWindBackground.config. simpl GrassWindBackground.time.
  simpl GrassWindBackground.smoothMouseVelX.
  simpl GrassWindBackground.smoothMouseVelY.
  simpl mouseRadius. simpl mouseStrength. simpl fieldScale.
  simpl fieldStrength.
  destruct (smoothNoise_range 10 10 0.003 0) as (v & Hv & _).
  rewrite Hv. rewrite !sub_Fin, sqrt_sum_squares_Fin.
  replace (sqrt ((10 - 10) * (10 - 10) + (10 - 10) * (10 - 10))) with 0
    by (symmetry; apply (distance_self 10 10)).
  unfold JS.gt, JS.lt. rewrite Rltb_true, Rltb_false by lra.
  simpl andb. cbv iota.
  rewrite div_Fin by lra. unfold JS.Math_PI. autorewrite with jsnum.
  unfold Spec.vadd, Spec.vscale. simpl fold_left. simpl vx. simpl vy.
  autorewrite with jsnum.
  intros H. injection H as H1 H2. lra.
Qed.

(** C4 (amended). [getWindForce] returns the plain sum, with no
    normalisation, of the ambient noise-derived vector, the force of every
    gust of the live set at the query point, and, when the pointer is over
    the tracked area and the query point lies within [mouseRadius] of the
    pointer but not on it ([0 < dist < mouseRadius]), the smoothed pointer
    velocity scaled by [(1 - dist/mouseRadius) * mouseStrength]; with the
    pointer outside the tracked area the sum has no pointer term. *)
Theorem wind_force_is_plain_sum :
  forall (this : GrassWindBackground.t) (x y : num) (w : World),
    let forces :=
      fst (mapM (fun g => Gust.getForce g x y)
                (GrassWindBackground.gusts this) w) in
    let cfg := GrassWindBackground.config this in
    let base :=
      fold_left Spec.vadd forces
        (Spec.ambient cfg (GrassWindBackground.time this) x y) in
    let dx := (x - GrassWindBackground.mouseX this)%js in
    let dy := (y - GrassWindBackground.mouseY this)%js in
    let dist := JS.Math_sqrt (dx * dx + dy * dy)%js in
    fst (GrassWindBackground.getWindForce this x y w)
      = Spec.composed Spec.within_apart this x y forces
    /\ Spec.composed Spec.within_apart this x y forces
       = (if GrassWindBackground.isMouseOver this
             && ((dist <? mouseRadius cfg) && (0 <? dist))%js
          then Spec.vadd base
                 (Spec.vscale
                    (mkVec (GrassWindBackground.smoothMouseVelX this)
                           (GrassWindBackground.smoothMouseVelY this))
                    ((1 - dist / mouseRadius cfg) * mouseStrength cfg)%js)
          else base).
Proof.
  intros this x y w forces cfg base dx dy dist. split.
  - rewrite getWindForce_composed. reflexivity.
  - reflexivity.
Qed.

(* ================================================================== *)
(** ** The blade at rest: zero wind at every tick *)
(* ================================================================== *)

Lemma calm_S n b : calm (S n) b = GrassBlade.update (calm n b) 0 0.
Proof.
  unfold calm, run_blade.
  replace (repeat (Fin 0, Fin 0) (S n))
    with (repeat (Fin 0, Fin 0) n ++ [(Fin 0, Fin 0)])
    by (symmetry; apply (repeat_cons n (Fin 0, Fin 0))).
  rewrite fold_left_app. reflexivity.
Qed.

(** Zero wind applies no torque. *)
Lemma apply_wind_zero b : GrassBlade.apply_wind b 0 0 = b.
Proof.
  unfold GrassBlade.apply_wind. rewrite sqrt_sum_squares_Fin.
  replace (0 * 0 + 0 * 0) with 0 by ring. rewrite sqrt_0.
  unfold JS.gt, JS.lt. rewrite Rltb_false by lra. reflexivity.
Qed.

Lemma update_zero_wind b a v d mb :
  GrassBlade.angle b = Fin a -> GrassBlade.velocity b = Fin v ->
  damping (GrassBlade.config b) = Fin d ->
  maxBend (GrassBlade.config b) = Fin mb ->
  GrassBlade.angle (GrassBlade.update b 0 0) = Fin (clampR mb (a + v * d)) /\
  GrassBlade.velocity (GrassBlade.update b 0 0) = Fin (v * d).
Proof.
  intros Ha Hv Hd Hmb. unfold GrassBlade.update. rewrite apply_wind_zero.
  unfold GrassBlade.clamp_to_max_bend, GrassBlade.update_angle,
    GrassBlade.apply_damping. simpl.
  rewrite Ha, Hv, Hd, Hmb. autorewrite with jsnum. auto.
Qed.

Lemma calm_config n b : GrassBlade.config (calm n b) = GrassBlade.config b.
Proof.
  induction n as [|n IH]; [reflexivity|].
  rewrite calm_S, update_config. exact IH.
Qed.

(** The state after [n] calm ticks. *)
Lemma calm_state b a v d mb :
  GrassBlade.angle b = Fin a -> GrassBlade.velocity b = Fin v ->
  damping (GrassBlade.config b) = Fin d ->
  maxBend (GrassBlade.config b) = Fin mb ->
  forall n,
    GrassBlade.angle (calm n b) = Fin (calm_angle mb d a v n) /\
    GrassBlade.velocity (calm n b) = Fin (v * d ^ n).
Proof.
  intros Ha Hv Hd Hmb. induction n as [|n [IHa IHv]].
  - change (calm 0 b) with b.
    split; [exact Ha | rewrite Hv; apply Fin_eq; simpl; lra].
  - rewrite calm_S.
    destruct (update_zero_wind (calm n b) _ _ d mb IHa IHv) as [Ea Ev];
      try (rewrite calm_config; assumption).
    rewrite Ea, Ev. split; apply Fin_eq; simpl; [f_equal|]; ring.
Qed.

Lemma drift_S d a v n :
  d <> 1 -> drift d a v (S n) = drift d a v n + v * d ^ S n.
Proof. intros H. unfold drift. simpl. field. lra. Qed.

Lemma pow_unit_interval d n : 0 < d < 1 -> 0 < d ^ n <= 1.
Proof.
  intros H. split.
  - apply pow_lt; lra.
  - induction n as [|n IH]; simpl; [lra|].
    assert (0 < d ^ n) by (apply pow_lt; lra). nra.
Qed.

Lemma clamp_absorb_up mb u e :
  - mb <= u -> 0 <= e -> 0 <= mb ->
  clampR mb (clampR mb u + e) = clampR mb (u + e).
Proof. intros. unfold clampR, Rmax, Rmin. case_R; lra. Qed.

Lemma clamp_absorb_down mb u e :
  u <= mb -> e <= 0 -> 0 <= mb ->
  clampR mb (clampR mb u + e) = clampR mb (u + e).
Proof. intros. unfold clampR, Rmax, Rmin. case_R; lra. Qed.

Lemma clamp_id mb a : - mb <= a <= mb -> clampR mb a = a.
Proof. intros. unfold clampR, Rmax, Rmin. case_R; lra. Qed.

Lemma clamp_lipschitz mb x y :
  Rabs (clampR mb x - clampR mb y) <= Rabs (x - y).
Proof.
  unfold clampR, Rmax, Rmin, Rabs. case_R; repeat destruct Rcase_abs; lra.
Qed.

Lemma drift_0 d a v : drift d a v 0 = a.
Proof. unfold drift. simpl. unfold Rdiv. ring. Qed.

(** The drift moves away from [a] on the side of [v]. *)
Lemma drift_side d a v n :
  0 < d < 1 ->
  (0 <= v -> a <= drift d a v n) /\ (v <= 0 -> drift d a v n <= a).
Proof.
  intros Hd. pose proof (pow_unit_interval d n Hd) as Hp.
  assert (Hq : 0 <= d * (1 - d ^ n) / (1 - d)).
  { unfold Rdiv. apply Rmult_le_pos.
    - apply Rmult_le_pos; lra.
    - left. apply Rinv_0_lt_compat. lra. }
  unfold drift.
  replace (v * d * (1 - d ^ n) / (1 - d))
    with (v * (d * (1 - d ^ n) / (1 - d))) by (unfold Rdiv; ring).
  split; intros Hv; nra.
Qed.

(** From an angle within the bend, the calm trajectory is the clamped
    drift. *)
Lemma calm_angle_drift mb d a v n :
  0 < d < 1 -> - mb <= a <= mb ->
  calm_angle mb d a v n = clampR mb (drift d a v n).
Proof.
  intros Hd Ha. induction n as [|n IH].
  - simpl. rewrite drift_0, clamp_id; auto.
  - cbn [calm_angle]. rewrite IH, drift_S by lra.
    pose proof (pow_unit_interval d (S n) Hd) as Hp.
    destruct (drift_side d a v n Hd) as [Hup Hdown].
    destruct (Rle_dec 0 v) as [Hv | Hv].
    + apply clamp_absorb_up; try lra. apply Rmult_le_pos; lra.
    + apply clamp_absorb_down; try lra.
      assert (0 <= (- v) * d ^ S n) by (apply Rmult_le_pos; lra). lra.
Qed.

Lemma drift_gap d a v n :
  0 < d < 1 ->
  Rabs (drift d a v n - (a + v * d / (1 - d)))
  = Rabs v * d / (1 - d) * d ^ n.
Proof.
  intros Hd. pose proof (pow_unit_interval d n Hd) as Hp.
  replace (drift d a v n - (a + v * d / (1 - d)))
    with (- (v * (d / (1 - d) * d ^ n))) by (unfold drift; field; lra).
  rewrite Rabs_Ropp, Rabs_mult.
  assert (Hq : 0 <= d / (1 - d) * d ^ n).
  { apply Rmult_le_pos; [|lra]. unfold Rdiv. apply Rmult_le_pos; [lra|].
    left. apply Rinv_0_lt_compat. lra. }
  rewrite (Rabs_pos_eq _ Hq). unfold Rdiv. ring.
Qed.




(* ================================================================== *)
(** ** The blade grid *)
(* ================================================================== *)

Lemma loop_test_trips j bound n :
  trips bound = Some n ->
  (Fin (INR j) <? bound)%js = (j <? n)%nat.
Proof.
  destruct bound as [r| | |]; simpl; intros H; inversion H; subst; clear H.
  - pose proof (Zceil_bound r) as [Hlo Hhi].
    destruct (Nat.ltb_spec j (Z.to_nat (Zceil r))) as [Hj | Hj].
    + apply Rltb_true.
      assert (Hz : (Z.of_nat j + 1 <= Zceil r)%Z) by lia.
      apply IZR_le in Hz. rewrite plus_IZR, <- INR_IZR_INZ in Hz. lra.
    + apply Rltb_false. intros Hlt.
      assert (Hz : (Z.of_nat j < Zceil r)%Z).
      { apply lt_IZR. rewrite <- INR_IZR_INZ. lra. }
      lia.
  - reflexivity.
  - reflexivity.
Qed.

(** A counted loop whose body always completes runs it for every index
    below the trip count, given fuel beyond that count. *)
Lemma for_lt_complete {S} (bound : num) (n : nat)
    (body : nat -> S -> World -> option (S * World))
    (f : nat -> S -> World -> S * World) :
  trips bound = Some n ->
  (forall j s w, body j s w = Some (f j s w)) ->
  forall fuel i s w,
    (n - i < fuel)%nat ->
    for_lt fuel i bound body s w
    = Some (fold_left (fun sw j => f j (fst sw) (snd sw))
                      (seq i (n - i)) (s, w)).
Proof.
  intros Hn Hbody. induction fuel as [|fuel IH]; intros i s w Hfuel; [lia|].
  cbn [for_lt]. rewrite (loop_test_trips i bound n Hn).
  destruct (Nat.ltb_spec i n) as [Hi | Hi].
  - rewrite Hbody. destruct (f i s w) as [s' w'] eqn:Ef.
    rewrite IH by lia.
    replace (n - i)%nat with (Datatypes.S (n - Datatypes.S i)) by lia.
    cbn [seq fold_left fst snd]. rewrite Ef. reflexivity.
  - replace (n - i)%nat with 0%nat by lia. reflexivity.
Qed.

Lemma push_blade_roots cfg cs row col bs w :
  roots (fst (GrassWindBackground.push_blade cfg cs row col bs w))
  = roots bs ++ [Spec.cell_center cs row col].
Proof.
  unfold GrassWindBackground.push_blade, GrassBlade.constructor, bind,
    Math_random, ret. simpl. unfold roots. rewrite map_app. reflexivity.
Qed.

(** The column loop of one row appends the centres of the row's cells. *)
Lemma column_loop_roots cfg cs row cols :
  forall bs w,
    roots (fst (fold_left
                  (fun sw col =>
                     GrassWindBackground.push_blade cfg cs row col
                       (fst sw) (snd sw))
                  cols (bs, w)))
    = roots bs ++ map (Spec.cell_center cs row) cols.
Proof.
  induction cols as [|col cols IH]; intros bs w; simpl.
  - rewrite app_nil_r. reflexivity.
  - destruct (GrassWindBackground.push_blade cfg cs row col bs w)
      as [bs1 w1] eqn:E.
    rewrite IH.
    pose proof (push_blade_roots cfg cs row col bs w) as H.
    rewrite E in H. simpl in H. rewrite H, <- app_assoc. reflexivity.
Qed.

(** The row loop appends the centres row by row. *)
Lemma row_loop_roots cfg cs ncols rows :
  forall bs w,
    roots (fst (fold_left
                  (fun sw row =>
                     fold_left
                       (fun sw' col =>
                          GrassWindBackground.push_blade cfg cs row col
                            (fst sw') (snd sw'))
                       (seq 0 ncols) (fst sw, snd sw))
                  rows (bs, w)))
    = roots bs
      ++ flat_map (fun row => map (Spec.cell_center cs row) (seq 0 ncols))
                  rows.
Proof.
  induction rows as [|row rows IH]; intros bs w; simpl.
  - rewrite app_nil_r. reflexivity.
  - destruct (fold_left _ (seq 0 ncols) (bs, w)) as [bs1 w1] eqn:E.
    rewrite IH.
    pose proof (column_loop_roots cfg cs row (seq 0 ncols) bs w) as H.
    rewrite E in H. simpl in H. rewrite H, <- app_assoc. reflexivity.
Qed.

Lemma grid_centers_length cs nrows ncols :
  List.length (Spec.grid_centers cs nrows ncols) = (nrows * ncols)%nat.
Proof.
  unfold Spec.grid_centers.
  assert (H : forall rows,
    List.length
      (flat_map (fun row => map (Spec.cell_center cs row) (seq 0 ncols)) rows)
    = (List.length rows * ncols)%nat).
  { induction rows as [|row rows IH]; simpl; [reflexivity|].
    rewrite length_app, length_map, length_seq, IH. reflexivity. }
  rewrite H, length_seq. reflexivity.
Qed.

Lemma trips_one : trips (Fin 1) = Some 1%nat.
Proof.
  simpl. rewrite (Zceil_eq 1 1) by lra. reflexivity.
Qed.

(** [setupBlades] on a finite grid: it completes, with one blade at the
    centre of each cell, row by row. *)
Lemma setupBlades_grid this w nrows ncols fuel :
  bladesPerCell (GrassWindBackground.config this) = Fin 1 ->
  trips (Spec.grid_rows this) = Some nrows ->
  trips (Spec.grid_columns this) = Some ncols ->
  (nrows < fuel)%nat -> (ncols < fuel)%nat -> (1 < fuel)%nat ->
  exists bs w',
    GrassWindBackground.setupBlades fuel this w
      = Some (GrassWindBackground.set_blades this bs, w') /\
    roots bs = Spec.grid_centers (Spec.grid_cellSize this) nrows ncols.
Proof.
  intros Hper Hrows Hcols Hf1 Hf2 Hf3.
  unfold GrassWindBackground.setupBlades.
  fold (Spec.grid_columns this). fold (Spec.grid_cellSize this).
  fold (Spec.grid_rows this). rewrite Hper.
  set (cs := Spec.grid_cellSize this).
  set (cfg := GrassWindBackground.config this).
  assert (Hinner : forall row col bs w0,
    for_lt fuel 0 (Fin 1)
      (fun _ bs1 w1 =>
         Some (GrassWindBackground.push_blade cfg cs row col bs1 w1)) bs w0
    = Some (GrassWindBackground.push_blade cfg cs row col bs w0)).
  { intros row col bs w0.
    rewrite (for_lt_complete (Fin 1) 1 _
               (fun _ bs1 w1 =>
                  GrassWindBackground.push_blade cfg cs row col bs1 w1)
               trips_one) by (auto; lia).
    reflexivity. }
  assert (Hcol : forall row bs w0,
    for_lt fuel 0 (Spec.grid_columns this)
      (fun col =>
         for_lt fuel 0 (Fin 1)
           (fun _ bs1 w1 =>
              Some (GrassWindBackground.push_blade cfg cs row col bs1 w1)))
      bs w0
    = Some (fold_left
              (fun sw col =>
                 GrassWindBackground.push_blade cfg cs row col
                   (fst sw) (snd sw))
              (seq 0 ncols) (bs, w0))).
  { intros row bs w0.
    rewrite (for_lt_complete (Spec.grid_columns this) ncols _
               (fun col bs1 w1 =>
                  GrassWindBackground.push_blade cfg cs row col bs1 w1)
               Hcols) by (auto; lia).
    rewrite Nat.sub_0_r. reflexivity. }
  rewrite (for_lt_complete (Spec.grid_rows this) nrows _
             (fun row bs1 w1 =>
                fold_left
                  (fun sw col =>
                     GrassWindBackground.push_blade cfg cs row col
                       (fst sw) (snd sw))
                  (seq 0 ncols) (bs1, w1))
             Hrows) by (auto; lia).
  rewrite Nat.sub_0_r.
  destruct (fold_left _ (seq 0 nrows) ([], w)) as [bs w'] eqn:E.
  exists bs, w'. split; [reflexivity|].
  pose proof (row_loop_roots cfg cs ncols (seq 0 nrows) [] w) as H.
  simpl fst in H. simpl snd in H.
  rewrite E in H. exact H.
Qed.

Lemma Zceil_IZR z : Zceil (IZR z) = z.
Proof. apply Zceil_eq. lra. Qed.

Lemma Zceil_INR n : Zceil (INR n) = Z.of_nat n.
Proof. rewrite INR_IZR_INZ. apply Zceil_IZR. Qed.

(** The grid of a container of positive width whose column count is a
    positive integer: finite, with explicit cell size and counts. *)
Lemma grid_of_positive_width this wd h c :
  GrassWindBackground.width this = Fin wd -> 0 < wd ->
  GrassWindBackground.height this = Fin h ->
  Spec.grid_columns this = Fin (INR c) -> (0 < c)%nat ->
  Spec.grid_cellSize this = Fin (wd / INR c) /\
  Spec.grid_rows this = Fin (IZR (Zceil (h / (wd / INR c)))) /\
  trips (Spec.grid_rows this) = Some (Z.to_nat (Zceil (h / (wd / INR c)))) /\
  trips (Spec.grid_columns this) = Some c.
Proof.
  intros Hw Hwd Hh Hc Hc0.
  assert (HINR : 0 < INR c) by (apply lt_0_INR; exact Hc0).
  assert (Hcs : Spec.grid_cellSize this = Fin (wd / INR c)).
  { unfold Spec.grid_cellSize. rewrite Hw, Hc. apply div_Fin. lra. }
  assert (Hrows : Spec.grid_rows this = Fin (IZR (Zceil (h / (wd / INR c))))).
  { unfold Spec.grid_rows. rewrite Hcs, Hh, div_Fin; [reflexivity|].
    apply Rgt_not_eq. apply Rdiv_lt_0_compat; lra. }
  repeat split; try assumption.
  - rewrite Hrows. simpl. rewrite Zceil_IZR. reflexivity.
  - rewrite Hc. simpl. rewrite Zceil_INR, Nat2Z.id. reflexivity.
Qed.

Lemma desktop_grid :
  Spec.grid_columns desktop_container = Fin (INR 30) /\
  Spec.grid_cellSize desktop_container = Fin 40 /\
  trips (Spec.grid_rows desktop_container) = Some 15%nat /\
  trips (Spec.grid_columns desktop_container) = Some 30%nat.
Proof.
  assert (Hc : Spec.grid_columns desktop_container = Fin (INR 30)).
  { unfold Spec.grid_columns, desktop_container. simpl.
    rewrite Rleb_false by lra. apply Fin_eq. simpl. lra. }
  destruct (grid_of_positive_width desktop_container 1200 600 30)
    as (Hcs & _ & Hr & Hn); auto; try lra; try lia.
  replace (1200 / INR 30) with 40 in * by (simpl; lra).
  replace (600 / 40) with 15 in * by lra.
  rewrite (Zceil_IZR 15) in Hr. auto.
Qed.

Lemma mobile_grid :
  Spec.grid_columns mobile_container = Fin (INR 10) /\
  Spec.grid_cellSize mobile_container = Fin 60 /\
  trips (Spec.grid_rows mobile_container) = Some 10%nat /\
  trips (Spec.grid_columns mobile_container) = Some 10%nat.
Proof.
  assert (Hc : Spec.grid_columns mobile_container = Fin (INR 10)).
  { unfold Spec.grid_columns, mobile_container. simpl.
    rewrite Rleb_true by lra. apply Fin_eq. simpl. lra. }
  destruct (grid_of_positive_width mobile_container 600 600 10)
    as (Hcs & _ & Hr & Hn); auto; try lra; try lia.
  replace (600 / INR 10) with 60 in * by (simpl; lra).
  replace (600 / 60) with 10 in * by lra.
  rewrite (Zceil_IZR 10) in Hr. auto.
Qed.



(* ================================================================== *)
(** ** Degenerate geometry *)
(* ================================================================== *)

(** In a container of zero width and height the row count is [NaN],
    whatever the column count. *)
Lemma grid_rows_zero_container this :
  GrassWindBackground.width this = Fin 0 ->
  GrassWindBackground.height this = Fin 0 ->
  Spec.grid_rows this = NaN.
Proof.
  intros Hw Hh. unfold Spec.grid_rows, Spec.grid_cellSize.
  rewrite Hw, Hh.
  destruct (Spec.grid_columns this) as [c| | |]; simpl.
  - unfold JS.inf_of_sign. destruct (Req_dec_T c 0) as [Hc | Hc].
    + rewrite (Reqb_true c 0 Hc), (Reqb_true 0 0 eq_refl). reflexivity.
    + rewrite (Reqb_false c 0 Hc). simpl.
      rewrite (Reqb_true (0 / c) 0) by (unfold Rdiv; ring).
      rewrite (Reqb_true 0 0 eq_refl). reflexivity.
  - unfold JS.inf_of_sign. rewrite !(Reqb_true 0 0 eq_refl). reflexivity.
  - unfold JS.inf_of_sign. rewrite !(Reqb_true 0 0 eq_refl). reflexivity.
  - reflexivity.
Qed.

Lemma update_mouse_blades this :
  GrassWindBackground.blades (GrassWindBackground.update_mouse this)
  = GrassWindBackground.blades this.
Proof.
  unfold GrassWindBackground.update_mouse.
  destruct (GrassWindBackground.isMouseOver this); reflexivity.
Qed.

Lemma spawn_gust_blades this w :
  GrassWindBackground.blades (fst (GrassWindBackground.spawn_gust this w))
  = GrassWindBackground.blades this.
Proof.
  unfold GrassWindBackground.spawn_gust, bind, ret.
  repeat match goal with
         | |- context [let (_, _) := ?c in _] => destruct c
         | |- context [if ?c then _ else _] => destruct c
         end; reflexivity.
Qed.

(** A loop with an infinite bound never completes. *)
Lemma for_lt_infinite_bound {S} fuel
    (body : nat -> S -> World -> option (S * World)) :
  forall i s w, for_lt fuel i PInf body s w = None.
Proof.
  induction fuel as [|fuel IH]; intros i s w; cbn [for_lt]; [reflexivity|].
  change (Fin (INR i) <? PInf)%js with true. cbv iota.
  destruct (body i s w) as [[s' w']|]; [apply IH | reflexivity].
Qed.

(** Outside the two claims on the grid: a container of zero width and
    positive height has cells of side 0 and a row count of [Infinity];
    [setupBlades] never completes. *)
Lemma setupBlades_zero_width_never_completes this h c :
  GrassWindBackground.width this = Fin 0 ->
  GrassWindBackground.height this = Fin h -> 0 < h ->
  Spec.grid_columns this = Fin c -> c <> 0 ->
  forall fuel w, GrassWindBackground.setupBlades fuel this w = None.
Proof.
  intros Hw Hh Hpos Hc Hc0 fuel w.
  unfold GrassWindBackground.setupBlades.
  fold (Spec.grid_columns this). rewrite Hw, Hh, Hc.
  rewrite (div_Fin 0 c Hc0).
  replace (Fin h / Fin (0 / c))%js with PInf.
  - simpl JS.Math_ceil. rewrite for_lt_infinite_bound. reflexivity.
  - unfold JS.div, JS.inf_of_sign.
    rewrite (Reqb_true (0 / c) 0) by (unfold Rdiv; ring).
    rewrite (Reqb_false h 0) by lra.
    rewrite (Rltb_true 0 h Hpos). reflexivity.
Qed.

(** C8. In a container whose width and height are zero, blade-grid setup
    completes, for any configuration, with an empty blade set and
    without drawing a random number; over an empty blade set the blade
    loop of the per-frame update updates nothing (the set stays empty)
    and render draws no blade: it only clears the canvas and resets the
    global alpha. *)
Theorem zero_size_container_has_no_blades :
  forall (this : GrassWindBackground.t) (w : World) (fuel : nat),
    GrassWindBackground.width this = Fin 0 ->
    GrassWindBackground.height this = Fin 0 ->
    GrassWindBackground.setupBlades (S fuel) this w
      = Some (GrassWindBackground.set_blades this [], w)
    /\ (forall (empty : GrassWindBackground.t) (deltaTime : num) (w1 : World),
          GrassWindBackground.blades empty = [] ->
          GrassWindBackground.blades
            (fst (GrassWindBackground.update empty deltaTime w1)) = []
          /\ GrassWindBackground.render empty
             = [ClearRect 0 0 (GrassWindBackground.width empty)
                              (GrassWindBackground.height empty);
                SetGlobalAlpha 1]).
Proof.
  intros this w fuel Hw Hh. split.
  - unfold GrassWindBackground.setupBlades.
    fold (Spec.grid_columns this). fold (Spec.grid_cellSize this).
    fold (Spec.grid_rows this).
    rewrite (grid_rows_zero_container this Hw Hh). reflexivity.
  - intros empty deltaTime w1 Hb. split.
    + unfold GrassWindBackground.update, bind, ret.
      pose proof (spawn_gust_blades
                    (GrassWindBackground.update_mouse
                       (GrassWindBackground.set_time empty
                          (GrassWindBackground.time empty
                           + fieldSpeed (GrassWindBackground.config empty)
                             * deltaTime)%js)) w1) as Hs.
      rewrite update_mouse_blades in Hs. simpl in Hs. rewrite Hb in Hs.
      destruct (GrassWindBackground.spawn_gust _ w1) as [this1 w2].
      simpl in Hs.
      destruct (filterM Gust.isAlive (GrassWindBackground.gusts this1) w2)
        as [alive w3].
      simpl GrassWindBackground.blades. rewrite Hs. reflexivity.
    + unfold GrassWindBackground.render. rewrite Hb. reflexivity.
Qed.

Lemma zero_size_container_has_no_blades_witness :
  GrassWindBackground.setupBlades 1
    (GrassWindBackground.mk DEFAULTS 0 0 [] [] 0 0 0 0 0 0 0 0 0 false)
    still_world
  = Some (GrassWindBackground.set_blades
            (GrassWindBackground.mk DEFAULTS 0 0 [] [] 0 0 0 0 0 0 0 0 0 false)
            [],
          still_world).
Proof.
  apply (proj1 (zero_size_container_has_no_blades
                  (GrassWindBackground.mk DEFAULTS 0 0 [] [] 0
                     0 0 0 0 0 0 0 0 false)
                  still_world 0%nat eq_refl eq_refl)).
Defined.

(* ================================================================== *)
(** ** Numbers that are not infinite *)
(* ================================================================== *)

Lemma nf_Fin r : not_infinite (Fin r).
Proof. split; discriminate. Qed.

Lemma nf_NaN : not_infinite NaN.
Proof. split; discriminate. Qed.

Lemma nf_cases a : not_infinite a -> a = NaN \/ exists r, a = Fin r.
Proof.
  intros [H1 H2]. destruct a; eauto; congruence.
Qed.

Ltac nf_cases a :=
  let H := fresh in
  let r := fresh "r" in
  match goal with
  | Ha : not_infinite a |- _ =>
      destruct (nf_cases a Ha) as [H | [r H]]; rewrite H in *; clear H
  end.

Lemma nf_add a b : not_infinite a -> not_infinite b -> not_infinite (a + b)%js.
Proof.
  intros Ha Hb. nf_cases a; nf_cases b; simpl; auto using nf_Fin, nf_NaN.
Qed.

Lemma nf_neg a : not_infinite a -> not_infinite (- a)%js.
Proof. intros Ha. nf_cases a; simpl; auto using nf_Fin, nf_NaN. Qed.

Lemma nf_sub a b : not_infinite a -> not_infinite b -> not_infinite (a - b)%js.
Proof. intros Ha Hb. apply nf_add; auto using nf_neg. Qed.

Lemma nf_mul a b : not_infinite a -> not_infinite b -> not_infinite (a * b)%js.
Proof.
  intros Ha Hb. nf_cases a; nf_cases b; simpl; auto using nf_Fin, nf_NaN.
Qed.

Lemma nf_sin a : not_infinite (JS.Math_sin a).
Proof. destruct a; simpl; auto using nf_Fin, nf_NaN. Qed.

Lemma nf_cos a : not_infinite (JS.Math_cos a).
Proof. destruct a; simpl; auto using nf_Fin, nf_NaN. Qed.

(** The fractional part [a - Math.floor(a)] is never infinite. *)
Lemma nf_frac a : not_infinite (a - JS.Math_floor a)%js.
Proof. destruct a; simpl; auto using nf_Fin, nf_NaN. Qed.

Create HintDb nf.
#[global] Hint Resolve nf_Fin nf_NaN nf_add nf_neg nf_sub nf_mul nf_sin nf_cos
  nf_frac : nf.

Lemma nf_noise2D x y seed : not_infinite (noise2D x y seed).
Proof. unfold noise2D. apply nf_frac. Qed.

Lemma nf_smoothNoise x y scale seed :
  not_infinite (smoothNoise x y scale seed).
Proof.
  unfold smoothNoise. cbv zeta.
  repeat (first [ apply nf_noise2D | apply nf_frac | apply nf_Fin
                | apply nf_sub | apply nf_add | apply nf_mul | apply nf_neg ]).
Qed.

Lemma Math_sqrt_value a : sqrt_value (JS.Math_sqrt a).
Proof.
  destruct a as [r| | |]; simpl; unfold sqrt_value; auto.
  unfold JS.Rltb. destruct (Rlt_dec r 0); auto.
  right; right. exists (sqrt r). split; [reflexivity | apply sqrt_pos].
Qed.

(** The gust falloff division: a distance not beyond the radius, over
    that radius. *)
Lemma nf_dist_over_radius dist rad :
  sqrt_value dist -> not_infinite rad -> (dist >? rad)%js = false ->
  not_infinite (dist / rad)%js.
Proof.
  intros Hd Hr Hgt. nf_cases rad.
  - destruct dist; simpl; auto with nf.
  - destruct Hd as [-> | [-> | (d & -> & Hd)]]; simpl in *;
      try discriminate; auto with nf.
    unfold JS.gt, JS.lt in Hgt. unfold JS.inf_of_sign. case_R;
      try discriminate; auto with nf; exfalso;
      first [lra | assert (d = 0) by lra; contradiction].
Qed.

(** The pointer falloff division: a positive distance below the radius,
    over that radius. *)
Lemma nf_dist_over_mouseRadius dist rad :
  sqrt_value dist -> (dist <? rad)%js = true -> (dist >? 0)%js = true ->
  not_infinite (dist / rad)%js.
Proof.
  intros Hd Hlt Hgt.
  destruct rad as [r| | |];
    destruct Hd as [-> | [-> | (d & -> & Hd)]];
    simpl in *; try discriminate; auto with nf.
  unfold JS.gt, JS.lt in Hgt, Hlt. unfold JS.inf_of_sign. case_R;
    try discriminate; auto with nf; exfalso; lra.
Qed.

(* ================================================================== *)
(** ** No infinite wind, whatever the gust radius and duration *)
(* ================================================================== *)

Lemma nf_timeEnvelope t :
  not_infinite (smoothstep 0 0.2 t * (1 - smoothstep 0.7 1 t))%js.
Proof.
  destruct (timeEnvelope_cases t) as [-> | (e & -> & _)]; auto with nf.
Qed.

Lemma force_within_nf g dist now :
  gust_ok g -> sqrt_value dist ->
  (dist >? gustRadius (Gust.config g))%js = false ->
  nf_vec (Gust.force_within g dist now).
Proof.
  intros (Hgs & Hrad & Hx & Hy) Hd Hin. unfold Gust.force_within.
  assert (Hs : not_infinite
                 (gustStrength (Gust.config g)
                  * (1 - dist / gustRadius (Gust.config g))
                  * (smoothstep 0 0.2
                       ((now - Gust.birthTime g) / Gust.duration g)
                     * (1 - smoothstep 0.7 1
                              ((now - Gust.birthTime g) / Gust.duration g))))%js).
  { apply nf_mul; [apply nf_mul; [exact Hgs|] | apply nf_timeEnvelope].
    apply nf_sub; [apply nf_Fin|].
    apply nf_dist_over_radius; assumption. }
  split; simpl; apply nf_mul; assumption.
Qed.

(** Whatever the radius and the duration, a gust's force has no infinite
    component. *)
Lemma getForce_nf g x y w :
  gust_ok g -> nf_vec (fst (Gust.getForce g x y w)).
Proof.
  intros Hg. unfold Gust.getForce.
  match goal with |- context [if ?c then _ else _] => destruct c eqn:E end.
  - split; simpl; apply nf_Fin.
  - unfold bind, ret, Date_now. simpl.
    apply force_within_nf; [exact Hg | apply Math_sqrt_value | exact E].
Qed.

Lemma mapM_getForce_nf x y gusts :
  Forall gust_ok gusts ->
  forall w, Forall nf_vec (fst (mapM (fun g => Gust.getForce g x y) gusts w)).
Proof.
  induction 1 as [|g gusts Hg _ IH]; intros w; simpl.
  - constructor.
  - unfold bind, ret.
    pose proof (getForce_nf g x y w Hg) as Hf.
    destruct (Gust.getForce g x y w) as [f w1].
    specialize (IH w1).
    destruct (mapM (fun g0 => Gust.getForce g0 x y) gusts w1) as [fs w2].
    simpl in *. constructor; assumption.
Qed.

Lemma vadd_nf a b : nf_vec a -> nf_vec b -> nf_vec (Spec.vadd a b).
Proof. intros [? ?] [? ?]. split; simpl; apply nf_add; assumption. Qed.

Lemma fold_vadd_nf forces :
  Forall nf_vec forces ->
  forall base, nf_vec base -> nf_vec (fold_left Spec.vadd forces base).
Proof.
  induction 1 as [|f forces Hf _ IH]; intros base Hb; simpl; auto.
  apply IH. apply vadd_nf; assumption.
Qed.

Lemma ambient_nf cfg time x y :
  not_infinite (fieldStrength cfg) -> nf_vec (Spec.ambient cfg time x y).
Proof.
  intros H. unfold Spec.ambient. split; simpl; apply nf_mul; auto with nf.
Qed.

(** The composed wind has no infinite component. *)
Lemma getWindForce_nf this x y w :
  wind_sources_ok this ->
  nf_vec (fst (GrassWindBackground.getWindForce this x y w)).
Proof.
  intros (Hfs & Hms & Hvx & Hvy & Hgusts).
  rewrite getWindForce_composed. simpl fst. unfold Spec.composed.
  assert (Hbase : nf_vec
    (fold_left Spec.vadd
       (fst (mapM (fun g => Gust.getForce g x y)
                  (GrassWindBackground.gusts this) w))
       (Spec.ambient (GrassWindBackground.config this)
                     (GrassWindBackground.time this) x y))).
  { apply fold_vadd_nf; [apply mapM_getForce_nf; exact Hgusts|].
    apply ambient_nf; exact Hfs. }
  destruct (GrassWindBackground.isMouseOver this); cbn [andb];
    [|exact Hbase].
  destruct (Spec.within_apart _ _) eqn:E; [|exact Hbase].
  unfold Spec.within_apart in E. apply andb_prop in E. destruct E as [E1 E2].
  apply vadd_nf; [exact Hbase|].
  unfold Spec.pointer_term, Spec.vscale.
  assert (Hf : not_infinite
            ((1 - JS.Math_sqrt
                    ((x - GrassWindBackground.mouseX this)
                     * (x - GrassWindBackground.mouseX this)
                     + (y - GrassWindBackground.mouseY this)
                       * (y - GrassWindBackground.mouseY this))
                  / mouseRadius (GrassWindBackground.config this))
             * mouseStrength (GrassWindBackground.config this))%js).
  { apply nf_mul; [|exact Hms]. apply nf_sub; [apply nf_Fin|].
    apply nf_dist_over_mouseRadius; auto using Math_sqrt_value. }
  split; simpl; apply nf_mul; assumption.
Qed.

Lemma update_blade_ok this b w :
  wind_sources_ok this -> blade_ok b ->
  blade_ok (fst (GrassWindBackground.update_blade this b w)).
Proof.
  intros Hw (Hfin & Hk & Hd & mb & Hmb).
  unfold GrassWindBackground.update_blade, bind, ret.
  pose proof (getWindForce_nf this (GrassBlade.rootX b) (GrassBlade.rootY b)
                w Hw) as [Hx Hy].
  destruct (GrassWindBackground.getWindForce this _ _ w) as [wind w1].
  simpl in *.
  destruct (update_finite b (vx wind) (vy wind) mb Hk Hd Hmb Hfin Hx Hy)
    as (a' & v' & Hv' & Ha').
  unfold blade_ok. rewrite update_config.
  repeat split; try assumption; red; eauto.
Qed.

Lemma mapM_update_blade_ok this blades :
  wind_sources_ok this -> Forall blade_ok blades ->
  forall w,
    Forall blade_ok
      (fst (mapM (GrassWindBackground.update_blade this) blades w)).
Proof.
  intros Hw. induction 1 as [|b blades Hb _ IH]; intros w; simpl.
  - constructor.
  - unfold bind, ret.
    pose proof (update_blade_ok this b w Hw Hb) as Hb'.
    destruct (GrassWindBackground.update_blade this b w) as [b' w1].
    specialize (IH w1).
    destruct (mapM (GrassWindBackground.update_blade this) blades w1)
      as [bs w2].
    simpl in *. constructor; assumption.
Qed.

Lemma filterM_Forall {A} (P : A -> Prop) (p : A -> M bool) l :
  Forall P l -> forall w, Forall P (fst (filterM p l w)).
Proof.
  induction 1 as [|a l Ha _ IH]; intros w; simpl.
  - constructor.
  - unfold bind, ret. destruct (p a w) as [keep w1].
    specialize (IH w1). destruct (filterM p l w1) as [rest w2].
    simpl in *. destruct keep; auto.
Qed.

Lemma constructor_gust_ok px py cfg w :
  not_infinite (gustStrength cfg) -> not_infinite (gustRadius cfg) ->
  gust_ok (fst (Gust.constructor px py cfg w)).
Proof.
  intros Hgs Hrad. unfold Gust.constructor, bind, ret, Date_now, Math_random.
  simpl. unfold gust_ok. simpl. auto using nf_cos, nf_sin.
Qed.

(** [spawn_gust] changes nothing but the gust list, to which it may
    append one freshly constructed gust. *)
Lemma spawn_gust_shape this w :
  exists gs,
    fst (GrassWindBackground.spawn_gust this w)
      = GrassWindBackground.set_gusts this gs /\
    (gs = GrassWindBackground.gusts this \/
     exists px py w',
       gs = GrassWindBackground.gusts this
            ++ [fst (Gust.constructor px py
                       (GrassWindBackground.config this) w')]).
Proof.
  unfold GrassWindBackground.spawn_gust, bind, ret.
  destruct (Math_random w) as [r w1].
  destruct (r <? gustFrequency (GrassWindBackground.config this))%js.
  - destruct (Math_random w1) as [r2 w2].
    match goal with
    | |- context [let (_, _) := ?c in _] => destruct c as [pos w3]
    end.
    destruct (Gust.constructor (fst pos) (snd pos)
                (GrassWindBackground.config this) w3) as [g w4] eqn:E.
    eexists. split; [reflexivity|]. right.
    exists (fst pos), (snd pos), w3. rewrite E. reflexivity.
  - exists (GrassWindBackground.gusts this). split; [|auto].
    destruct this; reflexivity.
Qed.

(** The blade loop of one frame update: every blade is updated with
    the wind force of one simulation state, whose wind sources are not
    infinite. *)
Lemma update_blades_shape this deltaTime w :
  sim_ok this ->
  exists this' w',
    wind_sources_ok this' /\
    GrassWindBackground.blades
      (fst (GrassWindBackground.update this deltaTime w))
    = fst (mapM (GrassWindBackground.update_blade this')
                (GrassWindBackground.blades this) w').
Proof.
  intros ((Hfs & Hgs & Hrad & Hms & Hsm)
          & (Hmx & Hmy & Hlx & Hly & Hsx & Hsy) & Hgusts & Hblades).
  unfold GrassWindBackground.update, bind, ret.
  set (this1 := GrassWindBackground.update_mouse _).
  assert (Hc1 : GrassWindBackground.config this1
                = GrassWindBackground.config this)
    by (unfold this1, GrassWindBackground.update_mouse;
        destruct (GrassWindBackground.isMouseOver _); reflexivity).
  assert (Hg1 : GrassWindBackground.gusts this1
                = GrassWindBackground.gusts this)
    by (unfold this1, GrassWindBackground.update_mouse;
        destruct (GrassWindBackground.isMouseOver _); reflexivity).
  assert (Hb1 : GrassWindBackground.blades this1
                = GrassWindBackground.blades this)
    by (unfold this1; rewrite update_mouse_blades; reflexivity).
  assert (Hv1 : not_infinite (GrassWindBackground.smoothMouseVelX this1) /\
                not_infinite (GrassWindBackground.smoothMouseVelY this1)).
  { unfold this1, GrassWindBackground.update_mouse.
    destruct (GrassWindBackground.isMouseOver _) eqn:E; simpl;
      auto 10 with nf. }
  destruct (spawn_gust_shape this1 w) as (gs & Hshape & Hgs').
  destruct (GrassWindBackground.spawn_gust this1 w) as [this2 w2].
  simpl in Hshape. subst this2.
  assert (Hok : Forall gust_ok gs).
  { destruct Hgs' as [-> | (px & py & w' & ->)].
    - rewrite Hg1. exact Hgusts.
    - rewrite Hg1. apply Forall_app. split; [exact Hgusts|].
      constructor; [|constructor].
      apply constructor_gust_ok; rewrite Hc1; assumption. }
  simpl GrassWindBackground.gusts.
  pose proof (filterM_Forall gust_ok Gust.isAlive gs Hok w2) as Halive.
  destruct (filterM Gust.isAlive gs w2) as [alive w3]. simpl in Halive.
  simpl GrassWindBackground.blades. rewrite Hb1.
  exists (GrassWindBackground.set_gusts
            (GrassWindBackground.set_gusts this1 gs) alive), w3.
  split.
  - unfold wind_sources_ok. simpl. rewrite Hc1. destruct Hv1. auto.
  - destruct (mapM _ (GrassWindBackground.blades this) w3) as [bs w4].
    reflexivity.
Qed.

(** One frame update keeps every blade in a finite state. *)
Lemma update_keeps_blades_finite this deltaTime w :
  sim_ok this ->
  Forall blade_ok
    (GrassWindBackground.blades
       (fst (GrassWindBackground.update this deltaTime w))).
Proof.
  intros H. pose proof H as (_ & _ & _ & Hblades).
  destruct (update_blades_shape this deltaTime w H) as (this' & w' & Hw & ->).
  apply mapM_update_blade_ok; assumption.
Qed.

(** Updated with the composed wind, a blade in a finite state comes out
    with its angle within the bend. *)
Lemma update_blade_in_bend this b w :
  wind_sources_ok this -> blade_ok b -> bend_ok b ->
  in_bend (fst (GrassWindBackground.update_blade this b w)).
Proof.
  intros Hw (Hfin & Hk & Hd & mb & Hmb) Hpos.
  unfold GrassWindBackground.update_blade, bind, ret.
  pose proof (getWindForce_nf this (GrassBlade.rootX b) (GrassBlade.rootY b)
                w Hw) as [Hx Hy].
  destruct (GrassWindBackground.getWindForce this _ _ w) as [wind w1].
  simpl in *.
  destruct (update_finite b (vx wind) (vy wind) mb Hk Hd Hmb Hfin Hx Hy)
    as (a' & v' & Hv' & Ha').
  exists (Rmax (- mb) (Rmin mb a')), mb. rewrite update_config.
  auto using clamp_bounds.
Qed.

Lemma mapM_Forall {A B} (f : A -> M B) (P : A -> Prop) (Q : B -> Prop) :
  (forall a w, P a -> Q (fst (f a w))) ->
  forall l, Forall P l -> forall w, Forall Q (fst (mapM f l w)).
Proof.
  intros Hf. induction 1 as [|a l Ha _ IH]; intros w; simpl.
  - constructor.
  - unfold bind, ret. pose proof (Hf a w Ha) as Hq.
    destruct (f a w) as [b w1]. specialize (IH w1).
    destruct (mapM f l w1) as [bs w2]. simpl in *. constructor; assumption.
Qed.

(** One frame update leaves every blade's angle within the bend. *)
Lemma update_keeps_blades_in_bend this deltaTime w :
  sim_ok this -> Forall bend_ok (GrassWindBackground.blades this) ->
  Forall in_bend
    (GrassWindBackground.blades
       (fst (GrassWindBackground.update this deltaTime w))).
Proof.
  intros H Hbend. pose proof H as (_ & _ & _ & Hblades).
  destruct (update_blades_shape this deltaTime w H) as (this' & w' & Hw & ->).
  apply (mapM_Forall _ (fun b => blade_ok b /\ bend_ok b)).
  - intros b w0 [Hb Hp]. apply update_blade_in_bend; assumption.
  - apply Forall_forall. intros b Hin. split.
    + exact (proj1 (Forall_forall _ _) Hblades b Hin).
    + exact (proj1 (Forall_forall _ _) Hbend b Hin).
Qed.

(* ================================================================== *)
(** ** The bend invariant *)
(* ================================================================== *)



(* ================================================================== *)
(** ** Degenerate gusts *)
(* ================================================================== *)


(** Zero duration, any other instant than the birth: the envelope is 0. *)
Lemma timeEnvelope_zero_duration age :
  age <> 0 ->
  (smoothstep 0 0.2 (Fin age / Fin 0) * (1 - smoothstep 0.7 1 (Fin age / Fin 0)))%js
  = Fin 0.
Proof.
  intros H. unfold JS.div. rewrite (Reqb_true 0 0 eq_refl).
  unfold JS.inf_of_sign. rewrite (Reqb_false age 0 H).
  destruct (Rlt_dec 0 age) as [Hp | Hn].
  - rewrite (Rltb_true 0 age Hp), !smoothstep_PInf by lra.
    autorewrite with jsnum. apply Fin_eq. lra.
  - rewrite (Rltb_false 0 age Hn), !smoothstep_NInf by lra.
    autorewrite with jsnum. apply Fin_eq. lra.
Qed.

Lemma update_NaN_wind b : GrassBlade.update b NaN NaN = GrassBlade.update b 0 0.
Proof.
  unfold GrassBlade.update. rewrite apply_wind_zero. reflexivity.
Qed.



(* ================================================================== *)
(** ** Further properties: smoothstep and the noise hash *)
(* ================================================================== *)

Lemma cubic_monotone t t' :
  0 <= t -> t <= t' -> t' <= 1 -> Spec.cubic t <= Spec.cubic t'.
Proof.
  intros H0 Hle H1. unfold Spec.cubic.
  assert (Hd : 0 <= (t' - t) * (t * (3 - 2 * t - t') + t' * (3 - 2 * t' - t))).
  { apply Rmult_le_pos; [lra|].
    apply Rplus_le_le_0_compat; apply Rmult_le_pos; lra. }
  lra.
Qed.

Lemma unit_clamp_monotone a b :
  a <= b -> Rmax 0 (Rmin 1 a) <= Rmax 0 (Rmin 1 b).
Proof. intros H. unfold Rmax, Rmin. case_R; lra. Qed.

Lemma unit_clamp_range a : 0 <= Rmax 0 (Rmin 1 a) <= 1.
Proof. unfold Rmax, Rmin. case_R; lra. Qed.

(** X1. Between two finite edges [edge0 < edge1], [smoothstep] is a
    number of [[0, 1]] at every finite point: 0 at and below [edge0], 1
    at and above [edge1], one half at the midpoint, and it never
    decreases when the point moves right. *)
Theorem smoothstep_rises_from_0_to_1 :
  forall e0 e1 : R, e0 < e1 ->
    exists f : R -> R,
      (forall x, smoothstep (Fin e0) (Fin e1) (Fin x) = Fin (f x))
      /\ (forall x, 0 <= f x <= 1)
      /\ (forall x, x <= e0 -> f x = 0)
      /\ (forall x, e1 <= x -> f x = 1)
      /\ f ((e0 + e1) / 2) = 1 / 2
      /\ (forall x y, x <= y -> f x <= f y).
Proof.
  intros e0 e1 He.
  exists (fun x => Spec.cubic (Rmax 0 (Rmin 1 ((x - e0) / (e1 - e0))))).
  assert (Hinv : 0 < / (e1 - e0)) by (apply Rinv_0_lt_compat; lra).
  split; [|split; [|split; [|split; [|split]]]].
  - intros x. apply smoothstep_Fin. lra.
  - intros x. apply cubic_bounds, unit_clamp_range.
  - intros x Hx. assert (Hq : (x - e0) / (e1 - e0) <= 0).
    { unfold Rdiv. assert (0 <= (e0 - x) * / (e1 - e0))
        by (apply Rmult_le_pos; lra). nra. }
    generalize dependent ((x - e0) / (e1 - e0)). intros q Hq.
    unfold Rmax, Rmin, Spec.cubic. case_R; try lra.
    assert (q = 0) by lra. subst q. lra.
  - intros x Hx. assert (Hq : 1 <= (x - e0) / (e1 - e0)).
    { unfold Rdiv. assert (0 <= (x - e1) * / (e1 - e0))
        by (apply Rmult_le_pos; lra).
      assert ((e1 - e0) * / (e1 - e0) = 1) by (apply Rinv_r; lra). nra. }
    generalize dependent ((x - e0) / (e1 - e0)). intros q Hq.
    unfold Rmax, Rmin, Spec.cubic. case_R; lra.
  - replace (((e0 + e1) / 2 - e0) / (e1 - e0)) with (1 / 2) by (field; lra).
    unfold Rmax, Rmin, Spec.cubic. case_R; lra.
  - intros x y Hxy.
    assert (Hq : (x - e0) / (e1 - e0) <= (y - e0) / (e1 - e0)).
    { unfold Rdiv. apply Rmult_le_compat_r; lra. }
    pose proof (unit_clamp_range ((x - e0) / (e1 - e0))).
    pose proof (unit_clamp_range ((y - e0) / (e1 - e0))).
    apply cubic_monotone; try lra. apply unit_clamp_monotone; exact Hq.
Qed.

Lemma smoothstep_rises_from_0_to_1_witness :
  exists f : R -> R,
    (forall x, smoothstep (Fin 0.7) (Fin 1) (Fin x) = Fin (f x))
    /\ (forall x, 0 <= f x <= 1)
    /\ (forall x, x <= 0.7 -> f x = 0)
    /\ (forall x, 1 <= x -> f x = 1)
    /\ f ((0.7 + 1) / 2) = 1 / 2
    /\ (forall x y, x <= y -> f x <= f y).
Proof.
  apply (smoothstep_rises_from_0_to_1 0.7 1). lra.
Defined.

(** X2. With two equal finite edges [smoothstep] has no ramp: it is 0
    below the edge, 1 above it, and [NaN] at the edge itself, where the
    division is [0 / 0]. *)
Theorem smoothstep_equal_edges_is_a_step :
  forall e x : R,
    (x < e -> smoothstep (Fin e) (Fin e) (Fin x) = Fin 0)
    /\ (e < x -> smoothstep (Fin e) (Fin e) (Fin x) = Fin 1)
    /\ smoothstep (Fin e) (Fin e) (Fin e) = NaN.
Proof.
  intros e x.
  assert (Hz : (Fin e - Fin e)%js = Fin 0)
    by (rewrite sub_Fin; apply Fin_eq; lra).
  split; [|split].
  - intros H. unfold smoothstep. rewrite Hz, sub_Fin. unfold JS.div.
    rewrite (Reqb_true 0 0 eq_refl). unfold JS.inf_of_sign.
    rewrite Reqb_false, Rltb_false by lra.
    replace (JS.Math_min 1 NInf) with NInf by reflexivity.
    replace (JS.Math_max 0 NInf) with (Fin 0) by reflexivity.
    autorewrite with jsnum. apply Fin_eq. lra.
  - intros H. unfold smoothstep. rewrite Hz, sub_Fin. unfold JS.div.
    rewrite (Reqb_true 0 0 eq_refl). unfold JS.inf_of_sign.
    rewrite Reqb_false, Rltb_true by lra.
    replace (JS.Math_min 1 PInf) with (Fin 1) by reflexivity.
    autorewrite with jsnum. apply Fin_eq. unfold Rmax. case_R; lra.
  - unfold smoothstep. rewrite Hz. unfold JS.div.
    rewrite (Reqb_true 0 0 eq_refl). unfold JS.inf_of_sign.
    rewrite (Reqb_true 0 0 eq_refl). reflexivity.
Qed.

Lemma smoothstep_equal_edges_is_a_step_witness :
  smoothstep (Fin 0.5) (Fin 0.5) (Fin 0.25) = Fin 0.
Proof.
  apply (proj1 (smoothstep_equal_edges_is_a_step 0.5 0.25)). lra.
Defined.

Lemma noise2D_Fin x y seed :
  noise2D (Fin x) (Fin y) (Fin seed)
  = Fin (sin (x * 12.9898 + y * 78.233 + seed) * 43758.5453
         - IZR (Zfloor (sin (x * 12.9898 + y * 78.233 + seed) * 43758.5453))).
Proof. unfold noise2D. autorewrite with jsnum. reflexivity. Qed.

(** X3. At a point whose scaled coordinates are integers, the smooth
    noise is the hash of that lattice corner: the interpolation weights
    of the three other corners vanish. *)
Theorem smoothNoise_at_lattice_corner :
  forall (x y scale seed : R) (i j : Z),
    x * scale = IZR i -> y * scale = IZR j ->
    smoothNoise (Fin x) (Fin y) (Fin scale) (Fin seed)
    = noise2D (Fin (IZR i)) (Fin (IZR j)) (Fin seed).
Proof.
  intros x y scale seed i j Hx Hy.
  unfold smoothNoise. cbv zeta. autorewrite with jsnum.
  rewrite Hx, Hy, !ZfloorZ.
  destruct (noise2D_range (IZR i) (IZR j) seed) as (n00 & E00 & _).
  destruct (noise2D_range (IZR i + 1) (IZR j) seed) as (n10 & E10 & _).
  destruct (noise2D_range (IZR i) (IZR j + 1) seed) as (n01 & E01 & _).
  destruct (noise2D_range (IZR i + 1) (IZR j + 1) seed) as (n11 & E11 & _).
  rewrite E00, E10, E01, E11. autorewrite with jsnum. apply Fin_eq. ring.
Qed.

Lemma smoothNoise_at_lattice_corner_witness :
  smoothNoise (Fin 1000) (Fin 2000) (Fin 0.003) (Fin 5)
  = noise2D (Fin 3) (Fin 6) (Fin 5).
Proof.
  apply (smoothNoise_at_lattice_corner 1000 2000 0.003 5 3 6); lra.
Defined.


(* ================================================================== *)
(** ** Further properties: the blade *)
(* ================================================================== *)

(** X5. A blade is drawn as one segment from its root to a tip that
    lies at distance [|length|] from the root whatever the angle; at
    angle 0 the tip is straight above the root. *)
Theorem blade_tip_at_blade_length :
  forall (b : GrassBlade.t) (rx ry len a : R),
    GrassBlade.rootX b = Fin rx -> GrassBlade.rootY b = Fin ry ->
    GrassBlade.length b = Fin len -> GrassBlade.angle b = Fin a ->
    let tx := rx + sin a * len in
    let ty := ry - cos a * len in
    In (MoveTo (Fin rx) (Fin ry)) (GrassBlade.draw b)
    /\ (forall x y, In (LineTo x y) (GrassBlade.draw b) <->
                    x = Fin tx /\ y = Fin ty)
    /\ Spec.distance tx ty rx ry = Rabs len
    /\ (a = 0 -> tx = rx /\ ty = ry - len).
Proof.
  intros b rx ry len a Hx Hy Hl Ha tx ty.
  unfold GrassBlade.draw. rewrite Hx, Hy, Hl, Ha. autorewrite with jsnum.
  fold tx ty.
  split; [|split; [|split]].
  - simpl. tauto.
  - intros x y. simpl. split.
    + intros H.
      repeat (destruct H as [H | H]; try discriminate H); try contradiction.
      inversion H. auto.
    + intros [-> ->]. tauto.
  - unfold Spec.distance, tx, ty.
    replace ((rx + sin a * len - rx) * (rx + sin a * len - rx)
             + (ry - cos a * len - ry) * (ry - cos a * len - ry))
      with ((cos a * cos a + sin a * sin a) * Rsqr len)
      by (unfold Rsqr; ring).
    rewrite cos_sin_unit, Rmult_1_l. apply sqrt_Rsqr_abs.
  - intros ->. unfold tx, ty. rewrite sin_0, cos_0. split; ring.
Qed.

Lemma blade_tip_at_blade_length_witness :
  Spec.distance (20 + sin 0.5 * 12) (40 - cos 0.5 * 12) 20 40 = Rabs 12.
Proof.
  apply (blade_tip_at_blade_length
           (GrassBlade.mk 20 40 12 DEFAULTS 0.5 0) 20 40 12 0.5
           eq_refl eq_refl eq_refl eq_refl).
Defined.

Lemma atan2_Fin y x : JS.Math_atan2 (Fin y) (Fin x) = Fin (JS.Ratan2 y x).
Proof. reflexivity. Qed.

(** The velocity after one update under a finite wind: the damped sum of
    the velocity and a torque of at most [magnitude * stiffness]. *)
Lemma update_velocity_step b a v k d mb wx wy :
  GrassBlade.angle b = Fin a -> GrassBlade.velocity b = Fin v ->
  stiffness (GrassBlade.config b) = Fin k -> 0 <= k ->
  damping (GrassBlade.config b) = Fin d -> 0 <= d ->
  maxBend (GrassBlade.config b) = Fin mb ->
  exists a' v',
    GrassBlade.angle (GrassBlade.update b (Fin wx) (Fin wy)) = Fin a' /\
    GrassBlade.velocity (GrassBlade.update b (Fin wx) (Fin wy)) = Fin v' /\
    Rabs v' <= d * (Rabs v + sqrt (wx * wx + wy * wy) * k).
Proof.
  intros Ha Hv Hk Hk0 Hd Hd0 Hmb.
  pose proof (sqrt_pos (wx * wx + wy * wy)) as Hm.
  unfold GrassBlade.update, GrassBlade.apply_wind.
  rewrite sqrt_sum_squares_Fin.
  destruct (Fin (sqrt (wx * wx + wy * wy)) >? 0.001)%js.
  - unfold GrassBlade.clamp_to_max_bend, GrassBlade.update_angle,
      GrassBlade.apply_damping.
    cbn [GrassBlade.angle GrassBlade.velocity GrassBlade.config
         GrassBlade.set_velocity GrassBlade.set_angle].
    rewrite Ha, Hv, Hk, Hd, Hmb. rewrite !neg_Fin, !atan2_Fin.
    autorewrite with jsnum.
    eexists. eexists. split; [reflexivity|]. split; [reflexivity|].
    set (s := sin (JS.Ratan2 wx (- wy) - a)).
    set (m := sqrt (wx * wx + wy * wy)) in *.
    assert (Hs : Rabs s <= 1)
      by (apply Rabs_le; pose proof (SIN_bound (JS.Ratan2 wx (- wy) - a));
          unfold s; lra).
    rewrite Rabs_mult, (Rabs_pos_eq d Hd0), Rmult_comm.
    apply Rmult_le_compat_l; [exact Hd0|].
    eapply Rle_trans; [apply Rabs_triang|].
    apply Rplus_le_compat_l.
    rewrite !Rabs_mult, (Rabs_pos_eq m Hm), (Rabs_pos_eq k Hk0).
    assert (0 <= m * k) by (apply Rmult_le_pos; lra).
    pose proof (Rabs_pos s). nra.
  - unfold GrassBlade.clamp_to_max_bend, GrassBlade.update_angle,
      GrassBlade.apply_damping.
    cbn [GrassBlade.angle GrassBlade.velocity GrassBlade.config
         GrassBlade.set_velocity GrassBlade.set_angle].
    rewrite Ha, Hv, Hd, Hmb. autorewrite with jsnum.
    eexists. eexists. split; [reflexivity|]. split; [reflexivity|].
    rewrite Rabs_mult, (Rabs_pos_eq d Hd0), Rmult_comm.
    apply Rmult_le_compat_l; [exact Hd0|].
    assert (0 <= sqrt (wx * wx + wy * wy) * k)
      by (apply Rmult_le_pos; lra).
    lra.
Qed.



Lemma update_at_equilibrium b a k d mb wx wy :
  GrassBlade.angle b = Fin a -> GrassBlade.velocity b = Fin 0 ->
  stiffness (GrassBlade.config b) = Fin k ->
  damping (GrassBlade.config b) = Fin d ->
  maxBend (GrassBlade.config b) = Fin mb -> - mb <= a <= mb ->
  sin (JS.Ratan2 wx (- wy) - a) = 0 ->
  GrassBlade.angle (GrassBlade.update b (Fin wx) (Fin wy)) = Fin a /\
  GrassBlade.velocity (GrassBlade.update b (Fin wx) (Fin wy)) = Fin 0.
Proof.
  intros Ha Hv Hk Hd Hmb Hrange Hs.
  unfold GrassBlade.update, GrassBlade.apply_wind.
  rewrite sqrt_sum_squares_Fin.
  destruct (Fin (sqrt (wx * wx + wy * wy)) >? 0.001)%js;
    unfold GrassBlade.clamp_to_max_bend, GrassBlade.update_angle,
      GrassBlade.apply_damping;
    cbn [GrassBlade.angle GrassBlade.velocity GrassBlade.config
         GrassBlade.set_velocity GrassBlade.set_angle];
    rewrite Ha, Hv, ?Hk, Hd, Hmb; rewrite ?neg_Fin, ?atan2_Fin;
    autorewrite with jsnum; rewrite ?Hs; split; apply Fin_eq; try ring.
  - replace (a + (0 + 0 * sqrt (wx * wx + wy * wy) * k) * d) with a by ring.
    apply (clamp_id mb a Hrange).
  - replace (a + 0 * d) with a by ring. apply (clamp_id mb a Hrange).
Qed.



(** X8. The dead zone: a finite wind whose magnitude does not exceed
    0.001 (0.001 itself included) has no effect at all, the blade is
    updated exactly as under zero wind. *)
Theorem weak_wind_is_no_wind :
  forall (b : GrassBlade.t) (wx wy : R),
    sqrt (wx * wx + wy * wy) <= 0.001 ->
    GrassBlade.update b (Fin wx) (Fin wy) = GrassBlade.update b 0 0.
Proof.
  intros b wx wy H. unfold GrassBlade.update.
  rewrite apply_wind_zero. unfold GrassBlade.apply_wind.
  rewrite sqrt_sum_squares_Fin. unfold JS.gt, JS.lt.
  rewrite Rltb_false by lra. reflexivity.
Qed.

Lemma weak_wind_is_no_wind_witness :
  GrassBlade.update (GrassBlade.mk 20 20 10 DEFAULTS 1 0.5)
                    (Fin 0.001) (Fin 0)
  = GrassBlade.update (GrassBlade.mk 20 20 10 DEFAULTS 1 0.5) 0 0.
Proof.
  apply (weak_wind_is_no_wind (GrassBlade.mk 20 20 10 DEFAULTS 1 0.5)
           0.001 0).
  replace (0.001 * 0.001 + 0 * 0) with (0.001 * 0.001) by lra.
  rewrite sqrt_square; lra.
Defined.

(* ================================================================== *)
(** ** Further properties: the pointer *)
(* ================================================================== *)

(** What a frame update does to the instance: the time and the pointer
    velocities are rewritten first, then only the gusts and the blades
    are replaced. *)
Lemma update_shape this deltaTime w :
  exists gs bs,
    fst (GrassWindBackground.update this deltaTime w)
    = GrassWindBackground.set_blades
        (GrassWindBackground.set_gusts
           (GrassWindBackground.update_mouse
              (GrassWindBackground.set_time this
                 (GrassWindBackground.time this
                  + fieldSpeed (GrassWindBackground.config this)
                    * deltaTime)%js))
           gs)
        bs.
Proof.
  unfold GrassWindBackground.update, bind, ret.
  set (this1 := GrassWindBackground.update_mouse _).
  destruct (spawn_gust_shape this1 w) as (gs & Hshape & _).
  destruct (GrassWindBackground.spawn_gust this1 w) as [this2 w2].
  simpl in Hshape. subst this2.
  destruct (filterM Gust.isAlive _ w2) as [alive w3].
  destruct (mapM _ _ w3) as [bs w4].
  exists alive, bs. reflexivity.
Qed.

(** The pointer fields a frame update leaves alone. *)
Lemma update_keeps_pointer this deltaTime w :
  let this' := fst (GrassWindBackground.update this deltaTime w) in
  GrassWindBackground.config this' = GrassWindBackground.config this /\
  GrassWindBackground.mouseX this' = GrassWindBackground.mouseX this /\
  GrassWindBackground.mouseY this' = GrassWindBackground.mouseY this /\
  GrassWindBackground.lastMouseX this' = GrassWindBackground.lastMouseX this /\
  GrassWindBackground.lastMouseY this' = GrassWindBackground.lastMouseY this /\
  GrassWindBackground.isMouseOver this' = GrassWindBackground.isMouseOver this.
Proof.
  destruct (update_shape this deltaTime w) as (gs & bs & E).
  cbv zeta. rewrite E. unfold GrassWindBackground.update_mouse.
  cbn [GrassWindBackground.isMouseOver GrassWindBackground.set_time].
  destruct (GrassWindBackground.isMouseOver this) eqn:Eo; simpl;
    rewrite ?Eo; auto 10.
Qed.

(** The smoothed velocity after a frame update. *)
Lemma update_smooth_velocity this deltaTime w :
  let this' := fst (GrassWindBackground.update this deltaTime w) in
  let alpha := mouseSmoothing (GrassWindBackground.config this) in
  GrassWindBackground.smoothMouseVelX this'
  = (if GrassWindBackground.isMouseOver this
     then (GrassWindBackground.smoothMouseVelX this
           + (GrassWindBackground.mouseX this
              - GrassWindBackground.lastMouseX this
              - GrassWindBackground.smoothMouseVelX this) * alpha)%js
     else GrassWindBackground.smoothMouseVelX this)
  /\ GrassWindBackground.smoothMouseVelY this'
     = (if GrassWindBackground.isMouseOver this
        then (GrassWindBackground.smoothMouseVelY this
              + (GrassWindBackground.mouseY this
                 - GrassWindBackground.lastMouseY this
                 - GrassWindBackground.smoothMouseVelY this) * alpha)%js
        else GrassWindBackground.smoothMouseVelY this).
Proof.
  destruct (update_shape this deltaTime w) as (gs & bs & E).
  cbv zeta. rewrite E. unfold GrassWindBackground.update_mouse.
  cbn [GrassWindBackground.isMouseOver GrassWindBackground.set_time].
  destruct (GrassWindBackground.isMouseOver this) eqn:Eo; simpl;
    rewrite ?Eo; split; reflexivity.
Qed.

Lemma run_updates_cons this dt dts w :
  run_updates this (dt :: dts) w
  = run_updates (fst (GrassWindBackground.update this dt w)) dts
      (snd (GrassWindBackground.update this dt w)).
Proof.
  unfold run_updates. simpl. unfold bind.
  destruct (GrassWindBackground.update this dt w). reflexivity.
Qed.

(** X9. Once the pointer has left the container, it has no influence
    until it enters again: [mouseleave] zeroes the smoothed velocity and,
    through any number of frame updates, the smoothed velocity stays 0,
    the pointer stays marked outside, and the composed wind is the
    ambient vector plus the gust forces, with no pointer term, wherever
    the pointer was last seen. *)
Theorem pointer_outside_has_no_influence :
  forall (this : GrassWindBackground.t) (deltaTimes : list num) (w : World),
    let after :=
      fst (run_updates (Events.mouseLeaveHandler this) deltaTimes w) in
    GrassWindBackground.isMouseOver after = false
    /\ GrassWindBackground.smoothMouseVelX after = Fin 0
    /\ GrassWindBackground.smoothMouseVelY after = Fin 0
    /\ (forall x y w',
          fst (GrassWindBackground.getWindForce after x y w')
          = fold_left Spec.vadd
              (fst (mapM (fun g => Gust.getForce g x y)
                         (GrassWindBackground.gusts after) w'))
              (Spec.ambient (GrassWindBackground.config after)
                            (GrassWindBackground.time after) x y)).
Proof.
  intros this deltaTimes w.
  assert (H : forall dts s w0,
    GrassWindBackground.isMouseOver s = false ->
    GrassWindBackground.smoothMouseVelX s = Fin 0 ->
    GrassWindBackground.smoothMouseVelY s = Fin 0 ->
    let after := fst (run_updates s dts w0) in
    GrassWindBackground.isMouseOver after = false /\
    GrassWindBackground.smoothMouseVelX after = Fin 0 /\
    GrassWindBackground.smoothMouseVelY after = Fin 0).
  { induction dts as [|dt dts IH]; intros s w0 Ho Hx Hy; cbv zeta.
    - simpl. auto.
    - rewrite run_updates_cons. apply IH.
      + destruct (update_keeps_pointer s dt w0) as (_ & _ & _ & _ & _ & E).
        rewrite E. exact Ho.
      + destruct (update_smooth_velocity s dt w0) as [E _].
        rewrite E, Ho. exact Hx.
      + destruct (update_smooth_velocity s dt w0) as [_ E].
        rewrite E, Ho. exact Hy. }
  destruct (H deltaTimes (Events.mouseLeaveHandler this) w
              eq_refl eq_refl eq_refl) as (Ho & Hx & Hy).
  cbv zeta. repeat split; try assumption.
  intros x y w'. rewrite getWindForce_composed. simpl fst.
  unfold Spec.composed. rewrite Ho. reflexivity.
Qed.

(** The closed form of the low-pass filter iterated [n] times. *)
Lemma low_pass_step s v alpha n :
  v + (1 - alpha) ^ n * (s - v)
  + (v - (v + (1 - alpha) ^ n * (s - v))) * alpha
  = v + (1 - alpha) ^ S n * (s - v).
Proof. simpl. ring. Qed.

(** X10. While the pointer stays inside the container and no move event
    arrives, every frame update feeds the same raw velocity, the
    difference of the last two pointer positions, into the low-pass
    filter: after [n] frames the smoothed velocity is
    [vel + (1 - mouseSmoothing)^n * (smoothed0 - vel)].  It tends to that
    last difference, not to zero, while the pointer rests. *)
Theorem resting_pointer_keeps_last_velocity :
  forall (deltaTimes : list num) (this : GrassWindBackground.t) (w : World)
         (mx lx s0 alpha : R),
    GrassWindBackground.isMouseOver this = true ->
    GrassWindBackground.mouseX this = Fin mx ->
    GrassWindBackground.lastMouseX this = Fin lx ->
    GrassWindBackground.smoothMouseVelX this = Fin s0 ->
    mouseSmoothing (GrassWindBackground.config this) = Fin alpha ->
    let after := fst (run_updates this deltaTimes w) in
    let n := List.length deltaTimes in
    GrassWindBackground.smoothMouseVelX after
    = Fin (mx - lx + (1 - alpha) ^ n * (s0 - (mx - lx))).
Proof.
  induction deltaTimes as [|dt dts IH];
    intros this w mx lx s0 alpha Ho Hm Hl Hs Ha; cbv zeta.
  - simpl. rewrite Hs. apply Fin_eq. ring.
  - rewrite run_updates_cons.
    destruct (update_keeps_pointer this dt w) as (Ec & Emx & _ & Elx & _ & Eo).
    destruct (update_smooth_velocity this dt w) as [Es _].
    rewrite Ho, Hm, Hl, Hs, Ha in Es. autorewrite with jsnum in Es.
    rewrite (IH _ _ mx lx (s0 + (mx - lx - s0) * alpha) alpha);
      try congruence.
    apply Fin_eq. simpl List.length. simpl pow. ring.
Qed.

Lemma resting_pointer_keeps_last_velocity_witness :
  GrassWindBackground.smoothMouseVelX
    (fst (run_updates pointer_on_query [Fin 16; Fin 16] still_world))
  = Fin (10 - 9 + (1 - 0.15) ^ 2 * (1 - (10 - 9))).
Proof.
  apply (resting_pointer_keeps_last_velocity [Fin 16; Fin 16]
           pointer_on_query still_world 10 9 1 0.15);
    reflexivity.
Defined.

(** X11. The raw pointer velocity a frame update computes is the
    difference of the client positions of the last two [mousemove]
    events: the offset of the container cancels when it did not move
    between the two events, and a second event at the same position
    gives velocity 0. *)
Theorem raw_velocity_is_last_move_delta :
  forall (this : GrassWindBackground.t)
         (x1 y1 x2 y2 left top : R) (deltaTime : num) (w : World),
    let moved :=
      Events.mouseMoveHandler
        (Events.mouseMoveHandler (Events.mouseEnterHandler this)
           (Fin x1) (Fin y1) (Fin left) (Fin top))
        (Fin x2) (Fin y2) (Fin left) (Fin top) in
    let after := fst (GrassWindBackground.update moved deltaTime w) in
    GrassWindBackground.mouseVelX after = Fin (x2 - x1)
    /\ GrassWindBackground.mouseVelY after = Fin (y2 - y1)
    /\ GrassWindBackground.mouseX after = Fin (x2 - left)
    /\ GrassWindBackground.mouseY after = Fin (y2 - top).
Proof.
  intros this x1 y1 x2 y2 left top deltaTime w moved after.
  destruct (update_shape moved deltaTime w) as (gs & bs & E).
  unfold after. rewrite E. unfold moved. simpl.
  repeat split; apply Fin_eq; ring.
Qed.

(* ================================================================== *)
(** ** Further properties: the life of a gust *)
(* ================================================================== *)

Lemma world_le_refl w : world_le w w.
Proof. repeat split; auto. Qed.

Lemma world_le_trans w1 w2 w3 :
  world_le w1 w2 -> world_le w2 w3 -> world_le w1 w3.
Proof.
  intros (A1 & B1 & C1 & D1) (A2 & B2 & C2 & D2).
  repeat split; try congruence; lia.
Qed.

Lemma advances_ret {A} (a : A) : advances (ret a).
Proof. intros w. apply world_le_refl. Qed.

Lemma advances_bind {A B} (c : M A) (k : A -> M B) :
  advances c -> (forall a, advances (k a)) -> advances (bind c k).
Proof.
  intros Hc Hk w. unfold bind. specialize (Hc w).
  destruct (c w) as [a w1]. simpl in Hc.
  eapply world_le_trans; [exact Hc | apply Hk].
Qed.

Lemma advances_random : advances Math_random.
Proof. intros w. unfold Math_random, world_le. simpl. auto. Qed.

Lemma advances_now : advances Date_now.
Proof. intros w. unfold Date_now, world_le. simpl. auto. Qed.

Lemma advances_if {A} (b : bool) (c1 c2 : M A) :
  advances c1 -> advances c2 -> advances (if b then c1 else c2).
Proof. destruct b; auto. Qed.

Ltac advances :=
  repeat first
    [ apply advances_ret | apply advances_random | apply advances_now
    | apply advances_bind; [|intros ?] | apply advances_if ].

Lemma advances_constructor x y cfg : advances (Gust.constructor x y cfg).
Proof. unfold Gust.constructor. advances. Qed.

Lemma advances_isAlive g : advances (Gust.isAlive g).
Proof. unfold Gust.isAlive. advances. Qed.

Lemma advances_getForce g x y : advances (Gust.getForce g x y).
Proof. unfold Gust.getForce. advances. Qed.

Lemma advances_edge_position this :
  advances (GrassWindBackground.edge_position this).
Proof. unfold GrassWindBackground.edge_position. advances. Qed.

Lemma advances_spawn_gust this :
  advances (GrassWindBackground.spawn_gust this).
Proof.
  unfold GrassWindBackground.spawn_gust. advances.
Qed.

Lemma clock_reads_le now w w' :
  world_le w w' -> clock_reads now w -> clock_reads now w'.
Proof.
  intros (_ & E & _ & Hc) H n Hn. rewrite E. apply H. lia.
Qed.

Lemma random_in_unit_le w w' :
  world_le w w' -> random_in_unit w -> random_in_unit w'.
Proof. intros (E & _) H n. rewrite E. apply H. Qed.

Lemma clock_reads_now now w : clock_reads now w -> fst (Date_now w) = now.
Proof. intros H. unfold Date_now. simpl. apply H. lia. Qed.

(** Reaping under a clock that does not tick is a plain filter. *)
Lemma filterM_isAlive_at now gs :
  forall w, clock_reads now w ->
    fst (filterM Gust.isAlive gs w) = filter (alive_at now) gs.
Proof.
  induction gs as [|g gs IH]; intros w Hw; simpl; [reflexivity|].
  unfold bind, ret.
  pose proof (advances_isAlive g w) as Hle.
  assert (Ea : fst (Gust.isAlive g w) = alive_at now g).
  { unfold Gust.isAlive, bind, ret, alive_at.
    pose proof (clock_reads_now now w Hw) as E.
    destruct (Date_now w) as [t w1]. simpl in *. rewrite E. reflexivity. }
  destruct (Gust.isAlive g w) as [keep w1]. simpl in *.
  specialize (IH w1 (clock_reads_le now w w1 Hle Hw)).
  destruct (filterM Gust.isAlive gs w1) as [rest w2]. simpl in *.
  subst keep rest. destruct (alive_at now g); reflexivity.
Qed.

(** The two outcomes of the spawn trial of a frame. *)
Lemma spawn_gust_cases this w :
  let r := random_stream w (random_calls w) in
  let cfg := GrassWindBackground.config this in
  ((r <? gustFrequency cfg)%js = false /\
   fst (GrassWindBackground.spawn_gust this w) = this)
  \/ ((r <? gustFrequency cfg)%js = true /\
      exists px py w',
        world_le w w' /\
        GrassWindBackground.spawn_gust this w
        = (GrassWindBackground.set_gusts this
             (GrassWindBackground.gusts this
              ++ [fst (Gust.constructor px py cfg w')]),
           snd (Gust.constructor px py cfg w'))).
Proof.
  cbv zeta. unfold GrassWindBackground.spawn_gust, bind, ret.
  pose proof (advances_random w) as H1.
  assert (Er : fst (Math_random w) = random_stream w (random_calls w))
    by reflexivity.
  destruct (Math_random w) as [r w1]. simpl in H1, Er. subst r.
  destruct (random_stream w (random_calls w)
            <? gustFrequency (GrassWindBackground.config this))%js.
  - right. split; [reflexivity|].
    pose proof (advances_random w1) as H2.
    destruct (Math_random w1) as [r2 w2]. simpl in H2.
    match goal with
    | |- context [let (_, _) := ?c w2 in _] =>
        assert (H3 : world_le w2 (snd (c w2)))
          by (apply advances_if;
              [apply advances_edge_position | advances]);
        destruct (c w2) as [pos w3]
    end.
    simpl in H3.
    exists (fst pos), (snd pos), w3. split.
    + eauto using world_le_trans.
    + destruct (Gust.constructor (fst pos) (snd pos)
                  (GrassWindBackground.config this) w3). reflexivity.
  - left. auto.
Qed.

(** X12. The gust bookkeeping of one frame, under a clock that does not
    tick during the frame: when the first random draw is below
    [gustFrequency] exactly one gust is appended, born now with the
    configured duration, otherwise none; then exactly the gusts whose
    age [now - birthTime] is below their duration are kept, in their
    order. *)
Theorem gusts_after_frame :
  forall (this : GrassWindBackground.t) (deltaTime now : num) (w : World),
    clock_reads now w ->
    let cfg := GrassWindBackground.config this in
    let r := random_stream w (random_calls w) in
    exists spawned,
      GrassWindBackground.gusts
        (fst (GrassWindBackground.update this deltaTime w))
      = filter (alive_at now) (GrassWindBackground.gusts this ++ spawned)
      /\ ((r <? gustFrequency cfg)%js = false -> spawned = [])
      /\ ((r <? gustFrequency cfg)%js = true ->
          exists g, spawned = [g] /\ Gust.birthTime g = now /\
                    Gust.duration g = gustDuration cfg /\
                    Gust.config g = cfg).
Proof.
  intros this deltaTime now w Hclk cfg r.
  unfold GrassWindBackground.update, bind, ret.
  set (this1 := GrassWindBackground.update_mouse _).
  assert (Hc1 : GrassWindBackground.config this1 = cfg)
    by (unfold this1, GrassWindBackground.update_mouse;
        destruct (GrassWindBackground.isMouseOver _); reflexivity).
  assert (Hg1 : GrassWindBackground.gusts this1
                = GrassWindBackground.gusts this)
    by (unfold this1, GrassWindBackground.update_mouse;
        destruct (GrassWindBackground.isMouseOver _); reflexivity).
  pose proof (advances_spawn_gust this1 w) as Hle.
  destruct (spawn_gust_cases this1 w) as [[Hr E] | [Hr (px & py & w' & Hw' & E)]];
    cbv zeta in Hr; rewrite Hc1 in Hr; fold r in Hr.
  - destruct (GrassWindBackground.spawn_gust this1 w) as [this2 w2].
    simpl in E, Hle. subst this2.
    pose proof (filterM_isAlive_at now (GrassWindBackground.gusts this1) w2
                  (clock_reads_le now w w2 Hle Hclk)) as Hf.
    destruct (filterM Gust.isAlive _ w2) as [alive w3]. simpl in Hf.
    destruct (mapM _ _ w3) as [bs w4]. simpl.
    exists []. rewrite app_nil_r, <- Hg1.
    split; [exact Hf|]. split; [reflexivity | congruence].
  - rewrite E in *. simpl in Hle.
    set (g := fst (Gust.constructor px py
                     (GrassWindBackground.config this1) w')) in *.
    cbn [fst snd GrassWindBackground.gusts GrassWindBackground.set_gusts].
    pose proof (filterM_isAlive_at now
                  (GrassWindBackground.gusts this1 ++ [g]) _
                  (clock_reads_le now w _ Hle Hclk)) as Hf.
    destruct (filterM Gust.isAlive _ _) as [alive w3]. simpl in Hf.
    destruct (mapM _ _ w3) as [bs w4]. simpl.
    exists [g]. rewrite <- Hg1.
    split; [exact Hf|]. split; [congruence|].
    intros _. exists g. split; [reflexivity|].
    unfold g, Gust.constructor, bind, ret.
    pose proof (clock_reads_now now w' (clock_reads_le now w w' Hw' Hclk))
      as En.
    destruct (Date_now w') as [t w1']. simpl in En. subst t.
    destruct (Math_random w1') as [r' w2']. simpl.
    rewrite Hc1. auto.
Qed.

Lemma gusts_after_frame_witness :
  exists spawned,
    GrassWindBackground.gusts
      (fst (GrassWindBackground.update degenerate_sim (Fin 16) still_world))
    = filter (alive_at (Fin 0))
             (GrassWindBackground.gusts degenerate_sim ++ spawned)
    /\ ((Fin 0.5 <? Fin 0.2)%js = false -> spawned = [])
    /\ ((Fin 0.5 <? Fin 0.2)%js = true ->
        exists g, spawned = [g] /\ Gust.birthTime g = Fin 0 /\
                  Gust.duration g
                  = gustDuration (GrassWindBackground.config degenerate_sim) /\
                  Gust.config g = GrassWindBackground.config degenerate_sim).
Proof.
  apply (gusts_after_frame degenerate_sim (Fin 16) (Fin 0) still_world).
  intros n Hn. reflexivity.
Defined.

Lemma getForce_at now g x y w :
  clock_reads now w -> fst (Gust.getForce g x y w) = force_at now x y g.
Proof.
  intros H. unfold force_at, Gust.getForce.
  match goal with |- context [if ?c then _ else _] => destruct c end.
  - reflexivity.
  - unfold bind, ret. pose proof (clock_reads_now now w H) as E.
    destruct (Date_now w) as [t w1]. simpl in *. subst t. reflexivity.
Qed.

Lemma mapM_getForce_at now x y gs :
  forall w, clock_reads now w ->
    fst (mapM (fun g => Gust.getForce g x y) gs w)
    = map (force_at now x y) gs.
Proof.
  induction gs as [|g gs IH]; intros w Hw; simpl; [reflexivity|].
  unfold bind, ret.
  pose proof (advances_getForce g x y w) as Hle.
  pose proof (getForce_at now g x y w Hw) as Ef.
  destruct (Gust.getForce g x y w) as [f w1]. simpl in *.
  specialize (IH w1 (clock_reads_le now w w1 Hle Hw)).
  destruct (mapM (fun g0 => Gust.getForce g0 x y) gs w1) as [fs w2].
  simpl in *. congruence.
Qed.

Lemma envelope_outside_life t : t <= 0 \/ 1 <= t -> Spec.envelope t = 0.
Proof. intros H. unfold Spec.envelope. case_R; lra. Qed.

(** Outside its life a regular gust exerts no force. *)
Lemma force_at_outside_life g tn qx qy tb dur :
  regular_gust g ->
  Gust.birthTime g = Fin tb -> Gust.duration g = Fin dur ->
  tn <= tb \/ tb + dur <= tn ->
  force_at (Fin tn) (Fin qx) (Fin qy) g = mkVec 0 0.
Proof.
  intros ((gx & gy & Hx & Hy) & (tb' & dur' & Hb' & Hd' & Hpos)
          & (rad & gs & Hr & Hr0 & Hgs) & (dx & dy & Hdx & Hdy)) Hb Hd Hout.
  assert (tb' = tb) by congruence. assert (dur' = dur) by congruence.
  subst tb' dur'. unfold force_at.
  destruct (Rlt_dec rad (Spec.distance qx qy gx gy)) as [Ho | Hi].
  - rewrite (getForce_outside g gx gy rad qx qy); auto.
  - rewrite (getForce_inside g gx gy rad qx qy) by (auto; lra).
    cbn [clock_stream clock_calls].
    rewrite (force_within_Fin g rad gs dur tb dx dy) by (auto; lra).
    rewrite envelope_outside_life.
    + f_equal; apply Fin_eq; ring.
    + assert (Hinv : 0 < / dur) by (apply Rinv_0_lt_compat; lra).
      unfold Rdiv. destruct Hout as [H | H].
      * left. assert (0 <= (tb - tn) * / dur)
          by (apply Rmult_le_pos; lra). nra.
      * right. assert (0 <= (tn - tb - dur) * / dur)
          by (apply Rmult_le_pos; lra).
        assert (dur * / dur = 1) by (apply Rinv_r; lra). nra.
Qed.

Lemma add_zero a : (a + Fin 0)%js = a.
Proof. destruct a; simpl; try reflexivity. apply Fin_eq. lra. Qed.

Lemma vadd_zero a : Spec.vadd a (mkVec 0 0) = a.
Proof. destruct a. unfold Spec.vadd. simpl vx. simpl vy.
  rewrite !add_zero. reflexivity. Qed.

(** X13. A regular gust (finite data, positive radius and duration)
    exerts no force before its birth and from its expiry on, which is
    when [isAlive()] reports it dead; so removing the dead gusts does
    not change the composed wind anywhere: reaping is invisible to the
    blades. *)
Theorem reaping_dead_gusts_keeps_the_wind :
  forall (this : GrassWindBackground.t) (tn qx qy : R) (w : World),
    clock_reads (Fin tn) w ->
    Forall regular_gust (GrassWindBackground.gusts this) ->
    (forall g, In g (GrassWindBackground.gusts this) ->
               alive_at (Fin tn) g = false ->
               fst (Gust.getForce g (Fin qx) (Fin qy) w) = mkVec 0 0)
    /\ fst (GrassWindBackground.getWindForce
              (GrassWindBackground.set_gusts this
                 (filter (alive_at (Fin tn))
                         (GrassWindBackground.gusts this)))
              (Fin qx) (Fin qy) w)
       = fst (GrassWindBackground.getWindForce this (Fin qx) (Fin qy) w).
Proof.
  intros this tn qx qy w Hclk Hreg.
  assert (Hdead : forall g, regular_gust g -> alive_at (Fin tn) g = false ->
            force_at (Fin tn) (Fin qx) (Fin qy) g = mkVec 0 0).
  { intros g Hg Ha.
    pose proof Hg as (_ & (tb & dur & Hb & Hd & Hpos) & _).
    apply (force_at_outside_life g tn qx qy tb dur Hg Hb Hd).
    right. unfold alive_at in Ha. rewrite Hb, Hd, sub_Fin in Ha.
    unfold JS.lt in Ha. unfold JS.Rltb in Ha.
    destruct (Rlt_dec (tn - tb) dur); [discriminate | lra]. }
  split.
  - intros g Hin Ha. rewrite (getForce_at (Fin tn)) by exact Hclk.
    apply Hdead; [|exact Ha].
    exact (proj1 (Forall_forall _ _) Hreg g Hin).
  - rewrite !getWindForce_composed. simpl fst. unfold Spec.composed.
    cbn [GrassWindBackground.gusts GrassWindBackground.set_gusts
         GrassWindBackground.config GrassWindBackground.time
         GrassWindBackground.mouseX GrassWindBackground.mouseY
         GrassWindBackground.isMouseOver].
    rewrite !(mapM_getForce_at (Fin tn)) by exact Hclk.
    assert (Hfold : forall gs, Forall regular_gust gs -> forall base,
      fold_left Spec.vadd
        (map (force_at (Fin tn) (Fin qx) (Fin qy))
             (filter (alive_at (Fin tn)) gs)) base
      = fold_left Spec.vadd
          (map (force_at (Fin tn) (Fin qx) (Fin qy)) gs) base).
    { induction 1 as [|g gs Hg _ IH]; intros base; simpl; [reflexivity|].
      destruct (alive_at (Fin tn) g) eqn:Ea; simpl.
      - apply IH.
      - rewrite (Hdead g Hg Ea), vadd_zero. apply IH. }
    rewrite (Hfold _ Hreg). reflexivity.
Qed.

Lemma reaping_dead_gusts_keeps_the_wind_witness :
  fst (GrassWindBackground.getWindForce
         (GrassWindBackground.set_gusts gusty_sim
            (filter (alive_at (Fin 5000))
                    (GrassWindBackground.gusts gusty_sim)))
         (Fin 120) (Fin 100)
         (mkWorld (fun _ => Fin 0.5) 0 (fun _ => Fin 5000) 0))
  = fst (GrassWindBackground.getWindForce gusty_sim (Fin 120) (Fin 100)
           (mkWorld (fun _ => Fin 0.5) 0 (fun _ => Fin 5000) 0)).
Proof.
  refine (proj2 (reaping_dead_gusts_keeps_the_wind gusty_sim 5000 120 100
                   (mkWorld (fun _ => Fin 0.5) 0 (fun _ => Fin 5000) 0)
                   _ _)).
  - intros n Hn. reflexivity.
  - repeat constructor; simpl.
    + exists 100, 100. split; reflexivity.
    + exists 1000, 3000. repeat split; try reflexivity. lra.
    + exists 200, 0.8. repeat split; try reflexivity. lra.
    + exists 1, 0. split; reflexivity.
Defined.

Lemma edge_index r :
  0 <= r < 1 ->
  Zfloor (r * 4) = 0%Z \/ Zfloor (r * 4) = 1%Z \/
  Zfloor (r * 4) = 2%Z \/ Zfloor (r * 4) = 3%Z.
Proof.
  intros H. pose proof (Zfloor_bound (r * 4)) as [Hlo Hhi].
  assert (H3 : (Zfloor (r * 4) < 4)%Z) by (apply lt_IZR; lra).
  assert (H0 : (-1 < Zfloor (r * 4))%Z) by (apply lt_IZR; lra).
  lia.
Qed.

Lemma unit_scaled r W : 0 <= r < 1 -> 0 <= W -> 0 <= r * W <= W.
Proof. intros Hr HW. split; [apply Rmult_le_pos; lra | nra]. Qed.

(** A position chosen by [edge_position] under unit random draws. *)
Lemma edge_position_spec this w W H R :
  GrassWindBackground.width this = Fin W -> 0 <= W ->
  GrassWindBackground.height this = Fin H -> 0 <= H ->
  gustRadius (GrassWindBackground.config this) = Fin R ->
  random_in_unit w ->
  exists px py,
    fst (GrassWindBackground.edge_position this w) = (Fin px, Fin py) /\
    spawn_point W H R px py.
Proof.
  intros Hw HW Hh HH Hr Hu.
  destruct (Hu (random_calls w)) as (a & Ea & Ha).
  destruct (Hu (S (random_calls w))) as (b & Eb & Hb).
  pose proof (unit_scaled b W Hb HW). pose proof (unit_scaled b H Hb HH).
  unfold GrassWindBackground.edge_position, bind, ret, Math_random.
  cbn [fst snd random_stream random_calls]. rewrite Ea, Hw, Hh, Hr.
  autorewrite with jsnum. unfold GrassWindBackground.strict_eq.
  unfold spawn_point.
  destruct (edge_index a Ha) as [E | [E | [E | E]]]; rewrite E;
    repeat (rewrite Reqb_false by lra; cbv iota);
    rewrite Reqb_true by lra; cbv iota beta;
    cbn [fst snd random_stream random_calls]; rewrite Eb;
    autorewrite with jsnum;
    eexists; eexists; (split; [reflexivity|]); tauto.
Qed.

Lemma constructor_position px py cfg w :
  Gust.x (fst (Gust.constructor px py cfg w)) = px /\
  Gust.y (fst (Gust.constructor px py cfg w)) = py.
Proof.
  unfold Gust.constructor, bind, ret.
  destruct (Date_now w) as [t w1]. destruct (Math_random w1) as [r w2].
  split; reflexivity.
Qed.

Lemma spawn_gust_position this w W H R :
  GrassWindBackground.width this = Fin W -> 0 <= W ->
  GrassWindBackground.height this = Fin H -> 0 <= H ->
  gustRadius (GrassWindBackground.config this) = Fin R ->
  random_in_unit w ->
  forall g,
    In g (GrassWindBackground.gusts
            (fst (GrassWindBackground.spawn_gust this w))) ->
    In g (GrassWindBackground.gusts this) \/
    exists px py,
      Gust.x g = Fin px /\ Gust.y g = Fin py /\ spawn_point W H R px py.
Proof.
  intros Hw HW Hh HH Hr Hu g.
  unfold GrassWindBackground.spawn_gust, bind, ret.
  pose proof (advances_random w) as H1.
  destruct (Math_random w) as [r w1]. simpl in H1.
  pose proof (random_in_unit_le w w1 H1 Hu) as Hu1.
  destruct (r <? gustFrequency (GrassWindBackground.config this))%js;
    [|simpl; auto].
  pose proof (advances_random w1) as H2.
  destruct (Math_random w1) as [r2 w2]. simpl in H2.
  pose proof (random_in_unit_le w1 w2 H2 Hu1) as Hu2.
  match goal with
  | |- context [let (_, _) := ?c w2 in _] =>
      assert (Hpos : exists px py,
                fst (c w2) = (Fin px, Fin py) /\ spawn_point W H R px py)
  end.
  { destruct (r2 <? 0.7)%js.
    - apply edge_position_spec; assumption.
    - destruct (Hu2 (random_calls w2)) as (a & Ea & Ha).
      destruct (Hu2 (S (random_calls w2))) as (b & Eb & Hb).
      unfold Math_random.
      cbn [fst snd random_stream random_calls].
      rewrite Ea, Eb, Hw, Hh. autorewrite with jsnum.
      eexists. eexists. split; [reflexivity|].
      unfold spawn_point. do 4 right.
      split; apply unit_scaled; assumption. }
  destruct Hpos as (px & py & Epos & Hsp).
  match goal with
  | |- context [let (_, _) := ?c w2 in _] => destruct (c w2) as [pos w3]
  end.
  simpl in Epos. subst pos. cbn [fst snd].
  pose proof (constructor_position (Fin px) (Fin py)
                (GrassWindBackground.config this) w3) as [Ex Ey].
  destruct (Gust.constructor (Fin px) (Fin py)
              (GrassWindBackground.config this) w3) as [gnew w4].
  simpl in Ex, Ey.
  cbn [fst GrassWindBackground.gusts GrassWindBackground.set_gusts].
  intros Hin. apply in_app_or in Hin. destruct Hin as [Hin | [<- | []]].
  - left. exact Hin.
  - right. exists px, py. auto.
Qed.

Lemma filterM_In {A} (p : A -> M bool) l :
  forall w a, In a (fst (filterM p l w)) -> In a l.
Proof.
  induction l as [|b l IH]; intros w a; simpl; [auto|].
  unfold bind, ret. destruct (p b w) as [keep w1].
  specialize (IH w1 a). destruct (filterM p l w1) as [rest w2].
  simpl in *. destruct keep; simpl; intuition.
Qed.

(** X14. Where gusts appear: with random draws in [[0, 1)], every gust
    a frame update adds is placed either exactly half a gust radius
    outside one of the four edges of the container, at a point along
    that edge, or inside the container; the [switch] over the edge index
    never falls through, so the position is always a pair of finite
    numbers. *)
Theorem new_gusts_spawn_around_container :
  forall (this : GrassWindBackground.t) (deltaTime : num) (w : World)
         (W H R : R),
    GrassWindBackground.width this = Fin W -> 0 <= W ->
    GrassWindBackground.height this = Fin H -> 0 <= H ->
    gustRadius (GrassWindBackground.config this) = Fin R ->
    random_in_unit w ->
    Forall
      (fun g =>
         In g (GrassWindBackground.gusts this) \/
         exists px py,
           Gust.x g = Fin px /\ Gust.y g = Fin py /\
           spawn_point W H R px py)
      (GrassWindBackground.gusts
         (fst (GrassWindBackground.update this deltaTime w))).
Proof.
  intros this deltaTime w W H R Hw HW Hh HH Hr Hu.
  apply Forall_forall. intros g.
  unfold GrassWindBackground.update, bind, ret.
  set (this1 := GrassWindBackground.update_mouse _).
  assert (E1 : GrassWindBackground.width this1 = Fin W /\
               GrassWindBackground.height this1 = Fin H /\
               gustRadius (GrassWindBackground.config this1) = Fin R /\
               GrassWindBackground.gusts this1
               = GrassWindBackground.gusts this).
  { unfold this1, GrassWindBackground.update_mouse.
    destruct (GrassWindBackground.isMouseOver _); simpl; auto. }
  destruct E1 as (Hw1 & Hh1 & Hr1 & Hg1).
  pose proof (spawn_gust_position this1 w W H R Hw1 HW Hh1 HH Hr1 Hu g)
    as Hsp.
  destruct (GrassWindBackground.spawn_gust this1 w) as [this2 w2].
  simpl in Hsp.
  pose proof (filterM_In Gust.isAlive (GrassWindBackground.gusts this2) w2 g)
    as Hf.
  destruct (filterM Gust.isAlive _ w2) as [alive w3]. simpl in Hf.
  destruct (mapM _ _ w3) as [bs w4]. simpl.
  intros Hin. rewrite <- Hg1. auto.
Qed.

Lemma new_gusts_spawn_around_container_witness :
  Forall
    (fun g =>
       In g (GrassWindBackground.gusts gusty_sim) \/
       exists px py,
         Gust.x g = Fin px /\ Gust.y g = Fin py /\
         spawn_point 800 600 200 px py)
    (GrassWindBackground.gusts
       (fst (GrassWindBackground.update gusty_sim (Fin 16) still_world))).
Proof.
  apply (new_gusts_spawn_around_container gusty_sim (Fin 16) still_world
           800 600 200); try reflexivity; try lra.
  intros n. exists 0.5. split; [reflexivity | lra].
Defined.

(** *** The blade grid *)

Lemma for_lt_total {S} (bound : num) (n : nat)
    (body : nat -> S -> World -> option (S * World)) :
  trips bound = Some n ->
  (forall j s w, exists r, body j s w = Some r) ->
  forall fuel i s w,
    (n - i < fuel)%nat ->
    exists r, for_lt fuel i bound body s w = Some r.
Proof.
  intros Hn Hbody. induction fuel as [|fuel IH]; intros i s w Hfuel; [lia|].
  cbn [for_lt]. rewrite (loop_test_trips i bound n Hn).
  destruct (Nat.ltb_spec i n) as [Hi | Hi].
  - destruct (Hbody i s w) as ([s' w'] & E). rewrite E.
    apply IH. lia.
  - eexists. reflexivity.
Qed.

Lemma for_lt_invariant {S} (I : S -> World -> Prop) (bound : num)
    (body : nat -> S -> World -> option (S * World)) :
  (forall j s w r, I s w -> body j s w = Some r -> I (fst r) (snd r)) ->
  forall fuel i s w r,
    I s w -> for_lt fuel i bound body s w = Some r -> I (fst r) (snd r).
Proof.
  intros Hbody. induction fuel as [|fuel IH]; intros i s w r HI;
    cbn [for_lt]; [discriminate|].
  destruct (Fin (INR i) <? bound)%js.
  - destruct (body i s w) as [[s' w']|] eqn:E; [|discriminate].
    apply IH. exact (Hbody i s w (s', w') HI E).
  - intros H. inversion H. exact HI.
Qed.

Lemma push_blade_fresh cfg cs row col bs w lo hi mb :
  BladeLength.min (bladeLength cfg) = Fin lo ->
  BladeLength.max (bladeLength cfg) = Fin hi -> lo <= hi ->
  maxBend cfg = Fin mb -> 0 <= mb ->
  Forall (fresh_blade cfg) bs /\ random_in_unit w ->
  Forall (fresh_blade cfg)
         (fst (GrassWindBackground.push_blade cfg cs row col bs w)) /\
  random_in_unit (snd (GrassWindBackground.push_blade cfg cs row col bs w)).
Proof.
  intros Hlo Hhi Hle Hmb Hmb0 [Hbs Hu].
  destruct (Hu (random_calls w)) as (a & Ea & Ha).
  destruct (Hu (S (random_calls w))) as (b & Eb & Hb).
  unfold GrassWindBackground.push_blade, GrassBlade.constructor, bind, ret,
    Math_random.
  cbn [fst snd random_stream random_calls].
  split.
  - apply Forall_app. split; [exact Hbs|]. constructor; [|constructor].
    rewrite Ea, Eb, Hlo, Hhi, Hmb. autorewrite with jsnum.
    unfold fresh_blade, in_bend. cbn [GrassBlade.config GrassBlade.velocity
      GrassBlade.length GrassBlade.angle].
    split; [reflexivity|]. split; [reflexivity|]. split.
    + exists (lo + a * (hi - lo)), lo, hi.
      repeat split; try assumption; nra.
    + exists ((b - 0.5) * mb * 2), mb.
      split; [reflexivity|]. split; [exact Hmb|]. nra.
  - intros n. apply Hu.
Qed.

Lemma fold_roots {A}
    (f : A -> list GrassBlade.t -> World -> list GrassBlade.t * World)
    (g : A -> list (num * num)) :
  (forall a bs w, roots (fst (f a bs w)) = roots bs ++ g a) ->
  forall l bs w,
    roots (fst (fold_left (fun sw a => f a (fst sw) (snd sw)) l (bs, w)))
    = roots bs ++ flat_map g l.
Proof.
  intros Hf. induction l as [|a l IH]; intros bs w; simpl.
  - rewrite app_nil_r. reflexivity.
  - pose proof (Hf a bs w) as H.
    destruct (f a bs w) as [bs1 w1]. simpl in H.
    rewrite IH, H, <- app_assoc. reflexivity.
Qed.

Lemma flat_map_singleton {A B} (c : B) (l : list A) :
  flat_map (fun _ => [c]) l = repeat c (List.length l).
Proof.
  induction l as [|a l IH]; simpl; [reflexivity|]. rewrite IH. reflexivity.
Qed.

Lemma flat_map_of_map {A B C} (f : A -> B) (g : B -> list C) (l : list A) :
  flat_map g (map f l) = flat_map (fun a => g (f a)) l.
Proof.
  induction l as [|a l IH]; simpl; [reflexivity|]. rewrite IH. reflexivity.
Qed.

Lemma flat_map_of_flat_map {A B C} (f : A -> list B) (g : B -> list C)
    (l : list A) :
  flat_map g (flat_map f l) = flat_map (fun a => flat_map g (f a)) l.
Proof.
  induction l as [|a l IH]; simpl; [reflexivity|].
  rewrite flat_map_app, IH. reflexivity.
Qed.

Lemma stacked_centers_length cs nrows ncols k :
  List.length (stacked_centers cs nrows ncols k) = (nrows * ncols * k)%nat.
Proof.
  unfold stacked_centers.
  assert (H : forall l : list (num * num),
    List.length (flat_map (fun c => repeat c k) l) = (List.length l * k)%nat).
  { induction l as [|c l IH]; simpl; [reflexivity|].
    rewrite length_app, repeat_length, IH. reflexivity. }
  rewrite H, grid_centers_length. reflexivity.
Qed.

(** [setupBlades] on a finite grid with a finite number of blades per
    cell: it completes, and the roots are the cell centres, row by row,
    each as many times as there are blades per cell. *)
Lemma setupBlades_cells this w nrows ncols k fuel :
  trips (Spec.grid_rows this) = Some nrows ->
  trips (Spec.grid_columns this) = Some ncols ->
  trips (bladesPerCell (GrassWindBackground.config this)) = Some k ->
  (nrows < fuel)%nat -> (ncols < fuel)%nat -> (k < fuel)%nat ->
  exists bs w',
    GrassWindBackground.setupBlades fuel this w
      = Some (GrassWindBackground.set_blades this bs, w') /\
    roots bs = stacked_centers (Spec.grid_cellSize this) nrows ncols k.
Proof.
  intros Hrows Hcols Hper Hf1 Hf2 Hf3.
  unfold GrassWindBackground.setupBlades.
  fold (Spec.grid_columns this). fold (Spec.grid_cellSize this).
  fold (Spec.grid_rows this).
  set (cs := Spec.grid_cellSize this).
  set (cfg := GrassWindBackground.config this).
  set (cell := fun row col (bs : list GrassBlade.t) (w0 : World) =>
    fold_left
      (fun sw (_ : nat) =>
         GrassWindBackground.push_blade cfg cs row col (fst sw) (snd sw))
      (seq 0 k) (bs, w0)).
  set (line := fun row (bs : list GrassBlade.t) (w0 : World) =>
    fold_left (fun sw col => cell row col (fst sw) (snd sw))
              (seq 0 ncols) (bs, w0)).
  assert (Hinner : forall row col bs w0,
    for_lt fuel 0 (bladesPerCell cfg)
      (fun _ bs1 w1 =>
         Some (GrassWindBackground.push_blade cfg cs row col bs1 w1)) bs w0
    = Some (cell row col bs w0)).
  { intros row col bs w0.
    rewrite (for_lt_complete (bladesPerCell cfg) k _
               (fun _ bs1 w1 =>
                  GrassWindBackground.push_blade cfg cs row col bs1 w1)
               Hper) by (auto; lia).
    rewrite Nat.sub_0_r. reflexivity. }
  assert (Hcol : forall row bs w0,
    for_lt fuel 0 (Spec.grid_columns this)
      (fun col =>
         for_lt fuel 0 (bladesPerCell cfg)
           (fun _ bs1 w1 =>
              Some (GrassWindBackground.push_blade cfg cs row col bs1 w1)))
      bs w0
    = Some (line row bs w0)).
  { intros row bs w0.
    rewrite (for_lt_complete (Spec.grid_columns this) ncols _
               (fun col bs1 w1 => cell row col bs1 w1) Hcols)
      by (auto; lia).
    rewrite Nat.sub_0_r. reflexivity. }
  rewrite (for_lt_complete (Spec.grid_rows this) nrows _
             (fun row bs1 w1 => line row bs1 w1) Hrows) by (auto; lia).
  rewrite Nat.sub_0_r.
  assert (Hcell : forall row col bs w0,
    roots (fst (cell row col bs w0))
    = roots bs ++ repeat (Spec.cell_center cs row col) k).
  { intros row col bs w0. unfold cell.
    rewrite (fold_roots
               (fun (_ : nat) => GrassWindBackground.push_blade cfg cs row col)
               (fun _ => [Spec.cell_center cs row col])).
    - rewrite flat_map_singleton, length_seq. reflexivity.
    - intros _ bs1 w1. apply push_blade_roots. }
  assert (Hline : forall row bs w0,
    roots (fst (line row bs w0))
    = roots bs
      ++ flat_map (fun col => repeat (Spec.cell_center cs row col) k)
                  (seq 0 ncols)).
  { intros row bs w0. unfold line.
    apply (fold_roots (cell row)
             (fun col => repeat (Spec.cell_center cs row col) k)).
    intros col bs1 w1. apply Hcell. }
  pose proof (fold_roots line
                (fun row =>
                   flat_map (fun col => repeat (Spec.cell_center cs row col) k)
                            (seq 0 ncols))
                Hline (seq 0 nrows) [] w) as Hall.
  destruct (fold_left _ (seq 0 nrows) ([], w)) as [bs w'].
  exists bs, w'. split; [reflexivity|].
  simpl in Hall. rewrite Hall.
  unfold stacked_centers, Spec.grid_centers.
  rewrite flat_map_of_flat_map.
  apply flat_map_ext. intros row. rewrite flat_map_of_map. reflexivity.
Qed.

(** X15. More than one blade per cell: on a finite grid with
    [bladesPerCell] blades per cell (rounded up to a whole number of loop
    trips), [setupBlades] completes with that many blades in every cell,
    all of them rooted at the very same point, the centre of the cell;
    there are [rows * columns * bladesPerCell] blades in all, whatever
    blades the instance held before. *)
Theorem blades_of_a_cell_share_its_centre :
  forall (this : GrassWindBackground.t) (w : World)
         (nrows ncols k fuel : nat),
    trips (Spec.grid_rows this) = Some nrows ->
    trips (Spec.grid_columns this) = Some ncols ->
    trips (bladesPerCell (GrassWindBackground.config this)) = Some k ->
    (nrows < fuel)%nat -> (ncols < fuel)%nat -> (k < fuel)%nat ->
    exists bs w',
      GrassWindBackground.setupBlades fuel this w
        = Some (GrassWindBackground.set_blades this bs, w') /\
      roots bs = stacked_centers (Spec.grid_cellSize this) nrows ncols k /\
      List.length bs = (nrows * ncols * k)%nat /\
      (forall old,
         GrassWindBackground.setupBlades fuel
           (GrassWindBackground.set_blades this old) w
         = Some (GrassWindBackground.set_blades this bs, w')).
Proof.
  intros this w nrows ncols k fuel Hr Hc Hk Hf1 Hf2 Hf3.
  destruct (setupBlades_cells this w nrows ncols k fuel Hr Hc Hk Hf1 Hf2 Hf3)
    as (bs & w' & Hs & Hroots).
  exists bs, w'. split; [exact Hs|]. split; [exact Hroots|]. split.
  - rewrite <- (stacked_centers_length (Spec.grid_cellSize this)), <- Hroots.
    unfold roots. rewrite length_map. reflexivity.
  - intros old. unfold GrassWindBackground.setupBlades in *.
    cbn [GrassWindBackground.set_blades GrassWindBackground.width
         GrassWindBackground.height GrassWindBackground.config] in *.
    destruct (for_lt fuel 0 _ _ [] w) as [[bs0 w0]|]; [|discriminate].
    inversion Hs. subst. reflexivity.
Qed.

Lemma trips_two : trips (Fin 2) = Some 2%nat.
Proof.
  simpl. rewrite (Zceil_eq 2 2) by lra. reflexivity.
Qed.

Lemma dense_grid :
  Spec.grid_columns dense_container = Fin (INR 10) /\
  Spec.grid_cellSize dense_container = Fin 60 /\
  trips (Spec.grid_rows dense_container) = Some 10%nat /\
  trips (Spec.grid_columns dense_container) = Some 10%nat.
Proof.
  assert (Hc : Spec.grid_columns dense_container = Fin (INR 10)).
  { unfold Spec.grid_columns, dense_container. simpl.
    rewrite Rleb_true by lra. apply Fin_eq. simpl. lra. }
  destruct (grid_of_positive_width dense_container 600 600 10)
    as (Hcs & _ & Hr & Hn); auto; try lra; try lia.
  replace (600 / INR 10) with 60 in * by (simpl; lra).
  replace (600 / 60) with 10 in * by lra.
  rewrite (Zceil_IZR 10) in Hr. auto.
Qed.

Lemma blades_of_a_cell_share_its_centre_witness :
  exists bs w',
    GrassWindBackground.setupBlades 11 dense_container still_world
      = Some (GrassWindBackground.set_blades dense_container bs, w') /\
    roots bs
      = stacked_centers (Spec.grid_cellSize dense_container) 10 10 2 /\
    List.length bs = (10 * 10 * 2)%nat /\
    (forall old,
       GrassWindBackground.setupBlades 11
         (GrassWindBackground.set_blades dense_container old) still_world
       = Some (GrassWindBackground.set_blades dense_container bs, w')).
Proof.
  apply (blades_of_a_cell_share_its_centre dense_container still_world
           10%nat 10%nat 2%nat 11%nat).
  - apply dense_grid.
  - apply dense_grid.
  - exact trips_two.
  - lia.
  - lia.
  - lia.
Defined.

(** X16. What a new blade looks like: when [Math.random()] returns
    numbers of [[0, 1)], the two ends of [bladeLength] are finite with
    [min <= max] and [maxBend] is finite and not negative, [setupBlades]
    on a finite grid completes and every blade it makes carries the
    instance's configuration, is at rest (velocity 0), has a length
    between [bladeLength.min] and [bladeLength.max] and starts at an angle
    within [[-maxBend, +maxBend]]. *)
Theorem new_blades_are_at_rest_within_limits :
  forall (this : GrassWindBackground.t) (w : World)
         (nrows ncols k fuel : nat) (lo hi mb : R),
    let cfg := GrassWindBackground.config this in
    trips (Spec.grid_rows this) = Some nrows ->
    trips (Spec.grid_columns this) = Some ncols ->
    trips (bladesPerCell cfg) = Some k ->
    (nrows < fuel)%nat -> (ncols < fuel)%nat -> (k < fuel)%nat ->
    BladeLength.min (bladeLength cfg) = Fin lo ->
    BladeLength.max (bladeLength cfg) = Fin hi -> lo <= hi ->
    maxBend cfg = Fin mb -> 0 <= mb ->
    random_in_unit w ->
    exists bs w',
      GrassWindBackground.setupBlades fuel this w
        = Some (GrassWindBackground.set_blades this bs, w') /\
      Forall (fresh_blade cfg) bs.
Proof.
  intros this w nrows ncols k fuel lo hi mb cfg Hr Hc Hk Hf1 Hf2 Hf3
    Hlo Hhi Hle Hmb Hmb0 Hu.
  destruct (setupBlades_cells this w nrows ncols k fuel Hr Hc Hk Hf1 Hf2 Hf3)
    as (bs & w' & Hs & _).
  exists bs, w'. split; [exact Hs|].
  unfold GrassWindBackground.setupBlades in Hs.
  set (I := fun (bs0 : list GrassBlade.t) (w0 : World) =>
              Forall (fresh_blade cfg) bs0 /\ random_in_unit w0).
  match type of Hs with
  | match ?loop with _ => _ end = _ =>
      destruct loop as [[bs0 w0]|] eqn:E; [|discriminate]
  end.
  inversion Hs. subst bs0 w0.
  assert (HI : I (fst (bs, w')) (snd (bs, w'))).
  { refine (for_lt_invariant I _ _ _ _ _ _ _ _ _ E).
    - intros row bs1 w1 r1 HI1 E1.
      refine (for_lt_invariant I _ _ _ _ _ _ _ _ HI1 E1).
      intros col bs2 w2 r2 HI2 E2.
      refine (for_lt_invariant I _ _ _ _ _ _ _ _ HI2 E2).
      intros j bs3 w3 r3 HI3 E3. inversion E3. subst r3.
      apply (push_blade_fresh _ _ _ _ _ _ lo hi mb); assumption.
    - split; [constructor | exact Hu]. }
  exact (proj1 HI).
Qed.

Lemma new_blades_are_at_rest_within_limits_witness :
  exists bs w',
    GrassWindBackground.setupBlades 11 dense_container still_world
      = Some (GrassWindBackground.set_blades dense_container bs, w') /\
    Forall (fresh_blade (GrassWindBackground.config dense_container)) bs.
Proof.
  apply (new_blades_are_at_rest_within_limits dense_container still_world
           10%nat 10%nat 2%nat 11%nat 8 20 (PI * 2)).
  - apply dense_grid.
  - apply dense_grid.
  - exact trips_two.
  - lia.
  - lia.
  - lia.
  - reflexivity.
  - reflexivity.
  - lra.
  - reflexivity.
  - pose proof PI_RGT_0. lra.
  - intros n. exists 0.5. split; [reflexivity | lra].
Defined.

Lemma cell_center_within wd h c row col :
  0 < wd -> 0 <= h -> (0 < c)%nat ->
  (col < c)%nat -> (row < Z.to_nat (Zceil (h / (wd / INR c))))%nat ->
  exists x y,
    Spec.cell_center (Fin (wd / INR c)) row col = (Fin x, Fin y) /\
    0 < x < wd /\ 0 < y < h + wd / INR c / 2.
Proof.
  intros Hwd Hh Hc Hcol Hrow.
  assert (HINR : 0 < INR c) by (apply lt_0_INR; exact Hc).
  assert (Hcs : 0 < wd / INR c) by (apply Rdiv_lt_0_compat; lra).
  unfold Spec.cell_center.
  rewrite (div_Fin (wd / INR c) 2) by lra. autorewrite with jsnum.
  eexists. eexists. split; [reflexivity|].
  set (cs := wd / INR c) in *.
  assert (Hwdcs : wd = INR c * cs) by (unfold cs; field; lra).
  assert (Hcol' : INR col + 1 <= INR c).
  { rewrite <- S_INR. apply le_INR. lia. }
  assert (Hcol0 : 0 <= INR col) by apply pos_INR.
  assert (Hrow0 : 0 <= INR row) by apply pos_INR.
  assert (Hrow' : INR row * cs < h).
  { pose proof (Zceil_bound (h / cs)) as [Hlo _].
    assert (Hz : (Z.of_nat row + 1 <= Zceil (h / cs))%Z) by lia.
    apply IZR_le in Hz. rewrite plus_IZR, <- INR_IZR_INZ in Hz.
    assert (Hq : INR row < h / cs) by lra.
    apply (Rmult_lt_compat_r cs) in Hq; [|exact Hcs].
    replace (h / cs * cs) with h in Hq by (field; lra). exact Hq. }
  split; split; nra.
Qed.



(** *** Frames without wind *)

Lemma advances_mapM {A B} (f : A -> M B) (l : list A) :
  (forall a, advances (f a)) -> advances (mapM f l).
Proof.
  intros Hf. induction l as [|a l IH]; cbn [mapM]; advances; auto.
Qed.

Lemma advances_filterM {A} (p : A -> M bool) (l : list A) :
  (forall a, advances (p a)) -> advances (filterM p l).
Proof.
  intros Hp. induction l as [|a l IH]; cbn [filterM]; advances; auto.
Qed.

Lemma advances_foldM {A S} (f : S -> A -> M S) (l : list A) :
  (forall s a, advances (f s a)) -> forall s, advances (foldM f l s).
Proof.
  intros Hf. induction l as [|a l IH]; intros s; cbn [foldM]; advances; auto.
Qed.

Lemma advances_getWindForce this x y :
  advances (GrassWindBackground.getWindForce this x y).
Proof.
  unfold GrassWindBackground.getWindForce. advances.
  apply advances_foldM. intros s g.
  unfold GrassWindBackground.add_gust_force. advances.
Qed.

Lemma advances_update this deltaTime :
  advances (GrassWindBackground.update this deltaTime).
Proof.
  unfold GrassWindBackground.update. advances.
  - apply advances_filterM. apply advances_isAlive.
  - apply advances_mapM. intros b.
    unfold GrassWindBackground.update_blade.
    apply advances_bind; [apply advances_getWindForce|].
    intros wind. apply advances_ret.
Qed.

Lemma mapM_pure {A B} (f : A -> M B) (g : A -> B) (l : list A) :
  (forall a w, f a w = (g a, w)) ->
  forall w, mapM f l w = (map g l, w).
Proof.
  intros Hf. induction l as [|a l IH]; intros w; cbn [mapM map].
  - reflexivity.
  - unfold bind, ret. rewrite Hf, IH. reflexivity.
Qed.

Lemma update_blade_still this b w :
  fieldStrength (GrassWindBackground.config this) = Fin 0 ->
  GrassWindBackground.gusts this = [] ->
  GrassWindBackground.isMouseOver this = false ->
  GrassWindBackground.update_blade this b w = (GrassBlade.update b 0 0, w).
Proof.
  intros Hs Hg Hm.
  unfold GrassWindBackground.update_blade, GrassWindBackground.getWindForce,
    GrassWindBackground.add_mouse_wind, bind, ret.
  rewrite Hs, Hg, Hm. cbn [foldM ret vx vy].
  destruct (smoothNoise _ _ _ _ * JS.Math_PI * 2)%js as [r| | |];
    cbn [JS.Math_cos JS.Math_sin JS.mul].
  - replace (cos r * 0) with 0 by ring. replace (sin r * 0) with 0 by ring.
    reflexivity.
  - rewrite update_NaN_wind. reflexivity.
  - rewrite update_NaN_wind. reflexivity.
  - rewrite update_NaN_wind. reflexivity.
Qed.

Lemma update_still this deltaTime w f :
  fieldStrength (GrassWindBackground.config this) = Fin 0 ->
  gustFrequency (GrassWindBackground.config this) = Fin f -> f <= 0 ->
  GrassWindBackground.gusts this = [] ->
  GrassWindBackground.isMouseOver this = false ->
  random_in_unit w ->
  exists this',
    GrassWindBackground.update this deltaTime w
    = (this', snd (Math_random w)) /\
    GrassWindBackground.blades this'
    = map (fun b => GrassBlade.update b 0 0)
          (GrassWindBackground.blades this) /\
    GrassWindBackground.gusts this' = [].
Proof.
  intros Hs Hf Hf0 Hg Hm Hu.
  destruct (Hu (random_calls w)) as (a & Ea & Ha).
  unfold GrassWindBackground.update, bind, ret.
  set (this1 := GrassWindBackground.update_mouse _).
  assert (E1 : GrassWindBackground.config this1
               = GrassWindBackground.config this /\
               GrassWindBackground.gusts this1 = [] /\
               GrassWindBackground.isMouseOver this1 = false /\
               GrassWindBackground.blades this1
               = GrassWindBackground.blades this).
  { unfold this1, GrassWindBackground.update_mouse.
    cbn [GrassWindBackground.set_time GrassWindBackground.isMouseOver].
    rewrite Hm. cbn. auto. }
  destruct E1 as (Hc1 & Hg1 & Hm1 & Hb1).
  unfold GrassWindBackground.spawn_gust, bind, ret, Math_random.
  rewrite Hc1, Hf, Ea. unfold JS.lt at 1. rewrite Rltb_false by lra.
  rewrite Hg1. cbn [filterM ret].
  set (this2 := GrassWindBackground.set_gusts this1 []).
  rewrite (mapM_pure (GrassWindBackground.update_blade this2)
             (fun b => GrassBlade.update b 0 0)).
  - eexists. split; [reflexivity|]. unfold this2.
    cbn [snd GrassWindBackground.blades GrassWindBackground.gusts
         GrassWindBackground.set_blades GrassWindBackground.set_gusts].
    rewrite Hb1. auto.
  - intros b w0. apply update_blade_still.
    + unfold this2. cbn [GrassWindBackground.config
                         GrassWindBackground.set_gusts]. rewrite Hc1. exact Hs.
    + reflexivity.
    + exact Hm1.
Qed.

Lemma calm_front n b : calm (S n) b = calm n (GrassBlade.update b 0 0).
Proof. reflexivity. Qed.

(** X18. Still air: with a zero [fieldStrength], a [gustFrequency] of
    zero or less, no gust in flight and the pointer outside the
    container, frame updates spawn no gust and move each blade exactly as
    zero wind does, whatever the elapsed times: after [n] frames every
    blade is where [n] windless ticks take it, so the field only coasts
    on the velocities it already has. *)
Theorem still_air_blades_only_coast :
  forall (deltaTimes : list num) (this : GrassWindBackground.t) (w : World)
         (f : R),
    fieldStrength (GrassWindBackground.config this) = Fin 0 ->
    gustFrequency (GrassWindBackground.config this) = Fin f -> f <= 0 ->
    GrassWindBackground.gusts this = [] ->
    GrassWindBackground.isMouseOver this = false ->
    random_in_unit w ->
    let after := fst (run_updates this deltaTimes w) in
    GrassWindBackground.blades after
    = map (calm (List.length deltaTimes)) (GrassWindBackground.blades this)
    /\ GrassWindBackground.gusts after = [].
Proof.
  induction deltaTimes as [|dt dts IH]; intros this w f Hs Hf Hf0 Hg Hm Hu.
  - cbn. split; [|exact Hg]. symmetry. apply map_id.
  - cbv zeta. rewrite run_updates_cons.
    destruct (update_still this dt w f Hs Hf Hf0 Hg Hm Hu)
      as (this' & E & Hb1 & Hg1).
    destruct (update_keeps_pointer this dt w) as (Hc & _ & _ & _ & _ & Hm').
    pose proof (advances_update this dt w) as Hle.
    rewrite E in *. cbn [fst snd] in *.
    assert (Hs' : fieldStrength (GrassWindBackground.config this') = Fin 0)
      by (rewrite Hc; exact Hs).
    assert (Hf' : gustFrequency (GrassWindBackground.config this') = Fin f)
      by (rewrite Hc; exact Hf).
    assert (Hm1 : GrassWindBackground.isMouseOver this' = false)
      by (rewrite Hm'; exact Hm).
    pose proof (random_in_unit_le _ _ Hle Hu) as Hu'.
    destruct (IH this' (snd (Math_random w)) f Hs' Hf' Hf0 Hg1 Hm1 Hu')
      as [Hb Hg'].
    split; [|exact Hg'].
    rewrite Hb, Hb1, map_map. cbn [List.length].
    apply map_ext. intros b. symmetry. apply calm_front.
Qed.

Lemma still_air_blades_only_coast_witness :
  GrassWindBackground.blades
    (fst (run_updates windless_sim [Fin 16; Fin 16] still_world))
  = map (calm (List.length [Fin 16; Fin 16]))
        (GrassWindBackground.blades windless_sim)
  /\ GrassWindBackground.gusts
       (fst (run_updates windless_sim [Fin 16; Fin 16] still_world)) = [].
Proof.
  apply (still_air_blades_only_coast [Fin 16; Fin 16] windless_sim
           still_world 0).
  - reflexivity.
  - reflexivity.
  - lra.
  - reflexivity.
  - reflexivity.
  - intros n. exists 0.5. split; [reflexivity | lra].
Defined.

(** X19. The base field turns the wind, it does not change its speed:
    with no gust in flight and the pointer outside, the wind at any
    finite point has magnitude exactly [|fieldStrength|], at every
    finite field time and scale; the noise only sets its direction. *)
Theorem ambient_wind_has_constant_speed :
  forall (this : GrassWindBackground.t) (x y sc t s : R) (w : World),
    fieldScale (GrassWindBackground.config this) = Fin sc ->
    GrassWindBackground.time this = Fin t ->
    fieldStrength (GrassWindBackground.config this) = Fin s ->
    GrassWindBackground.gusts this = [] ->
    GrassWindBackground.isMouseOver this = false ->
    Spec.magnitude
      (fst (GrassWindBackground.getWindForce this (Fin x) (Fin y) w))
    = Fin (Rabs s).
Proof.
  intros this x y sc t s w Hsc Ht Hs Hg Hm.
  unfold GrassWindBackground.getWindForce,
    GrassWindBackground.add_mouse_wind, bind, ret.
  rewrite Hsc, Ht, Hs, Hg, Hm. cbn [foldM ret fst].
  destruct (smoothNoise_range x y sc t) as (v & Ev & _). rewrite Ev.
  unfold JS.Math_PI. autorewrite with jsnum.
  apply magnitude_scaled. apply cos_sin_unit.
Qed.

Lemma ambient_wind_has_constant_speed_witness :
  Spec.magnitude
    (fst (GrassWindBackground.getWindForce desktop_container
            (Fin 20) (Fin 20) still_world))
  = Fin (Rabs 0.15).
Proof.
  apply (ambient_wind_has_constant_speed desktop_container
           20 20 0.003 0 0.15 still_world); reflexivity.
Defined.

Lemma update_time this deltaTime w :
  GrassWindBackground.time (fst (GrassWindBackground.update this deltaTime w))
  = (GrassWindBackground.time this
     + fieldSpeed (GrassWindBackground.config this) * deltaTime)%js.
Proof.
  destruct (update_shape this deltaTime w) as (gs & bs & E). rewrite E.
  unfold GrassWindBackground.update_mouse.
  destruct (GrassWindBackground.isMouseOver _); reflexivity.
Qed.

(** X20. Field time is the elapsed time scaled by [fieldSpeed]: after
    any number of frames with finite elapsed times the noise seed
    [time] has advanced by [fieldSpeed] times their sum, so it does not
    depend on how the elapsed time was cut into frames. *)
Theorem field_time_accumulates :
  forall (deltaTimes : list R) (this : GrassWindBackground.t) (w : World)
         (t0 speed : R),
    GrassWindBackground.time this = Fin t0 ->
    fieldSpeed (GrassWindBackground.config this) = Fin speed ->
    GrassWindBackground.time
      (fst (run_updates this (map Fin deltaTimes) w))
    = Fin (t0 + speed * total deltaTimes).
Proof.
  induction deltaTimes as [|dt dts IH]; intros this w t0 speed Ht Hs.
  - cbn. rewrite Ht. apply Fin_eq. lra.
  - cbn [map]. rewrite run_updates_cons.
    destruct (update_keeps_pointer this (Fin dt) w) as (Hc & _).
    rewrite (IH _ _ (t0 + speed * dt) speed).
    + apply Fin_eq. cbn [total fold_right]. fold (total dts). lra.
    + rewrite update_time, Ht, Hs. reflexivity.
    + rewrite Hc. exact Hs.
Qed.

Lemma field_time_accumulates_witness :
  GrassWindBackground.time
    (fst (run_updates desktop_container (map Fin [16; 17]) still_world))
  = Fin (0 + 1 * total [16; 17]).
Proof.
  apply (field_time_accumulates [16; 17] desktop_container still_world 0 1);
    reflexivity.
Defined.

(* ================================================================== *)
(** ** Further properties: the animation loop *)
(* ================================================================== *)

(** X21. The reduced motion throttle: with [reducedMotion] set and a
    positive [reducedMotionFPS], a frame that comes less than
    [1000 / reducedMotionFPS] milliseconds after the last drawn one
    changes nothing and draws nothing: the simulation, the time of the
    last drawn frame and the oracles are untouched, only the next frame
    is requested.  A frame that comes later is simulated with the whole
    time since the last drawn frame, skipped frames included.  The very
    first frame ([lastFrameTime] still 0) is always skipped and only
    records its time. *)
Theorem reduced_motion_skips_early_frames :
  forall (this : Animation.t) (fps t : R) (w : World)
         (fr : Animation.Frames),
    let cfg := GrassWindBackground.config (Animation.sim this) in
    let h := S (Animation.last_handle fr) in
    let fr' := Animation.mkFrames h (Animation.pending fr ++ [h]) in
    reducedMotion cfg = true ->
    reducedMotionFPS cfg = Fin fps -> 0 < fps ->
    (Animation.lastFrameTime this = Fin 0 ->
     Animation.animate this (Fin t) w fr
     = (Animation.mk (Animation.sim this) (Some h) (Fin t), [], w, fr'))
    /\ (forall t0,
          Animation.lastFrameTime this = Fin t0 -> t0 <> 0 ->
          (t - t0 < 1000 / fps ->
           Animation.animate this (Fin t) w fr
           = (Animation.mk (Animation.sim this) (Some h) (Fin t0),
              [], w, fr'))
          /\ (1000 / fps <= t - t0 ->
              let r := GrassWindBackground.update (Animation.sim this)
                         (Fin (t - t0)) w in
              Animation.animate this (Fin t) w fr
              = (Animation.mk (fst r) (Some h) (Fin t),
                 GrassWindBackground.render (fst r), snd r, fr'))).
Proof.
  intros this fps t w fr cfg h fr' Hrm Hfps Hpos.
  assert (Hmin : 0 < 1000 / fps) by (apply Rdiv_lt_0_compat; lra).
  split; [|intros t0 Hlast Ht0; split]; intros H;
    unfold Animation.animate; fold cfg.
  - rewrite H, Hrm, Hfps. cbn [Animation.falsy].
    rewrite Reqb_true by reflexivity.
    rewrite div_Fin by lra. autorewrite with jsnum. unfold JS.lt.
    rewrite Rltb_true by lra. reflexivity.
  - rewrite Hlast, Hrm, Hfps. cbn [Animation.falsy].
    rewrite Reqb_false by exact Ht0.
    rewrite div_Fin by lra. autorewrite with jsnum. unfold JS.lt.
    rewrite Rltb_true by lra. reflexivity.
  - rewrite Hlast, Hrm, Hfps. cbn [Animation.falsy].
    rewrite Reqb_false by exact Ht0.
    rewrite div_Fin by lra. autorewrite with jsnum. unfold JS.lt.
    rewrite Rltb_false by lra. cbn [andb].
    destruct (GrassWindBackground.update _ _ w) as [sim' w'].
    reflexivity.
Qed.

Lemma reduced_motion_skips_early_frames_witness :
  Animation.animate reduced_motion_loop (Fin 1100) still_world one_pending
  = (Animation.mk (Animation.sim reduced_motion_loop) (Some 2%nat)
       (Fin 1000),
     [], still_world, Animation.mkFrames 2 [1%nat; 2%nat]).
Proof.
  refine (proj1 (proj2 (reduced_motion_skips_early_frames
                          reduced_motion_loop 5 1100 still_world one_pending
                          _ _ _) 1000 _ _) _).
  - reflexivity.
  - reflexivity.
  - lra.
  - reflexivity.
  - lra.
  - lra.
Defined.

(** X22. Starting and stopping: [start] on an idle instance requests
    one frame and remembers its handle; a second [start] does nothing,
    so two loops never run side by side; [stop] cancels exactly that
    request, leaving the browser's pending callbacks as they were before
    [start], and clears the handle without touching the simulation or
    the time of the last drawn frame; a second [stop] does nothing. *)
Theorem start_stop_round_trip :
  forall (this : Animation.t) (fr : Animation.Frames),
    Animation.animationFrame this = None ->
    Forall (fun p => (p <= Animation.last_handle fr)%nat)
           (Animation.pending fr) ->
    let h := S (Animation.last_handle fr) in
    let started := fst (Animation.start this fr) in
    let fr1 := snd (Animation.start this fr) in
    let stopped := fst (Animation.stop started fr1) in
    let fr2 := snd (Animation.stop started fr1) in
    Animation.animationFrame started = Some h
    /\ Animation.pending fr1 = Animation.pending fr ++ [h]
    /\ Animation.start started fr1 = (started, fr1)
    /\ stopped = this
    /\ Animation.pending fr2 = Animation.pending fr
    /\ Animation.stop stopped fr2 = (stopped, fr2).
Proof.
  intros this fr Hidle Hpend h started fr1 stopped fr2.
  assert (Es : Animation.start this fr
               = (Animation.mk (Animation.sim this) (Some h)
                    (Animation.lastFrameTime this),
                  Animation.mkFrames h (Animation.pending fr ++ [h]))).
  { unfold Animation.start. rewrite Hidle. reflexivity. }
  assert (Ef : filter (fun h' => negb (Nat.eqb h' h))
                 (Animation.pending fr ++ [h]) = Animation.pending fr).
  { rewrite filter_app. cbn [filter]. rewrite Nat.eqb_refl. cbn [negb].
    rewrite app_nil_r.
    apply forallb_filter_id. apply forallb_forall. intros p Hp.
    rewrite Forall_forall in Hpend. specialize (Hpend p Hp).
    apply Bool.negb_true_iff. apply Nat.eqb_neq. unfold h. lia. }
  assert (Et : Animation.stop started fr1
               = (this, Animation.mkFrames h (Animation.pending fr))).
  { unfold started, fr1. rewrite Es. unfold Animation.stop.
    cbn [fst snd Animation.animationFrame Animation.sim
         Animation.lastFrameTime Nat.eqb].
    unfold Animation.cancelAnimationFrame.
    cbn [Animation.pending Animation.last_handle]. rewrite Ef.
    destruct this as [sm af lt]. cbn in Hidle. subst af. reflexivity. }
  unfold stopped, fr2. rewrite Et. unfold started, fr1. rewrite Es.
  cbn [fst snd Animation.animationFrame Animation.pending].
  split; [reflexivity|]. split; [reflexivity|]. split.
  - unfold Animation.start.
    cbn [Animation.animationFrame Animation.no_frame Nat.eqb]. reflexivity.
  - split; [reflexivity|]. split; [reflexivity|].
    unfold Animation.stop. rewrite Hidle. reflexivity.
Qed.

Lemma start_stop_round_trip_witness :
  Animation.animationFrame
    (fst (Animation.start (Animation.mk desktop_container None 0)
            one_pending)) = Some 2%nat
  /\ Animation.pending
       (snd (Animation.start (Animation.mk desktop_container None 0)
               one_pending)) = [1%nat; 2%nat].
Proof.
  refine (let H := start_stop_round_trip
                     (Animation.mk desktop_container None 0) one_pending
                     eq_refl _ in
          conj (proj1 H) (proj1 (proj2 H))).
  constructor; [cbn; lia | constructor].
Defined.

(** X23. A pause counts as elapsed time: [stop] keeps the time of the
    last drawn frame, so the first frame after [stop] and [start] is
    simulated with the whole pause as its elapsed time, and the field
    time jumps by [fieldSpeed] times the pause. *)
Theorem pause_counts_as_elapsed_time :
  forall (this : Animation.t) (fr fr' : Animation.Frames) (w : World)
         (pending_handle : nat) (t0 t tm speed : R),
    let cfg := GrassWindBackground.config (Animation.sim this) in
    Animation.animationFrame this = Some pending_handle ->
    pending_handle <> 0%nat ->
    Animation.lastFrameTime this = Fin t0 -> t0 <> 0 ->
    reducedMotion cfg = false ->
    GrassWindBackground.time (Animation.sim this) = Fin tm ->
    fieldSpeed cfg = Fin speed ->
    let stopped := Animation.stop this fr in
    let resumed := Animation.start (fst stopped) (snd stopped) in
    let r := Animation.animate (fst resumed) (Fin t) w fr' in
    Animation.animationFrame (fst stopped) = None
    /\ Animation.sim (animated r)
       = fst (GrassWindBackground.update (Animation.sim this)
                (Fin (t - t0)) w)
    /\ GrassWindBackground.time (Animation.sim (animated r))
       = Fin (tm + speed * (t - t0))
    /\ Animation.lastFrameTime (animated r) = Fin t.
Proof.
  intros this fr fr' w ph t0 t tm speed cfg Hh Hh0 Hlast Ht0 Hrm Htm Hsp
    stopped resumed r.
  assert (Estop : fst stopped
                  = Animation.mk (Animation.sim this) None (Fin t0)).
  { unfold stopped, Animation.stop. rewrite Hh.
    apply Nat.eqb_neq in Hh0. rewrite Hh0, Hlast. reflexivity. }
  assert (Eres : fst resumed
                 = Animation.mk (Animation.sim this)
                     (Some (S (Animation.last_handle (snd stopped))))
                     (Fin t0)).
  { unfold resumed, Animation.start. rewrite Estop. reflexivity. }
  assert (Er : animated r
               = Animation.mk
                   (fst (GrassWindBackground.update (Animation.sim this)
                           (Fin (t - t0)) w))
                   (Some (S (Animation.last_handle fr'))) (Fin t)).
  { unfold r, Animation.animate. rewrite Eres.
    cbn [Animation.sim Animation.lastFrameTime Animation.falsy].
    fold cfg. rewrite Hrm, Reqb_false by exact Ht0. cbn [andb].
    autorewrite with jsnum.
    destruct (GrassWindBackground.update _ _ w) as [sim' w'].
    reflexivity. }
  rewrite Er, Estop. cbn [Animation.animationFrame Animation.sim
                          Animation.lastFrameTime].
  split; [reflexivity|]. split; [reflexivity|]. split; [|reflexivity].
  rewrite update_time, Htm. fold cfg. rewrite Hsp. reflexivity.
Qed.

Lemma pause_counts_as_elapsed_time_witness :
  GrassWindBackground.time
    (Animation.sim
       (animated
          (Animation.animate
             (fst (Animation.start
                     (fst (Animation.stop running_loop one_pending))
                     (snd (Animation.stop running_loop one_pending))))
             (Fin 61000) still_world
             (snd (Animation.start
                     (fst (Animation.stop running_loop one_pending))
                     (snd (Animation.stop running_loop one_pending)))))))
  = Fin (0 + 1 * (61000 - 1000)).
Proof.
  refine (proj1 (proj2 (proj2
            (pause_counts_as_elapsed_time running_loop one_pending _
               still_world 1%nat 1000 61000 0 1 _ _ _ _ _ _ _)))).
  - reflexivity.
  - discriminate.
  - reflexivity.
  - lra.
  - reflexivity.
  - reflexivity.
  - reflexivity.
Defined.
